(** * IRENO Smart Assistant: the client-side state layer

    A shallow embedding of [frontend/src/context/AppContext.jsx] (the reducer,
    the localStorage persistence and the hydration merge), of the chat
    submission of [ChatInput.jsx] and of the new-chat handler of
    [ConversationSidebar.jsx], together with the properties the specification
    states about them; then of the handlers of the other components
    ([AppHeader.jsx], [WelcomeScreen.jsx], [LoginPage.jsx], [App.jsx],
    [MainChat.jsx], [SettingsModal.jsx], [ChatArea.jsx]) and of the rest of
    the sidebar, with further properties of the whole.

    JavaScript is dynamically typed, so the embedding works on a universe of
    JavaScript values; objects are finite maps from property names to values
    (stdpp's [gmap]), which gives extensional equality: two objects with the
    same properties are equal, whatever the order the properties were written
    in. Exceptions are explicit ([result]); code that talks to
    [localStorage] and [console] threads a [World]. *)

From Stdlib Require Import ZArith Ascii String List.
From stdpp Require Import gmap strings list fin_maps.

#[local] Set Warnings "-register-all".

Open Scope string_scope.
Open Scope Z_scope.
Open Scope list_scope.

(** ** JavaScript values *)

(** The values the program handles. [VDate iso] is a valid [Date] object,
    kept as the text its [toISOString()] gives. Numbers are the integers (the
    application state holds none: ids are [Date.now().toString()] strings).
    Fractions, [NaN], the infinities and negative zero, an invalid [Date],
    an array with holes, functions, symbols, cycles and shared references are
    not values of the model, and no statement below speaks of them. *)
Inductive value : Type :=
| VUndefined
| VNull
| VBool (b : bool)
| VNum (n : Z)
| VStr (s : string)
| VDate (iso : string)
| VArr (xs : list value)
| VObj (fields : gmap string value).

(** An exception object, with its [name] and its [message]. *)
Record error : Type := Error { error_name : string; error_message : string }.

(** The outcome of running a piece of code: it returns, it throws, or it
    leaves the fragment of JavaScript that the model covers ([Unmodelled] is
    not an exception and no [catch] sees it). *)
Inductive result (A : Type) : Type :=
| Ok (a : A)
| Throw (e : error)
| Unmodelled.
Arguments Ok {A} a.
Arguments Throw {A} e.
Arguments Unmodelled {A}.

#[global] Instance result_ret : MRet result := fun _ a => Ok a.
#[global] Instance result_bind : MBind result := fun _ _ f r =>
  match r with
  | Ok a => f a
  | Throw e => Throw e
  | Unmodelled => Unmodelled
  end.

Definition TypeError (msg : string) : error := Error "TypeError" msg.

(** [arr.map(f)] over the elements, stopping at the first exception. *)
Fixpoint mapM {A B : Type} (f : A -> result B) (l : list A) : result (list B) :=
  match l with
  | [] => Ok []
  | x :: l' => y ← f x; ys ← mapM f l'; Ok (y :: ys)
  end.

(** [arr.filter(p)]. *)
Fixpoint filterM {A : Type} (p : A -> result bool) (l : list A) : result (list A) :=
  match l with
  | [] => Ok []
  | x :: l' => b ← p x; ys ← filterM p l'; Ok (if (b : bool) then x :: ys else ys)
  end.

(** *** Decimal text of integers ([Number.prototype.toString]) *)

Definition digit_char (d : N) : ascii := ascii_of_N (48 + d).

Fixpoint N_digits (fuel : nat) (n : N) (acc : list ascii) : list ascii :=
  match fuel with
  | O => acc
  | S fuel' =>
      let acc' := digit_char (n mod 10) :: acc in
      if (n <? 10)%N then acc' else N_digits fuel' (n / 10) acc'
  end.

(** A number below [2^k] has at most [k] decimal digits, so the fuel is
    never what stops the loop. *)
Definition N_to_chars (n : N) : list ascii := N_digits (S (N.to_nat (N.log2 n))) n [].

Definition Z_to_chars (z : Z) : list ascii :=
  if z <? 0 then "-"%char :: N_to_chars (Z.to_N (- z))
  else N_to_chars (Z.to_N z).

Definition N_to_string (n : N) : string := string_of_list_ascii (N_to_chars n).
Definition Z_to_string (z : Z) : string := string_of_list_ascii (Z_to_chars z).

(** *** Property access, spread, equality *)

(** The own enumerable properties that [{...v}] copies: the fields of an
    object, the indices of an array or of a string; nothing for the other
    values ([{...null}] is [{}]). *)
Fixpoint index_props {A : Type} (i : N) (l : list A) : gmap string A :=
  match l with
  | [] => ∅
  | x :: l' => <[N_to_string i := x]> (index_props (N.succ i) l')
  end.

Definition chars_of (s : string) : list value :=
  map (fun c => VStr (String c EmptyString)) (list_ascii_of_string s).

Definition spread (v : value) : gmap string value :=
  match v with
  | VObj m => m
  | VArr xs => index_props 0 xs
  | VStr s => index_props 0 (chars_of s)
  | _ => ∅
  end.

(** [v.k]: a [TypeError] on [null] and [undefined], [undefined] for a
    property that is not there. *)
Definition get (k : string) (v : value) : result value :=
  match v with
  | VUndefined | VNull => Throw (TypeError ("Cannot read properties of null or undefined (reading " +:+ k +:+ ")"))
  | VObj m => Ok (default VUndefined (m !! k))
  | VArr xs =>
      if String.eqb k "length" then Ok (VNum (Z.of_nat (length xs)))
      else Ok (default VUndefined (index_props 0 xs !! k))
  | VStr s =>
      if String.eqb k "length" then Ok (VNum (Z.of_nat (String.length s)))
      else Ok (default VUndefined (index_props 0 (chars_of s) !! k))
  | _ => Ok VUndefined
  end.

(** [v?.k]. *)
Definition get_opt (k : string) (v : value) : result value :=
  match v with
  | VUndefined | VNull => Ok VUndefined
  | _ => get k v
  end.

(** [[...v]]: the elements of an iterable, a [TypeError] otherwise. *)
Definition iterate (v : value) : result (list value) :=
  match v with
  | VArr xs => Ok xs
  | VStr s => Ok (chars_of s)
  | _ => Throw (TypeError "value is not iterable")
  end.

(** [a === b]. Primitives compare by value. Objects, arrays and dates
    compare by reference in JavaScript; the values of the model are trees,
    each standing for an allocation of its own, so two of them are never
    [===]. Whenever one side is a primitive (every id of the application is
    a string) this is exactly JavaScript's answer. *)
Definition strict_eq (a b : value) : bool :=
  match a, b with
  | VUndefined, VUndefined => true
  | VNull, VNull => true
  | VBool x, VBool y => Bool.eqb x y
  | VNum x, VNum y => (x =? y)
  | VStr x, VStr y => String.eqb x y
  | _, _ => false
  end.

(** Truthiness ([if (v)], [!v]). *)
Definition truthy (v : value) : bool :=
  match v with
  | VUndefined | VNull => false
  | VBool b => b
  | VNum n => negb (n =? 0)
  | VStr s => negb (String.eqb s "")
  | _ => true
  end.

(** [typeof v]. *)
Definition typeof (v : value) : string :=
  match v with
  | VUndefined => "undefined"
  | VBool _ => "boolean"
  | VNum _ => "number"
  | VStr _ => "string"
  | VNull | VDate _ | VArr _ | VObj _ => "object"
  end.

(** [arr.map(f)] and [arr.filter(p)] as method calls: only an array has
    the method. *)
Definition array_map (f : value -> result value) (v : value) : result value :=
  match v with
  | VArr xs => ys ← mapM f xs; Ok (VArr ys)
  | _ => Throw (TypeError "map is not a function")
  end.

Definition array_filter (p : value -> result bool) (v : value) : result value :=
  match v with
  | VArr xs => ys ← filterM p xs; Ok (VArr ys)
  | _ => Throw (TypeError "filter is not a function")
  end.

(** ** The reducer ([AppContext.jsx])

    An object literal [{...state, k: v}] is [VObj (<[k := v]> (spread state))]:
    the copied properties with [k] set last. *)

(** A dispatched action [{type, payload}]; an action creator that passes no
    payload leaves it [undefined]. *)
Record Action : Type := mkAction { type : value; payload : value }.

(** [ActionTypes]. *)
Definition SET_USER : value := VStr "SET_USER".
Definition LOGOUT_USER : value := VStr "LOGOUT_USER".
Definition SET_THEME : value := VStr "SET_THEME".
Definition TOGGLE_SIDEBAR : value := VStr "TOGGLE_SIDEBAR".
Definition ADD_CONVERSATION : value := VStr "ADD_CONVERSATION".
Definition SET_ACTIVE_CONVERSATION : value := VStr "SET_ACTIVE_CONVERSATION".
Definition ADD_MESSAGE : value := VStr "ADD_MESSAGE".
Definition SET_TYPING : value := VStr "SET_TYPING".
Definition DELETE_CONVERSATION : value := VStr "DELETE_CONVERSATION".
Definition UPDATE_CONVERSATION : value := VStr "UPDATE_CONVERSATION".
Definition CLEAR_ALL_CONVERSATIONS : value := VStr "CLEAR_ALL_CONVERSATIONS".

Definition ActionTypes : list value :=
  [SET_USER; LOGOUT_USER; SET_THEME; TOGGLE_SIDEBAR; ADD_CONVERSATION;
   SET_ACTIVE_CONVERSATION; ADD_MESSAGE; SET_TYPING; DELETE_CONVERSATION;
   UPDATE_CONVERSATION; CLEAR_ALL_CONVERSATIONS].

(** The callback of [ADD_MESSAGE]'s [map]:
    [conv.id === action.payload.conversationId
       ? { ...conv, messages: [...conv.messages, action.payload.message] } : conv]. *)
Definition add_message_to (action : Action) (conv : value) : result value :=
  id ← get "id" conv;
  target ← get "conversationId" (payload action);
  if strict_eq id target then
    messages ← get "messages" conv;
    old ← iterate messages;
    message ← get "message" (payload action);
    Ok (VObj (<["messages" := VArr (old ++ [message])]> (spread conv)))
  else Ok conv.

(** The callback of [DELETE_CONVERSATION]'s [filter]:
    [conv.id !== action.payload]. *)
Definition keep_conversation (action : Action) (conv : value) : result bool :=
  id ← get "id" conv;
  Ok (negb (strict_eq id (payload action))).

(** The callback of [UPDATE_CONVERSATION]'s [map]:
    [conv.id === action.payload.id ? { ...conv, ...action.payload.updates } : conv]. *)
Definition update_conversation (action : Action) (conv : value) : result value :=
  id ← get "id" conv;
  target ← get "id" (payload action);
  if strict_eq id target then
    updates ← get "updates" (payload action);
    Ok (VObj (spread updates ∪ spread conv))
  else Ok conv.

(** [appReducer(state, action)]; the [switch] compares [action.type] with
    each case label by [===], in the order of the source. *)
Definition appReducer (state : value) (action : Action) : result value :=
  if strict_eq (type action) SET_USER then
    Ok (VObj (<["currentUser" := payload action]> (spread state)))
  else if strict_eq (type action) LOGOUT_USER then
    Ok (VObj (<["activeConversation" := VNull]>
             (<["conversations" := VArr []]>
             (<["currentUser" := VNull]> (spread state)))))
  else if strict_eq (type action) SET_THEME then
    Ok (VObj (<["theme" := payload action]> (spread state)))
  else if strict_eq (type action) TOGGLE_SIDEBAR then
    sidebarOpen ← get "sidebarOpen" state;
    Ok (VObj (<["sidebarOpen" := VBool (negb (truthy sidebarOpen))]> (spread state)))
  else if strict_eq (type action) ADD_CONVERSATION then
    conversations ← get "conversations" state;
    old ← iterate conversations;
    Ok (VObj (<["activeConversation" := payload action]>
             (<["conversations" := VArr (payload action :: old)]> (spread state))))
  else if strict_eq (type action) SET_ACTIVE_CONVERSATION then
    Ok (VObj (<["activeConversation" := payload action]> (spread state)))
  else if strict_eq (type action) ADD_MESSAGE then
    conversations ← get "conversations" state;
    updatedConversations ← array_map (add_message_to action) conversations;
    activeConversation ← get "activeConversation" state;
    activeId ← get_opt "id" activeConversation;
    target ← get "conversationId" (payload action);
    updatedActiveConv ←
      (if strict_eq activeId target then
         messages ← get "messages" activeConversation;
         old ← iterate messages;
         message ← get "message" (payload action);
         Ok (VObj (<["messages" := VArr (old ++ [message])]> (spread activeConversation)))
       else Ok activeConversation);
    Ok (VObj (<["activeConversation" := updatedActiveConv]>
             (<["conversations" := updatedConversations]> (spread state))))
  else if strict_eq (type action) SET_TYPING then
    Ok (VObj (<["isTyping" := payload action]> (spread state)))
  else if strict_eq (type action) DELETE_CONVERSATION then
    conversations ← get "conversations" state;
    filteredConversations ← array_filter (keep_conversation action) conversations;
    activeConversation ← get "activeConversation" state;
    activeId ← get_opt "id" activeConversation;
    Ok (VObj (<["activeConversation" :=
                  if strict_eq activeId (payload action) then VNull else activeConversation]>
             (<["conversations" := filteredConversations]> (spread state))))
  else if strict_eq (type action) UPDATE_CONVERSATION then
    conversations ← get "conversations" state;
    updated ← array_map (update_conversation action) conversations;
    Ok (VObj (<["conversations" := updated]> (spread state)))
  else if strict_eq (type action) CLEAR_ALL_CONVERSATIONS then
    Ok (VObj (<["activeConversation" := VNull]>
             (<["conversations" := VArr []]> (spread state))))
  else Ok state.

(** The action creators of [AppProvider]. *)
Definition setUser (user : value) : Action := mkAction SET_USER user.
Definition logoutUser : Action := mkAction LOGOUT_USER VUndefined.
Definition setTheme (theme : value) : Action := mkAction SET_THEME theme.
Definition toggleSidebar : Action := mkAction TOGGLE_SIDEBAR VUndefined.
Definition addConversation (conversation : value) : Action :=
  mkAction ADD_CONVERSATION conversation.
Definition setActiveConversation (conversation : value) : Action :=
  mkAction SET_ACTIVE_CONVERSATION conversation.
Definition addMessage (conversationId message : value) : Action :=
  mkAction ADD_MESSAGE
    (VObj (<["message" := message]> (<["conversationId" := conversationId]> ∅))).
Definition setTyping (isTyping : value) : Action := mkAction SET_TYPING isTyping.
Definition deleteConversation (conversationId : value) : Action :=
  mkAction DELETE_CONVERSATION conversationId.
Definition updateConversation (id updates : value) : Action :=
  mkAction UPDATE_CONVERSATION (VObj (<["updates" := updates]> (<["id" := id]> ∅))).
Definition clearAllConversations : Action := mkAction CLEAR_ALL_CONVERSATIONS VUndefined.

(** Successive dispatches: each transition runs to completion on the state
    the previous one returned. *)
Fixpoint dispatch_all (state : value) (actions : list Action) : result value :=
  match actions with
  | [] => Ok state
  | a :: rest => state' ← appReducer state a; dispatch_all state' rest
  end.

(** *** The data model of the state

    The shapes the reducer relies on: a conversation is an object whose
    [messages] is an array; a state is an object whose [conversations] is an
    array of conversations and whose [activeConversation] is [null] or a
    conversation. Nothing relates the active conversation to the collection:
    it is a copy, and [SET_ACTIVE_CONVERSATION] stores whatever it is given. *)

Definition is_conversation (c : value) : bool :=
  match c with
  | VObj m => match m !! "messages" with Some (VArr _) => true | _ => false end
  | _ => false
  end.

Definition is_state (s : value) : bool :=
  match s with
  | VObj m =>
      match m !! "conversations" with
      | Some (VArr cs) => forallb is_conversation cs
      | _ => false
      end
      && match m !! "activeConversation" with
         | Some VNull => true
         | Some c => is_conversation c
         | None => false
         end
  | _ => false
  end.

(** Readers used to state the properties: [s.conversations],
    [s.activeConversation], [c.messages] and [c?.id]. *)
Definition conversations_of (s : value) : list value :=
  match s with
  | VObj m => match m !! "conversations" with Some (VArr cs) => cs | _ => [] end
  | _ => []
  end.

Definition active_of (s : value) : value :=
  match s with
  | VObj m => default VUndefined (m !! "activeConversation")
  | _ => VUndefined
  end.

Definition messages_of (c : value) : list value :=
  match c with
  | VObj m => match m !! "messages" with Some (VArr ms) => ms | _ => [] end
  | _ => []
  end.

Definition id_of (c : value) : value :=
  match c with
  | VObj m => default VUndefined (m !! "id")
  | _ => VUndefined
  end.

(** [c?.id === id]. *)
Definition has_id (id c : value) : bool := strict_eq (id_of c) id.

(** The payloads the action creators are meant to be called with (section
    4.4 of the specification): a conversation for [ADD_CONVERSATION], a
    conversation or [null] for [SET_ACTIVE_CONVERSATION], a defined
    conversation id for [ADD_MESSAGE], and for [UPDATE_CONVERSATION] partial
    fields that leave [messages] a sequence. *)
Definition well_formed_payload (a : Action) : bool :=
  if strict_eq (type a) ADD_CONVERSATION then is_conversation (payload a)
  else if strict_eq (type a) SET_ACTIVE_CONVERSATION then
    match payload a with VNull => true | c => is_conversation c end
  else if strict_eq (type a) ADD_MESSAGE then
    match payload a with
    | VObj p => match p !! "conversationId" with
                | Some VUndefined | None => false
                | Some _ => true
                end
    | _ => false
    end
  else if strict_eq (type a) UPDATE_CONVERSATION then
    match payload a with
    | VObj p => match spread (default VUndefined (p !! "updates")) !! "messages" with
                | None | Some (VArr _) => true
                | Some _ => false
                end
    | _ => false
    end
  else true.

(** What [ADD_MESSAGE] does to one copy of a conversation. *)
Definition push_message (id message c : value) : value :=
  if has_id id c
  then VObj (<["messages" := VArr (messages_of c ++ [message])]> (spread c))
  else c.

(** What [UPDATE_CONVERSATION] does to one entry. *)
Definition merge_updates (id updates c : value) : value :=
  if has_id id c then VObj (spread updates ∪ spread c) else c.

(** ** The persistence codec: [JSON.stringify] and [JSON.parse]

    Both are built into the language; they are modelled here on the text
    itself (a list of characters), following ECMA-262 (SerializeJSONProperty,
    QuoteJSONString) and the JSON grammar of ECMA-404. A character of the
    model is a code unit below 256. *)

Definition dquote : ascii := "034"%char.
Definition backslash : ascii := "092"%char.

Definition hex_char (d : N) : ascii :=
  if (d <? 10)%N then ascii_of_N (48 + d) else ascii_of_N (87 + d).

(** QuoteJSONString, one code unit at a time. *)
Definition escape_char (c : ascii) : list ascii :=
  if Ascii.eqb c dquote then [backslash; dquote]
  else if Ascii.eqb c backslash then [backslash; backslash]
  else if Ascii.eqb c "008"%char then [backslash; "b"%char]
  else if Ascii.eqb c "012"%char then [backslash; "f"%char]
  else if Ascii.eqb c "010"%char then [backslash; "n"%char]
  else if Ascii.eqb c "013"%char then [backslash; "r"%char]
  else if Ascii.eqb c "009"%char then [backslash; "t"%char]
  else if (N_of_ascii c <? 32)%N then
    [backslash; "u"%char; "0"%char; "0"%char;
     hex_char (N_of_ascii c / 16); hex_char (N_of_ascii c mod 16)]
  else [c].

Definition quote (s : string) : list ascii :=
  dquote :: flat_map escape_char (list_ascii_of_string s) ++ [dquote].

Fixpoint join_comma (parts : list (list ascii)) : list ascii :=
  match parts with
  | [] => []
  | [p] => p
  | p :: rest => p ++ ","%char :: join_comma rest
  end.

Definition member (kv : string * list ascii) : list ascii :=
  quote kv.1 ++ ":"%char :: kv.2.

(** SerializeJSONProperty: [None] is the [undefined] that [JSON.stringify]
    answers for [undefined]. A [Date] is replaced by its [toJSON()], the ISO
    text; an [undefined] element of an array is written [null]; a field whose
    value is [undefined] is left out. (It also writes [null] for a [NaN], an
    infinity and an invalid [Date]: the model has none of them, so it has no
    case for them.) The fields of an object are written in
    the order [map_to_list] lists them, which need not be the order
    JavaScript wrote them in: [JSON.parse] does not depend on it. *)
Fixpoint serialize (v : value) : option (list ascii) :=
  match v with
  | VUndefined => None
  | VNull => Some (list_ascii_of_string "null")
  | VBool true => Some (list_ascii_of_string "true")
  | VBool false => Some (list_ascii_of_string "false")
  | VNum n => Some (Z_to_chars n)
  | VStr s => Some (quote s)
  | VDate iso => Some (quote iso)
  | VArr xs =>
      Some ("["%char ::
            join_comma (map (fun x => default (list_ascii_of_string "null") (serialize x)) xs)
            ++ ["]"%char])
  | VObj m =>
      Some ("{"%char :: join_comma (map member (map_to_list (omap serialize m)))
            ++ ["}"%char])
  end.

(** [JSON.stringify(v)]. The values of the model have no cycle and no
    BigInt, so it never throws. *)
Definition JSON_stringify (v : value) : option string :=
  string_of_list_ascii <$> serialize v.

(** What [JSON.parse(JSON.stringify(v))] is meant to give back for a value
    of the model: [v] with every [Date] turned into its ISO string, every
    [undefined] element turned into [null] and every [undefined] field
    dropped. *)
Fixpoint toJSON (v : value) : value :=
  match v with
  | VDate iso => VStr iso
  | VArr xs => VArr (map (fun x => match x with VUndefined => VNull | _ => toJSON x end) xs)
  | VObj m => VObj (omap (fun x => match x with VUndefined => None | _ => Some (toJSON x) end) m)
  | _ => v
  end.

(** *** The parser *)

(** An intermediate answer of the parser: a value with the text that
    follows it, a syntax error, or no fuel left. [exact] is [false] when the
    text is valid JSON that denotes a value outside the model (a number with
    a fraction or an exponent, a [\u] escape above 255). *)
Inductive parsed (A : Type) : Type :=
| Got (a : A) (exact : bool) (rest : list ascii)
| Bad
| Fuel.
Arguments Got {A} a exact rest.
Arguments Bad {A}.
Arguments Fuel {A}.

Definition is_ws (c : ascii) : bool :=
  Ascii.eqb c " "%char || Ascii.eqb c "009"%char || Ascii.eqb c "010"%char
  || Ascii.eqb c "013"%char.

Fixpoint skip_ws (s : list ascii) : list ascii :=
  match s with
  | c :: r => if is_ws c then skip_ws r else s
  | [] => []
  end.

Definition is_digit (c : ascii) : bool :=
  ((48 <=? N_of_ascii c) && (N_of_ascii c <=? 57))%N.

Definition hex_value (c : ascii) : option N :=
  let n := N_of_ascii c in
  if ((48 <=? n) && (n <=? 57))%N then Some (n - 48)%N
  else if ((97 <=? n) && (n <=? 102))%N then Some (n - 87)%N
  else if ((65 <=? n) && (n <=? 70))%N then Some (n - 55)%N
  else None.

(** The characters of a string literal after its opening quote, up to the
    closing one; [acc] holds the characters read so far, last first. *)
Fixpoint parse_string (s : list ascii) (acc : list ascii) (exact : bool)
  : parsed string :=
  match s with
  | [] => Bad
  | c :: r =>
      if Ascii.eqb c dquote then Got (string_of_list_ascii (rev acc)) exact r
      else if Ascii.eqb c backslash then
        match r with
        | [] => Bad
        | e :: r' =>
            if Ascii.eqb e dquote then parse_string r' (dquote :: acc) exact
            else if Ascii.eqb e backslash then parse_string r' (backslash :: acc) exact
            else if Ascii.eqb e "/"%char then parse_string r' ("/"%char :: acc) exact
            else if Ascii.eqb e "b"%char then parse_string r' ("008"%char :: acc) exact
            else if Ascii.eqb e "f"%char then parse_string r' ("012"%char :: acc) exact
            else if Ascii.eqb e "n"%char then parse_string r' ("010"%char :: acc) exact
            else if Ascii.eqb e "r"%char then parse_string r' ("013"%char :: acc) exact
            else if Ascii.eqb e "t"%char then parse_string r' ("009"%char :: acc) exact
            else if Ascii.eqb e "u"%char then
              match r' with
              | h1 :: h2 :: h3 :: h4 :: r'' =>
                  match hex_value h1, hex_value h2, hex_value h3, hex_value h4 with
                  | Some a, Some b, Some c', Some d =>
                      let n := (((a * 16 + b) * 16 + c') * 16 + d)%N in
                      if (n <? 256)%N then parse_string r'' (ascii_of_N n :: acc) exact
                      else parse_string r'' ("?"%char :: acc) false
                  | _, _, _, _ => Bad
                  end
              | _ => Bad
              end
            else Bad
        end
      else if (N_of_ascii c <? 32)%N then Bad
      else parse_string r (c :: acc) exact
  end.

(** A run of digits, read greedily. *)
Fixpoint parse_digits (s : list ascii) (acc : N) : N * list ascii :=
  match s with
  | c :: r => if is_digit c then parse_digits r (acc * 10 + (N_of_ascii c - 48))%N
              else (acc, s)
  | [] => (acc, [])
  end.

(** The optional fraction and exponent after the integer part; [None] when
    they are malformed, otherwise whether one was present and the rest. *)
Definition parse_fraction (s : list ascii) : option (bool * list ascii) :=
  match s with
  | c :: r =>
      if Ascii.eqb c "."%char then
        match r with
        | d :: _ => if is_digit d then Some (true, (parse_digits r 0).2) else None
        | [] => None
        end
      else Some (false, s)
  | [] => Some (false, [])
  end.

Definition parse_exponent (s : list ascii) : option (bool * list ascii) :=
  match s with
  | c :: r =>
      if Ascii.eqb c "e"%char || Ascii.eqb c "E"%char then
        let r' := match r with
                  | sg :: r1 => if Ascii.eqb sg "+"%char || Ascii.eqb sg "-"%char
                                then r1 else r
                  | [] => r
                  end in
        match r' with
        | d :: _ => if is_digit d then Some (true, (parse_digits r' 0).2) else None
        | [] => None
        end
      else Some (false, s)
  | [] => Some (false, [])
  end.

(** A JSON number: an optional minus sign; an integer part, which is a
    single zero or starts with a digit that is not zero; an optional fraction
    (a dot and at least one digit); an optional exponent (e or E, an optional
    sign, at least one digit). Only the integers are numbers of the model. *)
Definition parse_unsigned (negative : bool) (s : list ascii) : parsed value :=
  match s with
  | c :: r =>
      if is_digit c then
        let (n, r1) := if Ascii.eqb c "0"%char then (0%N, r) else parse_digits s 0 in
        match parse_fraction r1 with
        | Some (frac, r2) =>
            match parse_exponent r2 with
            | Some (exp, r3) =>
                Got (VNum (if negative then - Z.of_N n else Z.of_N n))
                    (negb frac && negb exp) r3
            | None => Bad
            end
        | None => Bad
        end
      else Bad
  | [] => Bad
  end.

Definition parse_number (s : list ascii) : parsed value :=
  match s with
  | c :: r => if Ascii.eqb c "-"%char then parse_unsigned true r else parse_unsigned false s
  | [] => Bad
  end.

(** A literal name ([null], [true], [false]). *)
Fixpoint strip_prefix (p s : list ascii) : option (list ascii) :=
  match p, s with
  | [], _ => Some s
  | c :: p', d :: s' => if Ascii.eqb c d then strip_prefix p' s' else None
  | _ :: _, [] => None
  end.

Definition parse_literal (name : string) (v : value) (s : list ascii) : parsed value :=
  match strip_prefix (list_ascii_of_string name) s with
  | Some r => Got v true r
  | None => Bad
  end.

(** The recursive descent. Every call consumes fuel, and two nested calls
    consume at least one character; [JSON_parse] gives more than twice as
    much fuel as the text has characters, so the fuel never runs out. *)
Fixpoint parse_value (fuel : nat) (s : list ascii) : parsed value :=
  match fuel with
  | O => Fuel
  | S fuel' =>
      match skip_ws s with
      | [] => Bad
      | c :: r =>
          if Ascii.eqb c "{"%char then
            match skip_ws r with
            | d :: r' =>
                if Ascii.eqb d "}"%char then Got (VObj ∅) true r'
                else parse_members fuel' (d :: r') ∅ true
            | [] => Bad
            end
          else if Ascii.eqb c "["%char then
            match skip_ws r with
            | d :: r' =>
                if Ascii.eqb d "]"%char then Got (VArr []) true r'
                else parse_elements fuel' (d :: r') [] true
            | [] => Bad
            end
          else if Ascii.eqb c dquote then
            match parse_string r [] true with
            | Got str e r' => Got (VStr str) e r'
            | Bad => Bad
            | Fuel => Fuel
            end
          else if Ascii.eqb c "n"%char then parse_literal "null" VNull (c :: r)
          else if Ascii.eqb c "t"%char then parse_literal "true" (VBool true) (c :: r)
          else if Ascii.eqb c "f"%char then parse_literal "false" (VBool false) (c :: r)
          else parse_number (c :: r)
      end
  end
with parse_elements (fuel : nat) (s : list ascii) (acc : list value) (exact : bool)
  : parsed value :=
  match fuel with
  | O => Fuel
  | S fuel' =>
      match parse_value fuel' s with
      | Got v e r =>
          match skip_ws r with
          | c :: r' =>
              if Ascii.eqb c ","%char then parse_elements fuel' r' (v :: acc) (exact && e)
              else if Ascii.eqb c "]"%char then Got (VArr (rev (v :: acc))) (exact && e) r'
              else Bad
          | [] => Bad
          end
      | Bad => Bad
      | Fuel => Fuel
      end
  end
with parse_members (fuel : nat) (s : list ascii) (acc : gmap string value) (exact : bool)
  : parsed value :=
  match fuel with
  | O => Fuel
  | S fuel' =>
      match skip_ws s with
      | q :: r =>
          if Ascii.eqb q dquote then
            match parse_string r [] true with
            | Got k e1 r1 =>
                match skip_ws r1 with
                | c :: r2 =>
                    if Ascii.eqb c ":"%char then
                      match parse_value fuel' r2 with
                      | Got v e2 r3 =>
                          match skip_ws r3 with
                          | d :: r4 =>
                              if Ascii.eqb d ","%char then
                                parse_members fuel' r4 (<[k := v]> acc) (exact && e1 && e2)
                              else if Ascii.eqb d "}"%char then
                                Got (VObj (<[k := v]> acc)) (exact && e1 && e2) r4
                              else Bad
                          | [] => Bad
                          end
                      | Bad => Bad
                      | Fuel => Fuel
                      end
                    else Bad
                | [] => Bad
                end
            | Bad => Bad
            | Fuel => Fuel
            end
          else Bad
      | [] => Bad
      end
  end.

Definition SyntaxError : error := Error "SyntaxError" "Unexpected token in JSON".

(** [JSON.parse(text)]: the value, a [SyntaxError], or [Unmodelled] for
    valid JSON that denotes a value outside the model. *)
Definition JSON_parse (text : string) : result value :=
  let s := list_ascii_of_string text in
  match parse_value (2 * length s + 2) s with
  | Got v exact rest =>
      match skip_ws rest with
      | [] => if exact then Ok v else Unmodelled
      | _ :: _ => Throw SyntaxError
      end
  | Bad => Throw SyntaxError
  | Fuel => Unmodelled
  end.

(** ** The environment: [localStorage], [console] and the store

    [localStorage] is the browser's Web Storage: a string-to-string store
    with a capacity. [setItem] throws a [QuotaExceededError] when the data
    would exceed the capacity, and every access throws a [SecurityError] when
    the page is denied storage. The size of the data is the number of
    characters of its keys and values. [dispatched] lists the actions handed
    to [dispatch], oldest first. *)

Record World : Type := mkWorld {
  stored : gmap string string;
  quota : nat;
  accessible : bool;
  console : list (string * string * option error);
  dispatched : list Action
}.

Definition set_stored (data : gmap string string) (w : World) : World :=
  mkWorld data (quota w) (accessible w) (console w) (dispatched w).

(** Code with effects: it reads and changes the world and returns, throws,
    or leaves the model. *)
Definition Eff (A : Type) : Type := World -> result A * World.

#[global] Instance eff_ret : MRet Eff := fun _ a w => (Ok a, w).
#[global] Instance eff_bind : MBind Eff := fun _ _ f m w =>
  match m w with
  | (Ok a, w') => f a w'
  | (Throw e, w') => (Throw e, w')
  | (Unmodelled, w') => (Unmodelled, w')
  end.

Definition throw {A : Type} (e : error) : Eff A := fun w => (Throw e, w).

Definition lift {A : Type} (r : result A) : Eff A := fun w => (r, w).

(** [try { body } catch (error) { handler }]. *)
Definition try_catch {A : Type} (body : Eff A) (handler : error -> Eff A) : Eff A :=
  fun w =>
    match body w with
    | (Throw e, w') => handler e w'
    | other => other
    end.

(** Evaluating an identifier that no scope binds. *)
Definition unbound_identifier {A : Type} (x : string) : Eff A :=
  throw (Error "ReferenceError" (x +:+ " is not defined")).

Definition QuotaExceededError : error :=
  Error "QuotaExceededError" "The quota has been exceeded.".
Definition SecurityError : error :=
  Error "SecurityError" "The operation is insecure.".

Definition usage (data : gmap string string) : nat :=
  map_fold (fun k v acc => (String.length k + String.length v + acc)%nat) 0%nat data.

Definition setItem (k v : string) : Eff unit := fun w =>
  if negb (accessible w) then (Throw SecurityError, w)
  else
    let data := <[k := v]> (stored w) in
    if (usage data <=? quota w)%nat
    then (Ok tt, set_stored data w)
    else (Throw QuotaExceededError, w).

(** [getItem] answers [null] for a key that is not there. *)
Definition getItem (k : string) : Eff value := fun w =>
  if negb (accessible w) then (Throw SecurityError, w)
  else (Ok (match stored w !! k with Some s => VStr s | None => VNull end), w).

Definition removeItem (k : string) : Eff unit := fun w =>
  if negb (accessible w) then (Throw SecurityError, w)
  else (Ok tt, set_stored (delete k (stored w)) w).

(** [console.warn], [console.info], [console.error]: a line of the log,
    with the error object printed after the text when there is one. *)
Definition console_log (method text : string) (e : option error) : Eff unit := fun w =>
  (Ok tt, mkWorld (stored w) (quota w) (accessible w) (console w ++ [(method, text, e)])
            (dispatched w)).

(** [dispatch(action)], as the action creators of [AppProvider] call it. *)
Definition dispatch (a : Action) : Eff unit := fun w =>
  (Ok tt, mkWorld (stored w) (quota w) (accessible w) (console w) (dispatched w ++ [a])).

(** [try { body } finally { cleanup }]: the cleanup runs however the body
    ends, and the body's exception goes on afterwards. *)
Definition try_finally {A : Type} (body : Eff A) (cleanup : Eff unit) : Eff A :=
  fun w =>
    match body w with
    | (Unmodelled, w') => (Unmodelled, w')
    | (r, w') =>
        match cleanup w' with
        | (Ok _, w'') => (r, w'')
        | (Throw e, w'') => (Throw e, w'')
        | (Unmodelled, w'') => (Unmodelled, w'')
        end
    end.

(** ** Persistence ([AppContext.jsx]) *)

Definition STORAGE_KEY : string := "ireno-chat-state".

(** [isLocalStorageAvailable()]. *)
Definition isLocalStorageAvailable : Eff bool :=
  try_catch
    (let testKey := "__localStorage_test__" in
     setItem testKey "test";;
     removeItem testKey;;
     mret true)
    (fun error => mret false).

(** [saveStateToStorage(state)].

    [const stateToStore] is declared in the block of the [try]; the [catch]
    clause is another block, in which the identifier is bound by nothing (the
    module declares no such name), so the argument of the second [setItem]
    throws a [ReferenceError] before [setItem] is called. [setItem] turns its
    argument into a string, so the [undefined] that [JSON.stringify] gives
    for an [undefined] state is stored as the text "undefined". *)
Definition saveStateToStorage (state : value) : Eff unit :=
  available ← isLocalStorageAvailable;
  if negb available then
    console_log "warn" "localStorage is not available" None
  else
    try_catch
      (let stateToStore := JSON_stringify state in
       setItem STORAGE_KEY (default "undefined" stateToStore))
      (fun error =>
         console_log "warn" "Failed to save state to localStorage:" (Some error);;
         if String.eqb (error_name error) "QuotaExceededError" then
           try_catch
             (removeItem "ireno-theme";;
              stateToStore ← unbound_identifier "stateToStore";
              setItem STORAGE_KEY stateToStore;;
              console_log "info" "Retried localStorage save after clearing space" None)
             (fun retryError =>
                console_log "error" "Failed to save state even after clearing space:"
                  (Some retryError))
         else mret tt).

(** The merge of [initializeStateFromStorage]:
    [{ ...defaultState, ...parsedState,
       userRoles: defaultState.userRoles, quickPrompts: defaultState.quickPrompts }]. *)
Definition hydratedState (defaultState parsedState : value) : result value :=
  userRoles ← get "userRoles" defaultState;
  quickPrompts ← get "quickPrompts" defaultState;
  Ok (VObj (<["quickPrompts" := quickPrompts]>
           (<["userRoles" := userRoles]>
              (spread parsedState ∪ spread defaultState)))).

(** [initializeStateFromStorage(defaultState)]. *)
Definition initializeStateFromStorage (defaultState : value) : Eff value :=
  available ← isLocalStorageAvailable;
  if negb available then
    console_log "warn" "localStorage is not available, using default state" None;;
    mret defaultState
  else
    try_catch
      (storedState ← getItem STORAGE_KEY;
       if truthy storedState then
         parsedState ← lift (JSON_parse (match storedState with VStr s => s | _ => "" end));
         if negb (String.eqb (typeof parsedState) "object") || strict_eq parsedState VNull
         then throw (Error "Error" "Invalid state format in localStorage")
         else
           hydrated ← lift (hydratedState defaultState parsedState);
           console_log "info" "State successfully loaded from localStorage" None;;
           mret hydrated
       else mret defaultState)
      (fun error =>
         console_log "warn" "Failed to load state from localStorage:" (Some error);;
         try_catch
           (removeItem STORAGE_KEY;;
            console_log "info" "Cleared corrupted localStorage data" None)
           (fun clearError =>
              console_log "warn" "Failed to clear corrupted localStorage data:"
                (Some clearError));;
         mret defaultState).

(** [initialState]. *)
Definition role (id name description color : string) : value :=
  VObj (<["color" := VStr color]> (<["description" := VStr description]>
       (<["name" := VStr name]> (<["id" := VStr id]> ∅)))).

Definition prompt (title description text : string) : value :=
  VObj (<["prompt" := VStr text]> (<["description" := VStr description]>
       (<["title" := VStr title]> ∅))).

Definition userRoles : value :=
  VArr [
    role "field_technician" "Field Technician"
         "Real-time fault detection and resolution" "#10B981";
    role "command_center" "Command Center Operator"
         "Situational awareness and operational control" "#3B82F6";
    role "senior_leadership" "Senior Leadership"
         "Strategic insights and performance monitoring" "#8B5CF6" ].

Definition quickPrompts : value :=
  VArr [
    prompt "System Status Check" "Get current status of all renewable energy sources"
           "Check system status for all renewable energy sources";
    prompt "Performance Report" "Generate monthly performance analytics"
           "Generate monthly performance report";
    prompt "Active Alerts" "Show current active alerts and warnings"
           "What are the current active alerts?";
    prompt "Maintenance Schedule" "View maintenance schedules for this week"
           "Show me maintenance schedules for this week";
    prompt "Efficiency Analysis" "Analyze power generation efficiency trends"
           "Analyze power generation efficiency trends";
    prompt "Compliance Report" "Create regulatory compliance report"
           "Create compliance report for regulatory submission";
    prompt "Fault Detection" "Check fault detection logs for last 24 hours"
           "Check fault detection logs for last 24 hours";
    prompt "Grid Load" "Show current grid load distribution"
           "What's the current grid load distribution?" ].

Definition initialState : value :=
  VObj (<["quickPrompts" := quickPrompts]>
       (<["userRoles" := userRoles]>
       (<["sidebarOpen" := VBool true]>
       (<["theme" := VStr "light"]>
       (<["isTyping" := VBool false]>
       (<["activeConversation" := VNull]>
       (<["conversations" := VArr []]>
       (<["currentUser" := VNull]> ∅)))))))).

(** ** Chat submission ([ChatInput.jsx]) *)

(** The instant of a [Date.now()] or [new Date()]: the milliseconds and the
    ISO text of the same time. *)
Record Time : Type := mkTime { now : Z; iso : string }.

(** How the [fetch] of a submission ends: the promise rejects (the network
    or the transport failed), or a response arrives with its status and its
    body. *)
Inductive fetch_outcome : Type :=
| FetchRejected (e : error)
| FetchResponse (status : Z) (body : string).

(** [response.ok]. *)
Definition response_ok (status : Z) : bool := (200 <=? status) && (status <=? 299).

(** [String.prototype.trim], on the white space below 256. *)
Definition is_js_space (c : ascii) : bool :=
  let n := N_of_ascii c in
  ((9 <=? n) && (n <=? 13) || (n =? 32) || (n =? 160))%N.

Fixpoint trim_start (s : list ascii) : list ascii :=
  match s with
  | c :: r => if is_js_space c then trim_start r else s
  | [] => []
  end.

Definition trim (s : string) : string :=
  string_of_list_ascii
    (rev (trim_start (rev (trim_start (list_ascii_of_string s))))).

(** A message object [{ id, role, content, timestamp }]. *)
Definition message_object (id : string) (role content : value) (t : Time) : value :=
  VObj (<["timestamp" := VDate (iso t)]> (<["content" := content]>
       (<["role" := role]> (<["id" := VStr id]> ∅)))).

Definition fallback_text : string :=
  "Sorry, I'm having trouble connecting to the server right now. Please make sure the backend is running at http://127.0.0.1:5000. Error: ".

(** [sendMessageToBackend(message)], run to completion with the outcome of
    its [fetch] (the request itself, a POST of [{message}], is the
    environment's business). [state] is the state the component was rendered
    with. *)
Definition sendMessageToBackend
  (state : value) (message : string) (outcome : fetch_outcome) (t : Time) : Eff unit :=
  try_finally
    (try_catch
       (dispatch (setTyping (VBool true));;
        match outcome with
        | FetchRejected e => throw e
        | FetchResponse status body =>
            if negb (response_ok status) then
              throw (Error "Error" ("HTTP error! status: " +:+ Z_to_string status))
            else
              data ← lift (JSON_parse body);
              content ← lift (get "response" data);
              let aiResponse :=
                message_object (Z_to_string (now t + 1)) (VStr "assistant") content t in
              activeConversation ← lift (get "activeConversation" state);
              id ← lift (get "id" activeConversation);
              dispatch (addMessage id aiResponse)
        end)
       (fun error =>
          console_log "error" "Error sending message to backend:" (Some error);;
          let errorResponse :=
            message_object (Z_to_string (now t + 1)) (VStr "assistant")
              (VStr (fallback_text +:+ error_message error)) t in
          activeConversation ← lift (get "activeConversation" state);
          id ← lift (get "id" activeConversation);
          dispatch (addMessage id errorResponse)))
    (dispatch (setTyping (VBool false))).

(** [handleSubmit(e)]. [e.preventDefault()] and [setInputValue('')] touch
    the form only and are left out. *)
Definition handleSubmit
  (state : value) (inputValue : string) (outcome : fetch_outcome) (t1 t2 : Time) : Eff unit :=
  if negb (truthy (VStr (trim inputValue))) then mret tt
  else
    activeConversation ← lift (get "activeConversation" state);
    if negb (truthy activeConversation) then mret tt
    else
      let userMessage :=
        message_object (Z_to_string (now t1)) (VStr "user") (VStr (trim inputValue)) t1 in
      id ← lift (get "id" activeConversation);
      dispatch (addMessage id userMessage);;
      dispatch (setTyping (VBool true));;
      sendMessageToBackend state (trim inputValue) outcome t2.

(** [handleNewChat()] of [ConversationSidebar.jsx]: the conversation it
    builds and the action it dispatches. *)
Definition newConversation (t : Time) : value :=
  VObj (<["pinned" := VBool false]>
       (<["updatedAt" := VDate (iso t)]>
       (<["createdAt" := VDate (iso t)]>
       (<["messages" := VArr []]>
       (<["title" := VStr "New Conversation"]>
       (<["id" := VStr (Z_to_string (now t))]> ∅)))))).


(** *** Vocabulary of the properties *)

(** An effectful computation that never lets an exception out. *)
Definition never_throws {A : Type} (m : Eff A) : Prop :=
  ∀ (w : World) (e : error), (m w).1 ≠ Throw e.

(** The probe of [isLocalStorageAvailable] succeeds in [w]: storage is
    accessible and has room for the test entry. *)
Definition storage_available (w : World) : bool :=
  accessible w && (usage (<["__localStorage_test__" := "test"]> (stored w)) <=? quota w)%nat.

(** The world the probe leaves behind when it succeeds. *)
Definition after_probe (w : World) : World :=
  set_stored (delete "__localStorage_test__" (stored w)) w.

(** The error the [catch] clause of [sendMessageToBackend] receives when the
    request fails: the rejection of [fetch], or the [Error] thrown for a
    response that is not ok. [None] when a response with an ok status came. *)
Definition request_failure (outcome : fetch_outcome) : option error :=
  match outcome with
  | FetchRejected e => Some e
  | FetchResponse status _ =>
      if response_ok status then None
      else Some (Error "Error" ("HTTP error! status: " +:+ Z_to_string status))
  end.

(** The synthetic assistant message of the [catch] clause. *)
Definition errorResponse (e : error) (t : Time) : value :=
  message_object (Z_to_string (now t + 1)) (VStr "assistant")
    (VStr (fallback_text +:+ error_message e)) t.

(** The user's message of [handleSubmit]. *)
Definition userMessage (inputValue : string) (t : Time) : value :=
  message_object (Z_to_string (now t)) (VStr "user") (VStr (trim inputValue)) t.

(** The value of a run of digits read after [a]. *)
Definition digits_value (ds : list ascii) (a : N) : N :=
  fold_left (fun a' c => (a' * 10 + (N_of_ascii c - 48))%N) ds a.

(** What may follow a value inside a JSON text: nothing, a comma, or a
    closing bracket or brace. *)
Definition delimited (rest : list ascii) : bool :=
  match rest with
  | [] => true
  | c :: _ => Ascii.eqb c ","%char || Ascii.eqb c "]"%char || Ascii.eqb c "}"%char
  end.

(** [text] is read back as [v], whatever delimited text follows and with
    any fuel that is at least its length. *)
Definition parses_to (text : list ascii) (v : value) : Prop :=
  ∀ (fuel : nat) (rest : list ascii),
    delimited rest = true → (length text ≤ fuel)%nat →
    parse_value fuel (text ++ rest) = Got v true rest.

(** The size of a value: its number of nodes. *)
Fixpoint vsize (v : value) : nat :=
  match v with
  | VArr xs => S (list_sum (map vsize xs))
  | VObj m => S (map_fold (fun _ x acc => (vsize x + acc)%nat) 0%nat m)
  | _ => 1%nat
  end.

(** The two maps inside [serialize] and [toJSON]: what an element of an
    array and a field of an object become. *)
Definition element_text (x : value) : list ascii :=
  default (list_ascii_of_string "null") (serialize x).

Definition element_toJSON (x : value) : value :=
  match x with VUndefined => VNull | _ => toJSON x end.

Definition field_toJSON (x : value) : option value :=
  match x with VUndefined => None | _ => Some (toJSON x) end.

(** A plain value, which JSON keeps as it is: one built only from [null],
    booleans, integers, strings, arrays and objects, with no [undefined] and
    no [Date] anywhere in it. (A [NaN] or an infinity, which JSON does not
    keep, is not a value of the model, so it is in no plain value.) *)
Fixpoint storable (v : value) : bool :=
  match v with
  | VUndefined | VDate _ => false
  | VArr xs => forallb storable xs
  | VObj m => map_fold (fun _ x acc => storable x && acc) true m
  | _ => true
  end.

(** Encoding a state, decoding the text and merging the decoded value with
    the default state (what a save followed by a load does to a state). *)
Definition round_trip (defaultState state : value) : result value :=
  parsedState ← JSON_parse (default "undefined" (JSON_stringify state));
  hydratedState defaultState parsedState.

(** A state with [userRoles] and [quickPrompts] taken from the default
    state. *)
Definition with_default_catalogs (d m : gmap string value) : gmap string value :=
  <["quickPrompts" := default VUndefined (d !! "quickPrompts")]>
    (<["userRoles" := default VUndefined (d !! "userRoles")]> m).

(** [state.conversations[0].createdAt], of a state that may have failed to
    be computed. *)
Definition first_created_at (r : result value) : result value :=
  state ← r;
  conversations ← get "conversations" state;
  first ← get "0" conversations;
  get "createdAt" first.

(** The transitions the round-trip law leaves out. *)
Definition destructive (a : Action) : bool :=
  strict_eq (type a) DELETE_CONVERSATION
  || strict_eq (type a) CLEAR_ALL_CONVERSATIONS
  || strict_eq (type a) LOGOUT_USER.

(** An action that puts only plain values into the state: the payload of
    the actions that store their payload, the [message] of [ADD_MESSAGE], the
    fields of the [updates] of [UPDATE_CONVERSATION]. *)
Definition storable_action (a : Action) : bool :=
  if strict_eq (type a) ADD_MESSAGE then
    match get "message" (payload a) with Ok msg => storable msg | _ => true end
  else if strict_eq (type a) UPDATE_CONVERSATION then
    match get "updates" (payload a) with Ok u => storable (VObj (spread u)) | _ => true end
  else if strict_eq (type a) SET_USER || strict_eq (type a) SET_THEME
          || strict_eq (type a) ADD_CONVERSATION
          || strict_eq (type a) SET_ACTIVE_CONVERSATION
          || strict_eq (type a) SET_TYPING
  then storable (payload a)
  else true.

(** A state that survives the round trip: an object that holds only plain
    values, has every field of the default state [d], and has its
    [activeConversation] field. *)
Definition round_trips (d : gmap string value) (s : value) : Prop :=
  ∃ m, s = VObj m ∧ storable s = true ∧
       is_Some (m !! "activeConversation") ∧
       ∀ k, is_Some (d !! k) → is_Some (m !! k).

(** *** Example data *)

(** The instant used in the examples. *)
Definition an_instant : Time := mkTime 1700000000000 "2023-11-14T22:13:20.000Z".

Definition conversation (id title : string) (messages : list value) : value :=
  VObj (<["pinned" := VBool false]> (<["messages" := VArr messages]>
       (<["title" := VStr title]> (<["id" := VStr id]> ∅)))).

Definition text_message (id role content : string) : value :=
  VObj (<["content" := VStr content]> (<["role" := VStr role]> (<["id" := VStr id]> ∅))).

(** Two conversations, "1" (the active one) and "2". *)
Definition two_conversations : value :=
  VObj (<["activeConversation" := conversation "1" "T" []]>
       (<["conversations" := VArr [conversation "1" "T" []; conversation "2" "U" []]]>
          (spread initialState))).

(** The state after [handleNewChat] on [initialState]. *)
Definition state_after_new_chat : value :=
  VObj (<["activeConversation" := newConversation an_instant]>
       (<["conversations" := VArr [newConversation an_instant]]> (spread initialState))).

(** An orphan active conversation: its id is in no entry of the (empty)
    collection. *)
Definition orphan_state : value :=
  VObj (<["activeConversation" := conversation "1" "T" []]>
       (<["conversations" := VArr []]> ∅)).

(** A store that holds the empty string under the key, and one that holds
    a text that is not JSON. *)
Definition empty_entry_world : World :=
  mkWorld (<[STORAGE_KEY := ""]> ∅) 5000 true [] [].

Definition corrupted_world : World :=
  mkWorld (<[STORAGE_KEY := "not json"]> ∅) 5000 true [] [].

(** A store with little room left: the legacy entry takes 15 of the 45
    characters, the probe's entry fits beside it, the state does not, and it
    would fit once the legacy entry is gone. *)
Definition tight_world : World :=
  mkWorld (<["ireno-theme" := "dark"]> ∅) 45 true [] [].

Definition small_state : value :=
  VObj (<["theme" := VStr "dark"]> (<["x" := VNum 1]> ∅)).

(** A session without dates: a theme change, a new conversation, a
    message. *)
Definition plain_session : list Action :=
  [setTheme (VStr "dark");
   addConversation (conversation "1" "T" []);
   addMessage (VStr "1") (text_message "m1" "user" "hi")].

Definition plain_session_state : value :=
  Eval vm_compute in
    match dispatch_all initialState plain_session with
    | Ok s => s
    | _ => VUndefined
    end.

(** The messages of one copy after a run of [ADD_MESSAGE]s. *)
Definition push_messages (id : value) (msgs : list value) (c : value) : value :=
  foldl (fun c' msg => push_message id msg c') c msgs.

(** A stored text that [initializeStateFromStorage] refuses: it is not
    JSON, or it is JSON for something that is not an object. *)
Definition unusable (text : string) : Prop :=
  JSON_parse text = Throw SyntaxError ∨
  ∃ v, JSON_parse text = Ok v ∧ (typeof v ≠ "object" ∨ v = VNull).

(** The first character of a serialized value: it is not white space and
    it closes nothing. *)
Definition opens_value (text : list ascii) : bool :=
  match text with
  | c :: _ => negb (is_ws c) && negb (Ascii.eqb c "]"%char) && negb (Ascii.eqb c "}"%char)
  | [] => false
  end.

(** The fields of an object, with for each the text [serialize] writes and
    the value [toJSON] keeps. *)
Definition written_fields (m : gmap string value) : gmap string (list ascii * value) :=
  omap (fun x => match serialize x with
                 | Some t => Some (t, toJSON x)
                 | None => None
                 end) m.

(** An answer of the parser on the text [s] that is not a lack of fuel, and
    that leaves less text than it was given when it is a value. *)
Definition consumes {A : Type} (answer : parsed A) (s : list ascii) : Prop :=
  match answer with
  | Got _ _ r => (length r < length s)%nat
  | Bad => True
  | Fuel => False
  end.

(** ** The rest of the application

    The handlers of the components that read the state and call the action
    creators: [AppProvider]'s [clearPersistedData], the sidebar
    ([ConversationSidebar.jsx]), the header ([AppHeader.jsx]), the welcome
    screen ([WelcomeScreen.jsx]), the login ([LoginPage.jsx], [App.jsx]), the
    message feedback of [ChatArea.jsx] and the choice of what is rendered
    ([App.jsx], [MainChat.jsx]). What a handler does to the component's own
    [useState] cells and to the DOM is left out; a handler that reads such a
    cell takes its content as an argument. *)

(** [actions.clearPersistedData()] of [AppProvider]. *)
Definition clearPersistedData : Eff unit :=
  try_catch
    (removeItem STORAGE_KEY;;
     console_log "info" "Cleared all persisted application data" None)
    (fun error => console_log "warn" "Failed to clear persisted data:" (Some error)).

(** *** String methods

    On the code units below 256 (Latin-1), as everywhere in the model. *)

(** The receiver of a method of [String.prototype], [v.name(...)]: reading
    the method throws on [null] and [undefined], and no other value than a
    string has it. *)
Definition string_receiver (name : string) (v : value) : result string :=
  match v with
  | VStr s => Ok s
  | VUndefined | VNull =>
      Throw (TypeError ("Cannot read properties of null or undefined (reading " +:+ name +:+ ")"))
  | _ => Throw (TypeError (name +:+ " is not a function"))
  end.

(** [toLowerCase]: the letters A-Z and the Latin-1 capitals (all of
    192..222 but the multiplication sign) move down by 32. *)
Definition lower_char (c : ascii) : ascii :=
  let n := N_of_ascii c in
  if ((65 <=? n) && (n <=? 90) || (192 <=? n) && (n <=? 222) && negb (n =? 215))%N
  then ascii_of_N (n + 32) else c.

Definition toLowerCase (s : string) : string :=
  string_of_list_ascii (map lower_char (list_ascii_of_string s)).

(** [toUpperCase] of one character. The sharp s becomes two letters; the
    capitals of the micro sign and of y with diaeresis lie above 255. *)
Definition upper_char (c : ascii) : result string :=
  let n := N_of_ascii c in
  if ((97 <=? n) && (n <=? 122) || (224 <=? n) && (n <=? 254) && negb (n =? 247))%N
  then Ok (String (ascii_of_N (n - 32)) EmptyString)
  else if (n =? 223)%N then Ok "SS"
  else if ((n =? 181) || (n =? 255))%N then Unmodelled
  else Ok (String c EmptyString).

(** [s.includes(searchString)]: [searchString] occurs in [s]. *)
Fixpoint starts_with (q s : list ascii) : bool :=
  match q, s with
  | [], _ => true
  | c :: q', d :: s' => Ascii.eqb c d && starts_with q' s'
  | _ :: _, [] => false
  end.

Fixpoint occurs_in (q s : list ascii) : bool :=
  starts_with q s || match s with [] => false | _ :: s' => occurs_in q s' end.

Definition includes (s searchString : string) : bool :=
  occurs_in (list_ascii_of_string searchString) (list_ascii_of_string s).

(** The text of a value inside a template literal. The texts of dates (a
    local format), of arrays and of objects are outside the model, and so are
    the numbers that JavaScript writes with an exponent. *)
Definition template_text (v : value) : result string :=
  match v with
  | VUndefined => Ok "undefined"
  | VNull => Ok "null"
  | VBool b => Ok (if b then "true" else "false")
  | VNum n => if Z.abs n <? 10 ^ 21 then Ok (Z_to_string n) else Unmodelled
  | VStr s => Ok s
  | VDate _ | VArr _ | VObj _ => Unmodelled
  end.

(** [arr.find(p)]: the first element that satisfies [p], [undefined] when
    there is none; the elements after it are not looked at. *)
Fixpoint findM {A : Type} (p : A -> result bool) (l : list A) : result (option A) :=
  match l with
  | [] => Ok None
  | x :: l' => b ← p x; if (b : bool) then Ok (Some x) else findM p l'
  end.

Definition array_find (p : value -> result bool) (v : value) : result value :=
  match v with
  | VArr xs => found ← findM p xs; Ok (default VUndefined found)
  | _ => Throw (TypeError "find is not a function")
  end.

(** *** The sidebar ([ConversationSidebar.jsx]) *)

(** The callback of [filteredConversations]:
    [conv.title.toLowerCase().includes(searchQuery.toLowerCase())]. *)
Definition title_matches (searchQuery : string) (conv : value) : result bool :=
  title ← get "title" conv;
  text ← string_receiver "toLowerCase" title;
  Ok (includes (toLowerCase text) (toLowerCase searchQuery)).

(** [filteredConversations], for the search text typed so far. *)
Definition filteredConversations (state : value) (searchQuery : string) : result value :=
  conversations ← get "conversations" state;
  array_filter (title_matches searchQuery) conversations.

(** A time value is valid between these bounds (TimeClip); outside them the
    date is invalid. *)
Definition time_clip (t : Z) : option Z :=
  if Z.abs t <=? 8640000000000000 then Some t else None.

(** [a >= b] and [a < b] on dates: on their time values, and false when one
    of them is invalid (NaN). *)
Definition date_ge (a b : option Z) : bool :=
  match a, b with Some x, Some y => y <=? x | _, _ => false end.

Definition date_lt (a b : option Z) : bool :=
  match a, b with Some x, Some y => x <? y | _, _ => false end.

(** [categorizeConversations(conversations)]. [time_value v] is the time
    value of [new Date(v)] ([None] for an invalid date) and [today] the time
    value of the local midnight of the current day; how the browser computes
    them is its business. *)
Definition categorizeConversations
  (time_value : value -> option Z) (today : Z) (conversations : value) : result value :=
  let today' := Some today in
  let yesterday := time_clip (today - 24 * 60 * 60 * 1000) in
  pinned ← array_filter (fun conv => pinned ← get "pinned" conv; Ok (truthy pinned))
             conversations;
  todays ← array_filter
             (fun conv =>
                updatedAt ← get "updatedAt" conv;
                let convDate := time_value updatedAt in
                pinned ← get "pinned" conv;
                Ok (date_ge convDate today' && negb (truthy pinned)))
             conversations;
  yesterdays ← array_filter
             (fun conv =>
                updatedAt ← get "updatedAt" conv;
                let convDate := time_value updatedAt in
                pinned ← get "pinned" conv;
                Ok (date_ge convDate yesterday && date_lt convDate today'
                    && negb (truthy pinned)))
             conversations;
  older ← array_filter
             (fun conv =>
                updatedAt ← get "updatedAt" conv;
                let convDate := time_value updatedAt in
                pinned ← get "pinned" conv;
                Ok (date_lt convDate yesterday && negb (truthy pinned)))
             conversations;
  Ok (VObj (<["older" := older]> (<["yesterday" := yesterdays]>
           (<["today" := todays]> (<["pinned" := pinned]> ∅))))).

(** [ConversationItem]: whether the entry is shown as the active one, what a
    click and the delete button dispatch, and the preview line
    [messages.length > 0
       ? messages[messages.length - 1].content.substring(0, 50) + '...'
       : 'No messages yet']. *)
Definition ConversationItem_isActive (state conversation : value) : result bool :=
  activeConversation ← get "activeConversation" state;
  activeId ← get_opt "id" activeConversation;
  id ← get "id" conversation;
  Ok (strict_eq activeId id).

Definition ConversationItem_handleClick (conversation : value) : Eff unit :=
  dispatch (setActiveConversation conversation).

Definition ConversationItem_handleDelete (conversation : value) : Eff unit :=
  id ← lift (get "id" conversation);
  dispatch (deleteConversation id).

Definition ConversationItem_preview (conversation : value) : result string :=
  messages ← get "messages" conversation;
  len ← get "length" messages;
  match len with
  | VNum n =>
      if 0 <? n then
        last ← get (Z_to_string (n - 1)) messages;
        content ← get "content" last;
        text ← string_receiver "substring" content;
        Ok (substring 0 50 text +:+ "...")
      else Ok "No messages yet"
  | VUndefined | VNull => Ok "No messages yet"
  | _ => Unmodelled
  end.

(** *** The header ([AppHeader.jsx]) *)

Definition handleThemeToggle (state : value) : Eff unit :=
  theme ← lift (get "theme" state);
  let newTheme := if strict_eq theme (VStr "light") then VStr "dark" else VStr "light" in
  dispatch (setTheme newTheme).



(** *** The settings ([SettingsModal.jsx]) *)

(** [handleClearAllConversations], with the answer to [window.confirm]. *)
Definition handleClearAllConversations (confirmed : bool) : Eff unit :=
  if confirmed then dispatch clearAllConversations else mret tt.

(** *** The welcome screen ([WelcomeScreen.jsx]) *)

(** The text of the simulated answer, for the text of the prompt's title. *)
Definition quick_reply_text (title : string) : string :=
  "I'll help you with " +:+
  String dquote (title +:+
  String dquote ". Let me analyze the current data and provide you with the information you need.").

(** [handleQuickPrompt(prompt)] up to its [setTimeout]: it returns the
    conversation it built, which the timer callback keeps. [clock i] is the
    [i]-th reading of the clock ([Date.now()] or [new Date()]) of the run. *)
Definition handleQuickPrompt (prompt : value) (clock : nat -> Time) : Eff value :=
  title ← lift (get "title" prompt);
  content ← lift (get "prompt" prompt);
  let newConversation :=
    VObj (<["pinned" := VBool false]>
         (<["updatedAt" := VDate (iso (clock 4%nat))]>
         (<["createdAt" := VDate (iso (clock 3%nat))]>
         (<["messages" :=
              VArr [message_object (Z_to_string (now (clock 1%nat))) (VStr "user") content
                                   (clock 2%nat)]]>
         (<["title" := title]>
         (<["id" := VStr (Z_to_string (now (clock 0%nat)))]> ∅)))))) in
  dispatch (addConversation newConversation);;
  mret newConversation.

(** The callback the timer runs a second later. *)
Definition handleQuickPrompt_timeout
  (prompt newConversation : value) (clock : nat -> Time) : Eff unit :=
  title ← lift (get "title" prompt);
  text ← lift (template_text title);
  let aiResponse :=
    message_object (Z_to_string (now (clock 0%nat) + 1)) (VStr "assistant")
      (VStr (quick_reply_text text)) (clock 1%nat) in
  id ← lift (get "id" newConversation);
  dispatch (addMessage id aiResponse).

(** *** Login ([LoginPage.jsx], [App.jsx]) *)

(** The form of the login page. *)
Record FormData : Type := mkFormData {
  username : string;
  password : string;
  userRole : string
}.

(** [formData.username.charAt(0).toUpperCase()]. *)
Definition avatar_of (name : string) : result string :=
  match name with
  | String c _ => upper_char c
  | EmptyString => Ok ""
  end.

(** [handleLogin(user)] of [App.jsx], the [onLogin] of the login page. *)
Definition handleLogin (user : value) : Eff unit := dispatch (setUser user).

(** The callback of the timer that [handleSubmit] of the login page sets. *)
Definition LoginPage_handleSubmit (state : value) (formData : FormData) : Eff unit :=
  userRoles ← lift (get "userRoles" state);
  selectedRole ← lift (array_find
                         (fun role => id ← get "id" role;
                                      Ok (strict_eq id (VStr (userRole formData))))
                         userRoles);
  avatar ← lift (avatar_of (username formData));
  let user :=
    VObj (<["avatar" := VStr avatar]> (<["role" := selectedRole]>
         (<["username" := VStr (username formData)]> ∅))) in
  handleLogin user.

(** *** What is rendered ([App.jsx], [MainChat.jsx]) *)

Inductive page : Type := LoginPage | MainApp.

(** [AppContent]: [!state.currentUser] chooses the login page. *)
Definition AppContent (state : value) : result page :=
  currentUser ← get "currentUser" state;
  Ok (if negb (truthy currentUser) then LoginPage else MainApp).

Inductive pane : Type := WelcomeScreen | ChatArea.

(** [MainChat]: [!state.activeConversation] chooses the welcome screen,
    otherwise the chat area and the chat input. *)
Definition MainChat (state : value) : result pane :=
  activeConversation ← get "activeConversation" state;
  Ok (if negb (truthy activeConversation) then WelcomeScreen else ChatArea).

(** *** Message feedback ([ChatArea.jsx]) *)

(** [handleLike(messageId)] and [handleDislike(messageId)] on the two sets
    of message ids the component keeps; the result is what
    [setLikedMessages] and [setDislikedMessages] are given. *)
Definition handleLike (messageId : string) (likedMessages dislikedMessages : gset string)
  : gset string * gset string :=
  if decide (messageId ∈ likedMessages)
  then (likedMessages ∖ {[messageId]}, dislikedMessages)
  else (likedMessages ∪ {[messageId]}, dislikedMessages ∖ {[messageId]}).

Definition handleDislike (messageId : string) (likedMessages dislikedMessages : gset string)
  : gset string * gset string :=
  if decide (messageId ∈ dislikedMessages)
  then (likedMessages, dislikedMessages ∖ {[messageId]})
  else (likedMessages ∖ {[messageId]}, dislikedMessages ∪ {[messageId]}).

(** *** Vocabulary of the further properties *)

(** The fields of the state that the case of an action assigns. *)
Definition written_by (a : Action) : list string :=
  if strict_eq (type a) SET_USER then ["currentUser"]
  else if strict_eq (type a) LOGOUT_USER
  then ["currentUser"; "conversations"; "activeConversation"]
  else if strict_eq (type a) SET_THEME then ["theme"]
  else if strict_eq (type a) TOGGLE_SIDEBAR then ["sidebarOpen"]
  else if strict_eq (type a) ADD_CONVERSATION then ["conversations"; "activeConversation"]
  else if strict_eq (type a) SET_ACTIVE_CONVERSATION then ["activeConversation"]
  else if strict_eq (type a) ADD_MESSAGE then ["conversations"; "activeConversation"]
  else if strict_eq (type a) SET_TYPING then ["isTyping"]
  else if strict_eq (type a) DELETE_CONVERSATION then ["conversations"; "activeConversation"]
  else if strict_eq (type a) UPDATE_CONVERSATION then ["conversations"]
  else if strict_eq (type a) CLEAR_ALL_CONVERSATIONS
  then ["conversations"; "activeConversation"]
  else [].

(** A computation that, however it ends, has written or removed no entry
    of the storage outside [keys], has dispatched nothing and has left the
    storage's capacity and accessibility as they were. *)
Definition touches_only {A : Type} (keys : list string) (m : Eff A) : Prop :=
  ∀ w : World,
    dispatched (m w).2 = dispatched w ∧
    quota (m w).2 = quota w ∧
    accessible (m w).2 = accessible w ∧
    ∀ k, k ∉ keys → stored (m w).2 !! k = stored w !! k.

(** The state's text and the probe's entry fit into the storage. *)
Definition has_room (state : value) (w : World) : bool :=
  storage_available w &&
  (usage (<[STORAGE_KEY := default "undefined" (JSON_stringify state)]>
            (stored (after_probe w))) <=? quota w)%nat.

(** The world after a save that found room. *)
Definition after_save (state : value) (w : World) : World :=
  set_stored (<[STORAGE_KEY := default "undefined" (JSON_stringify state)]>
                (stored (after_probe w))) (after_probe w).

(** The assistant's message of [sendMessageToBackend]: for a request that
    failed the connectivity notice, otherwise what the response's body holds
    under [response] (the notice again when the body cannot be read). *)
Definition reply_content (outcome : fetch_outcome) : value :=
  match request_failure outcome with
  | Some e => VStr (fallback_text +:+ error_message e)
  | None =>
      match outcome with
      | FetchResponse _ body =>
          match data ← JSON_parse body; get "response" data with
          | Ok content => content
          | Throw e => VStr (fallback_text +:+ error_message e)
          | Unmodelled => VUndefined
          end
      | FetchRejected _ => VUndefined
      end
  end.

(** The outcome of the request is within the model: the body of a response
    with an ok status is not JSON for a value outside it. *)
Definition modelled (outcome : fetch_outcome) : bool :=
  match outcome with
  | FetchResponse status body =>
      negb (response_ok status) ||
      match JSON_parse body with Unmodelled => false | _ => true end
  | FetchRejected _ => true
  end.

(** The body of a response of the backend, [{ response: text }] as JSON. *)
Definition backend_answer (text : string) : string :=
  default "" (JSON_stringify (VObj (<["response" := VStr text]> ∅))).

(** A conversation whose [title] is a string, and that string. *)
Definition has_text_title (c : value) : bool :=
  match get "title" c with Ok (VStr _) => true | _ => false end.

Definition title_text (c : value) : string :=
  match get "title" c with Ok (VStr t) => t | _ => "" end.

(** [null] and [undefined], the values whose properties cannot be read. *)
Definition nullish (v : value) : bool :=
  match v with VUndefined | VNull => true | _ => false end.

(** [v.k] for a value whose properties can be read. *)
Definition prop_of (k : string) (v : value) : value :=
  match get k v with Ok x => x | _ => VUndefined end.

(** A conversation that [categorizeConversations] puts into a folder: it
    is pinned, or its [updatedAt] makes a valid date. *)
Definition has_a_folder (time_value : value -> option Z) (c : value) : bool :=
  truthy (prop_of "pinned" c) ||
  match time_value (prop_of "updatedAt" c) with Some _ => true | None => false end.

(** Example data of the sidebar: the midnight the current day began with,
    two earlier instants, conversations with an [updatedAt], and the time
    values [new Date(v)] has on the dates of the examples (given as a [Date],
    as its ISO text or as a number); elsewhere the date is invalid. *)
Definition midnight : Z := 1699920000000.
Definition a_day_before : Time := mkTime 1699866000000 "2023-11-13T09:00:00.000Z".
Definition two_weeks_before : Time := mkTime 1698796800000 "2023-11-01T00:00:00.000Z".

Definition calendar (v : value) : option Z :=
  match v with
  | VDate s | VStr s =>
      now <$> List.find (fun t => String.eqb (iso t) s)
                [an_instant; a_day_before; two_weeks_before]
  | VNum n => time_clip n
  | _ => None
  end.

Definition dated_conversation (id : string) (pinned : bool) (updatedAt : value) : value :=
  VObj (<["updatedAt" := updatedAt]> (<["pinned" := VBool pinned]>
       (<["messages" := VArr []]> (<["title" := VStr "T"]> (<["id" := VStr id]> ∅))))).

Definition sidebar_conversations : list value :=
  [ dated_conversation "4" false (VStr (iso two_weeks_before));
    conversation "1" "T" [];
    newConversation an_instant;
    dated_conversation "5" true (VDate (iso an_instant));
    dated_conversation "3" false (VStr (iso a_day_before)) ].

(** *** Export ([AppHeader.jsx]) *)









(* ===================================================================== *)
(** * Properties *)

(** One step of the [result] monad. *)
Ltac step := cbn [mbind result_bind mret result_ret].

(** ** Reading values *)

Lemma strict_eq_true_iff (v : value) (s : string) : strict_eq v (VStr s) = true ↔ v = VStr s.
Proof.
  destruct v; simpl; try (split; [discriminate | intros; discriminate]).
  rewrite String.eqb_eq. split; [intros ->; reflexivity | intros [= ->]; reflexivity].
Qed.

Lemma get_field (k : string) (m : gmap string value) (v : value) :
  m !! k = Some v → get k (VObj m) = Ok v.
Proof. intros E. simpl. rewrite E. reflexivity. Qed.

Lemma is_conversation_inv (c : value) :
  is_conversation c = true → ∃ m ms, c = VObj m ∧ m !! "messages" = Some (VArr ms).
Proof.
  destruct c as [| | | | | | |m]; simpl; try discriminate.
  destruct (m !! "messages") as [[]|] eqn:E; try discriminate. eauto.
Qed.

Lemma is_state_inv (s : value) :
  is_state s = true →
  ∃ m cs a, s = VObj m ∧ m !! "conversations" = Some (VArr cs) ∧
            forallb is_conversation cs = true ∧
            m !! "activeConversation" = Some a ∧
            (a = VNull ∨ is_conversation a = true).
Proof.
  destruct s as [| | | | | | |m]; simpl; try discriminate.
  intros [H1 H2]%andb_prop.
  destruct (m !! "conversations") as [[]|] eqn:E1; try discriminate.
  destruct (m !! "activeConversation") as [a|] eqn:E2; try discriminate.
  eexists _, _, a. repeat split; eauto.
  destruct a; auto; discriminate.
Qed.

Lemma get_id_conversation (c : value) :
  is_conversation c = true → get "id" c = Ok (id_of c).
Proof. intros (m & ms & -> & _)%is_conversation_inv. reflexivity. Qed.

Lemma get_messages_conversation (c : value) :
  is_conversation c = true → get "messages" c = Ok (VArr (messages_of c)).
Proof. intros (m & ms & -> & E)%is_conversation_inv. simpl. rewrite E. reflexivity. Qed.

Lemma get_opt_id_active (a : value) :
  a = VNull ∨ is_conversation a = true → get_opt "id" a = Ok (id_of a).
Proof.
  intros [-> | (m & ms & -> & _)%is_conversation_inv]; reflexivity.
Qed.

Lemma strict_eq_undefined_l (v : value) : strict_eq VUndefined v = true → v = VUndefined.
Proof. destruct v; simpl; congruence. Qed.

Lemma has_id_null (id : value) : id ≠ VUndefined → has_id id VNull = false.
Proof.
  intros H. unfold has_id. change (id_of VNull) with VUndefined.
  destruct (strict_eq VUndefined id) eqn:E; [|reflexivity].
  apply strict_eq_undefined_l in E. contradiction.
Qed.

(** ** The reducer, action by action *)

Lemma payload_addMessage_id (id msg : value) :
  get "conversationId" (payload (addMessage id msg)) = Ok id.
Proof.
  unfold addMessage, get, payload.
  rewrite lookup_insert_ne by done. rewrite lookup_insert_eq. reflexivity.
Qed.

Lemma payload_addMessage_message (id msg : value) :
  get "message" (payload (addMessage id msg)) = Ok msg.
Proof. unfold addMessage, get, payload. rewrite lookup_insert_eq. reflexivity. Qed.

Lemma payload_updateConversation_id (id updates : value) :
  get "id" (payload (updateConversation id updates)) = Ok id.
Proof.
  unfold updateConversation, get, payload.
  rewrite lookup_insert_ne by done. rewrite lookup_insert_eq. reflexivity.
Qed.

Lemma payload_updateConversation_updates (id updates : value) :
  get "updates" (payload (updateConversation id updates)) = Ok updates.
Proof. unfold updateConversation, get, payload. rewrite lookup_insert_eq. reflexivity. Qed.

Lemma add_message_to_conversation (a : Action) (id msg c : value) :
  get "conversationId" (payload a) = Ok id →
  get "message" (payload a) = Ok msg →
  is_conversation c = true →
  add_message_to a c = Ok (push_message id msg c).
Proof.
  intros Hid Hmsg Hc. unfold add_message_to, push_message.
  rewrite (get_id_conversation c Hc), Hid. step.
  fold (has_id id c). destruct (has_id id c); [|reflexivity].
  rewrite (get_messages_conversation c Hc), Hmsg. reflexivity.
Qed.

Lemma keep_conversation_conversation (a : Action) (c : value) :
  is_conversation c = true →
  keep_conversation a c = Ok (negb (has_id (payload a) c)).
Proof.
  intros Hc. unfold keep_conversation. rewrite (get_id_conversation c Hc). reflexivity.
Qed.

Lemma update_conversation_conversation (a : Action) (id updates c : value) :
  get "id" (payload a) = Ok id →
  get "updates" (payload a) = Ok updates →
  is_conversation c = true →
  update_conversation a c = Ok (merge_updates id updates c).
Proof.
  intros Hid Hup Hc. unfold update_conversation, merge_updates.
  rewrite (get_id_conversation c Hc), Hid. step.
  fold (has_id id c). destruct (has_id id c); [|reflexivity].
  rewrite Hup. reflexivity.
Qed.

Lemma mapM_pure {A B : Type} (f : A → result B) (g : A → B) (P : A → bool) (l : list A) :
  (∀ x, P x = true → f x = Ok (g x)) →
  forallb P l = true → mapM f l = Ok (map g l).
Proof.
  intros Hf. induction l as [|x l IH]; simpl; [reflexivity|].
  intros [Hx Hl]%andb_prop. rewrite (Hf x Hx). simpl. rewrite (IH Hl). reflexivity.
Qed.

Lemma filterM_pure {A : Type} (p : A → result bool) (q : A → bool) (P : A → bool) (l : list A) :
  (∀ x, P x = true → p x = Ok (q x)) →
  forallb P l = true → filterM p l = Ok (List.filter q l).
Proof.
  intros Hp. induction l as [|x l IH]; simpl; [reflexivity|].
  intros [Hx Hl]%andb_prop. rewrite (Hp x Hx). simpl. rewrite (IH Hl). simpl.
  destruct (q x); reflexivity.
Qed.

(** Selecting the [case] of the [switch] once [action.type] is known. *)
Ltac switch_case H :=
  unfold appReducer; rewrite H;
  cbn [strict_eq SET_USER LOGOUT_USER SET_THEME TOGGLE_SIDEBAR ADD_CONVERSATION
       SET_ACTIVE_CONVERSATION ADD_MESSAGE SET_TYPING DELETE_CONVERSATION
       UPDATE_CONVERSATION CLEAR_ALL_CONVERSATIONS];
  simpl String.eqb; cbv iota.

Lemma appReducer_ADD_MESSAGE (s : value) (a : Action) (id msg : value) :
  type a = ADD_MESSAGE →
  get "conversationId" (payload a) = Ok id →
  get "message" (payload a) = Ok msg →
  is_state s = true → (active_of s = VNull → id ≠ VUndefined) →
  appReducer s a =
  Ok (VObj (<["activeConversation" := push_message id msg (active_of s)]>
           (<["conversations" := VArr (map (push_message id msg) (conversations_of s))]>
              (spread s)))).
Proof.
  intros Ht Hi Hm (m & cs & ac & -> & Ecs & Hcs & Ea & Ha)%is_state_inv Hid.
  switch_case Ht.
  rewrite (get_field _ _ _ Ecs). step. unfold array_map.
  rewrite (mapM_pure _ (push_message id msg) is_conversation cs
             (fun x Hx => add_message_to_conversation a id msg x Hi Hm Hx) Hcs).
  step. rewrite (get_field _ _ _ Ea). step.
  rewrite (get_opt_id_active ac Ha). step. rewrite Hi. step.
  unfold conversations_of, active_of, spread in *. rewrite Ecs. rewrite Ea in *.
  simpl default in *.
  unfold push_message at 2. fold (has_id id ac).
  destruct Ha as [-> | Ha].
  - rewrite (has_id_null id (Hid eq_refl)). reflexivity.
  - destruct (has_id id ac); [|reflexivity].
    rewrite (get_messages_conversation ac Ha), Hm.
    unfold spread. reflexivity.
Qed.

Lemma appReducer_DELETE_CONVERSATION (s : value) (a : Action) :
  type a = DELETE_CONVERSATION →
  is_state s = true →
  appReducer s a =
  Ok (VObj (<["activeConversation" :=
                if has_id (payload a) (active_of s) then VNull else active_of s]>
           (<["conversations" :=
                VArr (List.filter (fun c => negb (has_id (payload a) c)) (conversations_of s))]>
              (spread s)))).
Proof.
  intros Ht (m & cs & ac & -> & Ecs & Hcs & Ea & Ha)%is_state_inv.
  switch_case Ht.
  rewrite (get_field _ _ _ Ecs). step. unfold array_filter.
  rewrite (filterM_pure _ (fun c => negb (has_id (payload a) c)) is_conversation cs
             (fun x Hx => keep_conversation_conversation a x Hx) Hcs).
  step. rewrite (get_field _ _ _ Ea). step.
  rewrite (get_opt_id_active ac Ha). step.
  unfold conversations_of, active_of, spread. rewrite Ecs, Ea. simpl default.
  reflexivity.
Qed.

Lemma appReducer_UPDATE_CONVERSATION (s : value) (a : Action) (id updates : value) :
  type a = UPDATE_CONVERSATION →
  get "id" (payload a) = Ok id →
  get "updates" (payload a) = Ok updates →
  is_state s = true →
  appReducer s a =
  Ok (VObj (<["conversations" := VArr (map (merge_updates id updates) (conversations_of s))]>
              (spread s))).
Proof.
  intros Ht Hi Hu (m & cs & ac & -> & Ecs & Hcs & Ea & Ha)%is_state_inv.
  switch_case Ht.
  rewrite (get_field _ _ _ Ecs). step. unfold array_map.
  rewrite (mapM_pure _ (merge_updates id updates) is_conversation cs
             (fun x Hx => update_conversation_conversation a id updates x Hi Hu Hx) Hcs).
  step. unfold conversations_of, spread. rewrite Ecs. reflexivity.
Qed.

(** ** The shape of the state is kept *)

Lemma is_state_intro (m : gmap string value) (cs : list value) (a : value) :
  m !! "conversations" = Some (VArr cs) →
  forallb is_conversation cs = true →
  m !! "activeConversation" = Some a →
  a = VNull ∨ is_conversation a = true →
  is_state (VObj m) = true.
Proof.
  intros E1 H1 E2 H2. unfold is_state. rewrite E1, E2, H1. simpl.
  destruct H2 as [-> | H2]; [reflexivity|].
  destruct a; try discriminate; exact H2.
Qed.

Lemma is_state_insert (m : gmap string value) (k : string) (v : value) :
  k ≠ "conversations" → k ≠ "activeConversation" →
  is_state (VObj m) = true → is_state (VObj (<[k := v]> m)) = true.
Proof.
  intros N1 N2 (m' & cs & a & [= <-] & E1 & H1 & E2 & H2)%is_state_inv.
  apply (is_state_intro _ cs a); auto; rewrite lookup_insert_ne; auto.
Qed.

Lemma is_state_conversations (m : gmap string value) (cs : list value) (a : value) :
  forallb is_conversation cs = true →
  a = VNull ∨ is_conversation a = true →
  is_state (VObj (<["activeConversation" := a]> (<["conversations" := VArr cs]> m))) = true.
Proof.
  intros H1 H2. apply (is_state_intro _ cs a); auto.
  - rewrite lookup_insert_ne by done. apply lookup_insert_eq.
  - apply lookup_insert_eq.
Qed.

Lemma id_of_push_message (id msg c : value) :
  c = VNull ∨ is_conversation c = true →
  id_of (push_message id msg c) = id_of c.
Proof.
  intros Hc. unfold push_message. destruct (has_id id c); [|reflexivity].
  destruct Hc as [-> | (m & ms & -> & _)%is_conversation_inv]; simpl.
  - rewrite lookup_insert_ne by done. reflexivity.
  - rewrite lookup_insert_ne by done. reflexivity.
Qed.

Lemma messages_of_push_message (id msg c : value) :
  messages_of (push_message id msg c) =
  if has_id id c then (messages_of c ++ [msg])%list else messages_of c.
Proof.
  unfold push_message. destruct (has_id id c); [|reflexivity].
  unfold messages_of at 1. rewrite lookup_insert_eq. reflexivity.
Qed.

Lemma is_conversation_push_message (id msg c : value) :
  is_conversation c = true → is_conversation (push_message id msg c) = true.
Proof.
  intros Hc. unfold push_message. destruct (has_id id c); [|exact Hc].
  unfold is_conversation. rewrite lookup_insert_eq. reflexivity.
Qed.

Lemma active_push_message (id msg a : value) :
  a = VNull ∨ is_conversation a = true →
  push_message id msg a = VNull ∨ is_conversation (push_message id msg a) = true.
Proof.
  intros [-> | Ha].
  - unfold push_message, has_id. change (id_of VNull) with VUndefined.
    destruct (strict_eq VUndefined id); [right|left; reflexivity].
    unfold is_conversation. rewrite lookup_insert_eq. reflexivity.
  - right. apply is_conversation_push_message, Ha.
Qed.

Lemma forallb_map_pres {A : Type} (P : A → bool) (f : A → A) (l : list A) :
  (∀ x, P x = true → P (f x) = true) →
  forallb P l = true → forallb P (map f l) = true.
Proof.
  intros Hf. induction l as [|x l IH]; simpl; [reflexivity|].
  intros [Hx Hl]%andb_prop. rewrite (Hf x Hx), (IH Hl). reflexivity.
Qed.

Lemma forallb_filter_pres {A : Type} (P q : A → bool) (l : list A) :
  forallb P l = true → forallb P (List.filter q l) = true.
Proof.
  induction l as [|x l IH]; simpl; [reflexivity|].
  intros [Hx Hl]%andb_prop. destruct (q x); simpl; [rewrite Hx|]; auto.
Qed.

Lemma conversations_of_set (m : gmap string value) (cs : list value) (a : value) :
  conversations_of (VObj (<["activeConversation" := a]> (<["conversations" := VArr cs]> m))) = cs.
Proof.
  unfold conversations_of. rewrite lookup_insert_ne by done.
  rewrite lookup_insert_eq. reflexivity.
Qed.

Lemma active_of_set (m : gmap string value) (a : value) :
  active_of (VObj (<["activeConversation" := a]> m)) = a.
Proof. unfold active_of. rewrite lookup_insert_eq. reflexivity. Qed.

Lemma spread_is_state (s : value) : is_state s = true → VObj (spread s) = s.
Proof. intros (m & cs & a & -> & _)%is_state_inv. reflexivity. Qed.

(** ** AddMessage *)

(** [ADD_MESSAGE] keeps the shape of the state and maps [push_message] over
    both copies. *)
Lemma addMessage_step (s id msg : value) :
  is_state s = true → id ≠ VUndefined →
  ∃ s', appReducer s (addMessage id msg) = Ok s' ∧ is_state s' = true ∧
        conversations_of s' = map (push_message id msg) (conversations_of s) ∧
        active_of s' = push_message id msg (active_of s).
Proof.
  intros Hs Hid. eexists. split.
  - apply (appReducer_ADD_MESSAGE s _ id msg); auto using payload_addMessage_id,
      payload_addMessage_message.
  - destruct (is_state_inv s Hs) as (m & cs & a & -> & Ecs & Hcs & Ea & Ha).
    rewrite conversations_of_set, active_of_set. split; [|split; reflexivity].
    apply is_state_conversations.
    + unfold conversations_of. rewrite Ecs.
      apply forallb_map_pres; auto using is_conversation_push_message.
    + unfold active_of. rewrite Ea. apply active_push_message, Ha.
Qed.

Lemma push_messages_spec (id : value) (msgs : list value) (c : value) :
  c = VNull ∨ is_conversation c = true →
  (push_messages id msgs c = VNull ∨ is_conversation (push_messages id msgs c) = true) ∧
  id_of (push_messages id msgs c) = id_of c ∧
  messages_of (push_messages id msgs c) =
    if has_id id c then (messages_of c ++ msgs)%list else messages_of c.
Proof.
  revert c. induction msgs as [|msg msgs IH]; intros c Hc.
  - simpl. rewrite app_nil_r. destruct (has_id id c); auto.
  - simpl. destruct (IH (push_message id msg c) (active_push_message id msg c Hc))
      as (H1 & H2 & H3).
    split; [exact H1|]. split.
    + rewrite H2. apply id_of_push_message, Hc.
    + rewrite H3. unfold has_id at 1. rewrite (id_of_push_message id msg c Hc).
      fold (has_id id c). rewrite messages_of_push_message.
      destruct (has_id id c); [|reflexivity].
      rewrite <- app_assoc. reflexivity.
Qed.

Lemma addMessage_run (id : value) (msgs : list value) (s : value) :
  is_state s = true → id ≠ VUndefined →
  ∃ s', dispatch_all s (map (addMessage id) msgs) = Ok s' ∧ is_state s' = true ∧
        conversations_of s' = map (push_messages id msgs) (conversations_of s) ∧
        active_of s' = push_messages id msgs (active_of s).
Proof.
  intros Hs Hid. revert s Hs. induction msgs as [|msg msgs IH]; intros s Hs.
  - exists s. simpl. rewrite map_id. auto.
  - destruct (addMessage_step s id msg Hs Hid) as (s1 & E1 & Hs1 & Ec1 & Ea1).
    destruct (IH s1 Hs1) as (s' & E' & Hs' & Ec' & Ea').
    exists s'. simpl. rewrite E1. step. split; [exact E'|]. split; [exact Hs'|].
    rewrite Ec', Ea', Ec1, Ea1, map_map. auto.
Qed.

(** C2. [AddMessage] is append-only. From any state of the data model, [N]
    [addMessage] dispatches with the same (defined) conversation id succeed,
    and every entry of the collection with that id has its message sequence
    extended by exactly the [N] messages, in dispatch order; the active
    conversation's copy, when its id is that id, is extended by the same
    messages. Entries with another id keep their messages. With [N = 1] this
    is a single transition, which therefore updates both copies at once. *)
Theorem addMessage_append_only (s id : value) (msgs : list value) :
  is_state s = true → id ≠ VUndefined →
  ∃ s', dispatch_all s (map (addMessage id) msgs) = Ok s' ∧
    length (conversations_of s') = length (conversations_of s) ∧
    (∀ (i : nat) (c : value), conversations_of s !! i = Some c →
       ∃ c', conversations_of s' !! i = Some c' ∧ id_of c' = id_of c ∧
             messages_of c' =
               if has_id id c then (messages_of c ++ msgs)%list else messages_of c) ∧
    id_of (active_of s') = id_of (active_of s) ∧
    messages_of (active_of s') =
      if has_id id (active_of s) then (messages_of (active_of s) ++ msgs)%list
      else messages_of (active_of s).
Proof.
  intros Hs Hid.
  destruct (addMessage_run id msgs s Hs Hid) as (s' & E & Hs' & Ec & Ea).
  destruct (is_state_inv s Hs) as (m & cs & a & -> & Ecs & Hcs & Eac & Ha).
  assert (conversations_of (VObj m) = cs) as Hc by (unfold conversations_of; by rewrite Ecs).
  assert (active_of (VObj m) = a) as Hac by (unfold active_of; by rewrite Eac).
  exists s'. split; [exact E|]. rewrite Ec, Ea, Hc, Hac.
  split; [apply length_map|]. split.
  - intros i c Hi. exists (push_messages id msgs c). split.
    + change (map (push_messages id msgs) cs) with (push_messages id msgs <$> cs).
      rewrite list_lookup_fmap, Hi. reflexivity.
    + apply push_messages_spec. right.
      rewrite forallb_forall in Hcs. apply Hcs.
      apply list_elem_of_In. eapply list_elem_of_lookup_2, Hi.
  - apply push_messages_spec, Ha.
Qed.

Lemma map_unchanged {A : Type} (f : A → A) (l : list A) :
  (∀ x, x ∈ l → f x = x) → map f l = l.
Proof.
  induction l as [|x l IH]; intros H; simpl; [reflexivity|].
  rewrite (H x) by apply list_elem_of_here. rewrite IH; [reflexivity|].
  intros y Hy. apply H, list_elem_of_further, Hy.
Qed.

(** C10. A state whose active conversation carries the target id while no
    entry of the collection does: [ADD_MESSAGE] appends the message to the
    active copy and leaves the collection as it was. The two copies are
    updated by two independent id tests. *)
Theorem addMessage_orphan_active (s id msg : value) :
  is_state s = true →
  active_of s ≠ VNull →
  has_id id (active_of s) = true →
  (∀ c, c ∈ conversations_of s → has_id id c = false) →
  ∃ s', appReducer s (addMessage id msg) = Ok s' ∧
        conversations_of s' = conversations_of s ∧
        active_of s' =
          VObj (<["messages" := VArr (messages_of (active_of s) ++ [msg])]>
                  (spread (active_of s))) ∧
        messages_of (active_of s') = (messages_of (active_of s) ++ [msg])%list.
Proof.
  intros Hs Hnn Hact Hnone. eexists. split.
  - apply (appReducer_ADD_MESSAGE s _ id msg); auto using payload_addMessage_id,
      payload_addMessage_message.
  - rewrite conversations_of_set, active_of_set. split; [|split].
    + apply map_unchanged. intros c Hc. unfold push_message. rewrite (Hnone c Hc).
      reflexivity.
    + unfold push_message. rewrite Hact. reflexivity.
    + rewrite messages_of_push_message, Hact. reflexivity.
Qed.

(** ** UpdateConversation *)

Lemma spread_union_lookup (u c : value) (k : string) :
  (spread u ∪ spread c) !! k =
  match spread u !! k with Some v => Some v | None => spread c !! k end.
Proof.
  rewrite lookup_union. destruct (spread u !! k), (spread c !! k); reflexivity.
Qed.

(** C6. [UpdateConversation(id, partialFields)] rewrites the entries of the
    collection whose id is [id], and nothing else: such an entry becomes the
    shallow merge of the partial fields over it (a field of [partialFields]
    wins, the other fields of the entry stay); every other entry, the active
    conversation's copy (even when its id is [id]) and every other field of
    the state are unchanged. *)
Theorem updateConversation_frame (s id updates : value) :
  is_state s = true →
  ∃ s', appReducer s (updateConversation id updates) = Ok s' ∧
    active_of s' = active_of s ∧
    (∀ k, k ≠ "conversations" → spread s' !! k = spread s !! k) ∧
    length (conversations_of s') = length (conversations_of s) ∧
    (∀ (i : nat) (c : value), conversations_of s !! i = Some c →
       ∃ c', conversations_of s' !! i = Some c' ∧
         if has_id id c
         then ∀ k, spread c' !! k =
                   match spread updates !! k with
                   | Some v => Some v
                   | None => spread c !! k
                   end
         else c' = c).
Proof.
  intros Hs. eexists. split.
  - apply (appReducer_UPDATE_CONVERSATION s _ id updates); auto using
      payload_updateConversation_id, payload_updateConversation_updates.
  - destruct (is_state_inv s Hs) as (m & cs & a & -> & Ecs & Hcs & Ea & Ha).
    assert (conversations_of (VObj m) = cs) as Hc
      by (unfold conversations_of; by rewrite Ecs).
    rewrite Hc. split; [|split; [|split]].
    + unfold active_of. simpl. rewrite lookup_insert_ne by done. reflexivity.
    + intros k Hk. simpl. rewrite lookup_insert_ne by done. reflexivity.
    + unfold conversations_of at 1. rewrite lookup_insert_eq. apply length_map.
    + intros i c Hi. exists (merge_updates id updates c). split.
      * unfold conversations_of. rewrite lookup_insert_eq.
        change (map (merge_updates id updates) cs) with (merge_updates id updates <$> cs).
        rewrite list_lookup_fmap, Hi. reflexivity.
      * unfold merge_updates. destruct (has_id id c); [|reflexivity].
        intros k. apply (spread_union_lookup updates c k).
Qed.

(** ** DeleteConversation *)

Lemma filter_keeps_all {A : Type} (q : A → bool) (l : list A) :
  (∀ x, x ∈ l → q x = true) → List.filter q l = l.
Proof.
  induction l as [|x l IH]; intros H; simpl; [reflexivity|].
  rewrite (H x) by apply list_elem_of_here. rewrite IH; [reflexivity|].
  intros y Hy. apply H, list_elem_of_further, Hy.
Qed.

Lemma filter_twice {A : Type} (q : A → bool) (l : list A) :
  List.filter q (List.filter q l) = List.filter q l.
Proof.
  apply filter_keeps_all. intros x Hx.
  apply list_elem_of_In, filter_In in Hx. tauto.
Qed.

Lemma set_conversations_id (m : gmap string value) (cs : list value) (a : value) :
  m !! "conversations" = Some (VArr cs) →
  m !! "activeConversation" = Some a →
  <["activeConversation" := a]> (<["conversations" := VArr cs]> m) = m.
Proof.
  intros E1 E2. rewrite (insert_id m "conversations") by exact E1.
  apply insert_id, E2.
Qed.

(** C5, as stated, fails: deleting an id that no entry of the collection has
    changes the state when the active conversation carries that id (the
    active pointer becomes [null]). *)
Lemma deleteConversation_unmatched_changes_state :
  ¬ (∀ s id : value,
       is_state s = true →
       (∀ c, c ∈ conversations_of s → has_id id c = false) →
       appReducer s (deleteConversation id) = Ok s).
Proof.
  intros H. specialize (H orphan_state (VStr "1") eq_refl).
  assert (∀ c, c ∈ conversations_of orphan_state → has_id (VStr "1") c = false) as Hn.
  { intros c Hc. vm_compute in Hc. inversion Hc. }
  specialize (H Hn).
  rewrite (appReducer_DELETE_CONVERSATION orphan_state (deleteConversation (VStr "1"))
             eq_refl eq_refl) in H.
  apply (f_equal (fun r => match r with Ok s' => active_of s' | _ => VUndefined end)) in H.
  rewrite active_of_set in H. vm_compute in H. discriminate H.
Qed.

(** C5, amended. [DeleteConversation(id)] succeeds on every state of the data
    model; afterwards no entry of the collection has that id; the active
    pointer is [null] if it pointed to the deleted id and is unchanged
    otherwise; deleting again changes nothing (idempotence); and when neither
    an entry of the collection nor the active conversation carries the id,
    the state is unchanged. *)
Theorem deleteConversation_idempotent (s id : value) :
  is_state s = true →
  ∃ s', appReducer s (deleteConversation id) = Ok s' ∧
    (∀ c, c ∈ conversations_of s' → has_id id c = false) ∧
    (∀ c, c ∈ conversations_of s' ↔ c ∈ conversations_of s ∧ has_id id c = false) ∧
    active_of s' = (if has_id id (active_of s) then VNull else active_of s) ∧
    appReducer s' (deleteConversation id) = Ok s' ∧
    ((∀ c, c ∈ conversations_of s → has_id id c = false) →
     has_id id (active_of s) = false → s' = s).
Proof.
  intros Hs.
  destruct (is_state_inv s Hs) as (m & cs & a & -> & Ecs & Hcs & Ea & Ha).
  assert (conversations_of (VObj m) = cs) as Hc
    by (unfold conversations_of; by rewrite Ecs).
  assert (active_of (VObj m) = a) as Hac by (unfold active_of; by rewrite Ea).
  set (keep := fun c => negb (has_id id c)).
  set (a' := if has_id id a then VNull else a).
  set (s' := VObj (<["activeConversation" := a']>
                  (<["conversations" := VArr (List.filter keep cs)]> m))).
  assert (appReducer (VObj m) (deleteConversation id) = Ok s') as E.
  { rewrite (appReducer_DELETE_CONVERSATION (VObj m) (deleteConversation id) eq_refl Hs).
    rewrite Hc, Hac. reflexivity. }
  assert (∀ c, c ∈ List.filter keep cs ↔ c ∈ cs ∧ has_id id c = false) as Hmem.
  { intros c. rewrite !list_elem_of_In, filter_In. unfold keep.
    rewrite negb_true_iff. reflexivity. }
  assert (a' = VNull ∨ is_conversation a' = true) as Ha'.
  { unfold a'. destruct (has_id id a); auto. }
  assert (is_state s' = true) as Hs'.
  { apply is_state_conversations; [|exact Ha'].
    apply forallb_filter_pres, Hcs. }
  exists s'. split; [exact E|].
  unfold s' at 1 2 3. rewrite conversations_of_set, active_of_set, Hc, Hac.
  split; [intros c Hin; apply Hmem in Hin; tauto|].
  split; [exact Hmem|]. split; [reflexivity|]. split.
  - rewrite (appReducer_DELETE_CONVERSATION s' (deleteConversation id) eq_refl Hs').
    unfold s' at 1 2 3 4. rewrite conversations_of_set, active_of_set.
    cbn [payload deleteConversation spread]. fold keep. rewrite filter_twice.
    assert ((if has_id id a' then VNull else a') = a') as ->.
    { unfold a'. destruct (has_id id a) eqn:Eh.
      - destruct (has_id id VNull); reflexivity.
      - rewrite Eh. reflexivity. }
    unfold s'. f_equal. f_equal.
    apply set_conversations_id.
    + rewrite lookup_insert_ne by done. apply lookup_insert_eq.
    + apply lookup_insert_eq.
  - intros Hnone Hna. unfold s', a'. rewrite Hna. f_equal.
    rewrite (filter_keeps_all keep cs).
    + apply set_conversations_id; assumption.
    + intros c Hin. unfold keep. rewrite (Hnone c Hin). reflexivity.
Qed.

(** ** Totality of the reducer *)

Lemma strict_eq_action_type (v t : value) :
  t ∈ ActionTypes → strict_eq v t = true → v = t.
Proof.
  intros Ht. unfold ActionTypes in Ht.
  repeat (apply elem_of_cons in Ht as [-> | Ht]; [apply strict_eq_true_iff|]).
  inversion Ht.
Qed.

Lemma is_conversation_merge_updates (id updates c : value) :
  match spread updates !! "messages" with
  | None | Some (VArr _) => true
  | Some _ => false
  end = true →
  is_conversation c = true → is_conversation (merge_updates id updates c) = true.
Proof.
  intros Hu Hc. unfold merge_updates. destruct (has_id id c); [|exact Hc].
  destruct (is_conversation_inv c Hc) as (m & ms & -> & Em).
  unfold is_conversation. rewrite spread_union_lookup. simpl spread at 2. rewrite Em.
  destruct (spread updates !! "messages") as [[]|]; try discriminate; reflexivity.
Qed.

Lemma is_state_set_conversations (m : gmap string value) (cs : list value) :
  is_state (VObj m) = true →
  forallb is_conversation cs = true →
  is_state (VObj (<["conversations" := VArr cs]> m)) = true.
Proof.
  intros (m' & cs' & a & [= <-] & E1 & H1 & E2 & H2)%is_state_inv Hcs.
  apply (is_state_intro _ cs a); auto.
  - apply lookup_insert_eq.
  - rewrite lookup_insert_ne by done. exact E2.
Qed.

Ltac in_action_types :=
  unfold ActionTypes; repeat first [apply list_elem_of_here | apply list_elem_of_further].

(** No recognised action with a well-formed payload makes the reducer
    throw on a state of the data model, and the state it returns is again a
    state of the data model. *)
Lemma appReducer_total (s : value) (a : Action) :
  is_state s = true → well_formed_payload a = true →
  ∃ s', appReducer s a = Ok s' ∧ is_state s' = true.
Proof.
  intros Hs Hp.
  destruct (is_state_inv s Hs) as (m & cs & ac & -> & Ecs & Hcs & Ea & Ha).
  assert (conversations_of (VObj m) = cs) as Hc
    by (unfold conversations_of; by rewrite Ecs).
  assert (active_of (VObj m) = ac) as Hac by (unfold active_of; by rewrite Ea).
  unfold well_formed_payload in Hp.
  destruct (strict_eq (type a) SET_USER) eqn:T1.
  { unfold appReducer. rewrite T1. eexists; split; [reflexivity|].
    by apply is_state_insert. }
  destruct (strict_eq (type a) LOGOUT_USER) eqn:T2.
  { unfold appReducer. rewrite T1, T2. eexists; split; [reflexivity|].
    apply is_state_conversations; auto. }
  destruct (strict_eq (type a) SET_THEME) eqn:T3.
  { unfold appReducer. rewrite T1, T2, T3. eexists; split; [reflexivity|].
    by apply is_state_insert. }
  destruct (strict_eq (type a) TOGGLE_SIDEBAR) eqn:T4.
  { unfold appReducer. rewrite T1, T2, T3, T4. eexists; split; [reflexivity|].
    by apply is_state_insert. }
  destruct (strict_eq (type a) ADD_CONVERSATION) eqn:T5.
  { unfold appReducer. rewrite T1, T2, T3, T4, T5.
    rewrite (get_field _ _ _ Ecs). step. cbn [iterate]. step.
    eexists; split; [reflexivity|].
    apply is_state_conversations; auto. simpl. rewrite Hp, Hcs. reflexivity. }
  destruct (strict_eq (type a) SET_ACTIVE_CONVERSATION) eqn:T6.
  { unfold appReducer. rewrite T1, T2, T3, T4, T5, T6.
    eexists; split; [reflexivity|].
    apply (is_state_intro _ cs (payload a)); auto.
    - rewrite lookup_insert_ne by done. exact Ecs.
    - apply lookup_insert_eq.
    - destruct (payload a); auto. }
  destruct (strict_eq (type a) ADD_MESSAGE) eqn:T7.
  { destruct (payload a) as [| | | | | | |p] eqn:Ep; try discriminate.
    destruct (p !! "conversationId") as [id|] eqn:Eid; try discriminate.
    assert (id ≠ VUndefined) as Hid by (intros ->; discriminate).
    set (msg := default VUndefined (p !! "message")).
    rewrite (appReducer_ADD_MESSAGE (VObj m) a id msg); auto.
    - eexists; split; [reflexivity|]. rewrite Hc, Hac.
      apply is_state_conversations.
      + apply forallb_map_pres; auto using is_conversation_push_message.
      + apply active_push_message, Ha.
    - apply (strict_eq_action_type _ ADD_MESSAGE); [|exact T7].
      in_action_types.
    - rewrite Ep. apply get_field, Eid.
    - rewrite Ep. reflexivity. }
  destruct (strict_eq (type a) SET_TYPING) eqn:T8.
  { unfold appReducer. rewrite T1, T2, T3, T4, T5, T6, T7, T8.
    eexists; split; [reflexivity|]. by apply is_state_insert. }
  destruct (strict_eq (type a) DELETE_CONVERSATION) eqn:T9.
  { rewrite (appReducer_DELETE_CONVERSATION (VObj m) a); auto.
    - eexists; split; [reflexivity|]. rewrite Hc, Hac.
      apply is_state_conversations.
      + apply forallb_filter_pres, Hcs.
      + destruct (has_id (payload a) ac); auto.
    - apply (strict_eq_action_type _ DELETE_CONVERSATION); [|exact T9].
      in_action_types. }
  destruct (strict_eq (type a) UPDATE_CONVERSATION) eqn:T10.
  { destruct (payload a) as [| | | | | | |p] eqn:Ep; try discriminate.
    set (id := default VUndefined (p !! "id")).
    set (updates := default VUndefined (p !! "updates")) in *.
    rewrite (appReducer_UPDATE_CONVERSATION (VObj m) a id updates); auto.
    - eexists; split; [reflexivity|]. rewrite Hc.
      apply is_state_set_conversations; [exact Hs|].
      apply forallb_map_pres; [|exact Hcs].
      intros c. by apply is_conversation_merge_updates.
    - apply (strict_eq_action_type _ UPDATE_CONVERSATION); [|exact T10].
      in_action_types.
    - rewrite Ep. reflexivity.
    - rewrite Ep. reflexivity. }
  destruct (strict_eq (type a) CLEAR_ALL_CONVERSATIONS) eqn:T11.
  { unfold appReducer. rewrite T1, T2, T3, T4, T5, T6, T7, T8, T9, T10, T11.
    eexists; split; [reflexivity|]. apply is_state_conversations; auto. }
  unfold appReducer. rewrite T1, T2, T3, T4, T5, T6, T7, T8, T9, T10, T11.
  eauto.
Qed.

Lemma strict_eq_not_action_type (v t : value) :
  v ∉ ActionTypes → t ∈ ActionTypes → strict_eq v t = false.
Proof.
  intros Hv Ht. destruct (strict_eq v t) eqn:E; [|reflexivity].
  apply (strict_eq_action_type v t Ht) in E. subst. contradiction.
Qed.

(** C9. The reducer is total. An action whose type is none of the eleven
    [ActionTypes] is answered with the input state itself, whatever the state;
    and on a state of the data model no recognised action with a well-formed
    payload throws: the reducer returns a state, which is again a state of
    the data model. *)
Theorem appReducer_is_total :
  (∀ (s : value) (a : Action), type a ∉ ActionTypes → appReducer s a = Ok s) ∧
  (∀ (s : value) (a : Action),
     is_state s = true → well_formed_payload a = true →
     ∃ s', appReducer s a = Ok s' ∧ is_state s' = true).
Proof.
  split; [|exact appReducer_total].
  intros s a Hn. unfold appReducer.
  rewrite !(strict_eq_not_action_type (type a)); auto; in_action_types.
Qed.

(** ** The hydration merge *)

(** C3. The merge starts from the fields of the default state, overlays
    every field of the persisted value (the persisted value wins where both
    have the field), and then sets [userRoles] and [quickPrompts] to the
    default state's values, whatever the persisted value held there. *)
Theorem hydratedState_overlay_then_override (d : gmap string value) (persisted : value) :
  ∃ h, hydratedState (VObj d) persisted = Ok (VObj h) ∧
    h !! "userRoles" = Some (default VUndefined (d !! "userRoles")) ∧
    h !! "quickPrompts" = Some (default VUndefined (d !! "quickPrompts")) ∧
    (∀ k, k ≠ "userRoles" → k ≠ "quickPrompts" →
       h !! k = match spread persisted !! k with
                | Some v => Some v
                | None => d !! k
                end).
Proof.
  eexists. split; [reflexivity|]. split; [|split].
  - rewrite lookup_insert_ne by done. apply lookup_insert_eq.
  - apply lookup_insert_eq.
  - intros k H1 H2. rewrite !lookup_insert_ne by done.
    apply (spread_union_lookup persisted (VObj d) k).
Qed.

(** ** Effects *)

Lemma bind_ok {A B : Type} (m : Eff A) (f : A → Eff B) (w w' : World) (a : A) :
  m w = (Ok a, w') → (m ≫= f) w = f a w'.
Proof. intros H. unfold mbind, eff_bind. rewrite H. reflexivity. Qed.

Lemma bind_throw {A B : Type} (m : Eff A) (f : A → Eff B) (w w' : World) (e : error) :
  m w = (Throw e, w') → (m ≫= f) w = (Throw e, w').
Proof. intros H. unfold mbind, eff_bind. rewrite H. reflexivity. Qed.

Lemma try_catch_ok {A : Type} (body : Eff A) (h : error → Eff A) (w w' : World) (a : A) :
  body w = (Ok a, w') → try_catch body h w = (Ok a, w').
Proof. intros H. unfold try_catch. rewrite H. reflexivity. Qed.

Lemma try_catch_throw {A : Type} (body : Eff A) (h : error → Eff A) (w w' : World)
  (e : error) :
  body w = (Throw e, w') → try_catch body h w = h e w'.
Proof. intros H. unfold try_catch. rewrite H. reflexivity. Qed.

Lemma getItem_ok (k : string) (w : World) :
  accessible w = true →
  getItem k w = (Ok (match stored w !! k with Some s => VStr s | None => VNull end), w).
Proof. intros H. unfold getItem. rewrite H. reflexivity. Qed.

Lemma removeItem_ok (k : string) (w : World) :
  accessible w = true →
  removeItem k w = (Ok tt, set_stored (delete k (stored w)) w).
Proof. intros H. unfold removeItem. rewrite H. reflexivity. Qed.

Lemma setItem_ok (k v : string) (w : World) :
  accessible w = true → (usage (<[k := v]> (stored w)) <=? quota w)%nat = true →
  setItem k v w = (Ok tt, set_stored (<[k := v]> (stored w)) w).
Proof. intros H1 H2. unfold setItem. rewrite H1. simpl. rewrite H2. reflexivity. Qed.

Lemma setItem_full (k v : string) (w : World) :
  accessible w = true → (usage (<[k := v]> (stored w)) <=? quota w)%nat = false →
  setItem k v w = (Throw QuotaExceededError, w).
Proof. intros H1 H2. unfold setItem. rewrite H1. simpl. rewrite H2. reflexivity. Qed.

Lemma never_throws_ret {A : Type} (a : A) : never_throws (mret a : Eff A).
Proof. intros w e. discriminate. Qed.

Lemma never_throws_bind {A B : Type} (m : Eff A) (f : A → Eff B) :
  never_throws m → (∀ a, never_throws (f a)) → never_throws (m ≫= f).
Proof.
  intros Hm Hf w e. unfold mbind, eff_bind.
  specialize (Hm w). destruct (m w) as [[a|e'|] w']; simpl in *.
  - apply Hf.
  - exfalso. apply (Hm e'). reflexivity.
  - discriminate.
Qed.

Lemma never_throws_try_catch {A : Type} (body : Eff A) (handler : error → Eff A) :
  (∀ e, never_throws (handler e)) → never_throws (try_catch body handler).
Proof.
  intros Hh w e. unfold try_catch.
  destruct (body w) as [[a|e'|] w']; simpl; try discriminate. apply Hh.
Qed.

Lemma never_throws_console_log (method text : string) (e : option error) :
  never_throws (console_log method text e).
Proof. intros w e'. discriminate. Qed.

Lemma never_throws_isLocalStorageAvailable : never_throws isLocalStorageAvailable.
Proof. apply never_throws_try_catch. intros e. apply never_throws_ret. Qed.

Create HintDb effects.
#[local] Hint Resolve never_throws_ret never_throws_console_log
  never_throws_isLocalStorageAvailable : effects.

Lemma isLocalStorageAvailable_yes (w : World) :
  storage_available w = true → isLocalStorageAvailable w = (Ok true, after_probe w).
Proof.
  intros [Ha Hq]%andb_prop.
  unfold isLocalStorageAvailable, try_catch, mbind, eff_bind, setItem, removeItem.
  rewrite Ha. simpl negb. cbv iota. rewrite Hq. simpl.
  unfold after_probe, set_stored. simpl. rewrite Ha. simpl.
  rewrite delete_insert_eq. reflexivity.
Qed.

Lemma isLocalStorageAvailable_no (w : World) :
  storage_available w = false → isLocalStorageAvailable w = (Ok false, w).
Proof.
  intros H. unfold storage_available in H.
  unfold isLocalStorageAvailable, try_catch, mbind, eff_bind, setItem, removeItem.
  destruct (accessible w); simpl in *; [|reflexivity].
  rewrite H. reflexivity.
Qed.

(** ** Hydration *)

Lemma initializeStateFromStorage_never_throws (defaultState : value) :
  never_throws (initializeStateFromStorage defaultState).
Proof.
  unfold initializeStateFromStorage.
  apply never_throws_bind; auto with effects. intros available.
  destruct available; simpl negb; cbv iota.
  - apply never_throws_try_catch. intros e.
    apply never_throws_bind; auto with effects. intros _.
    apply never_throws_bind; auto with effects.
    apply never_throws_try_catch. auto with effects.
  - apply never_throws_bind; auto with effects.
Qed.

Lemma unusable_rejected (text : string) (defaultState : value) (w : World) :
  unusable text →
  ∃ e, (parsedState ← lift (JSON_parse text);
        if negb (String.eqb (typeof parsedState) "object") || strict_eq parsedState VNull
        then throw (Error "Error" "Invalid state format in localStorage")
        else
          hydrated ← lift (hydratedState defaultState parsedState);
          console_log "info" "State successfully loaded from localStorage" None;;
          mret hydrated) w = (Throw e, w).
Proof.
  intros [H | (v & H & Hv)]; unfold mbind, eff_bind, lift; rewrite H.
  - eauto.
  - destruct Hv as [Hv | ->].
    + destruct (String.eqb (typeof v) "object") eqn:E.
      * apply String.eqb_eq in E. contradiction.
      * simpl. unfold throw. eauto.
    + simpl. unfold throw. eauto.
Qed.

Lemma truthy_stored_text (text : string) : text ≠ "" → truthy (VStr text) = true.
Proof.
  intros H. simpl. destruct (String.eqb text "") eqn:E; [|reflexivity].
  apply String.eqb_eq in E. contradiction.
Qed.

(** C4, as stated, fails: the empty string is not JSON, and with it under
    the key [initializeStateFromStorage] returns the default state but leaves
    the key as it is ([if (storedState)] takes the empty string for an absent
    entry). *)
Lemma initializeStateFromStorage_keeps_empty_entry :
  ¬ (∀ (defaultState : value) (w : World) (text : string),
       storage_available w = true →
       stored w !! STORAGE_KEY = Some text →
       unusable text →
       ∃ w', initializeStateFromStorage defaultState w = (Ok defaultState, w') ∧
             stored w' !! STORAGE_KEY = None).
Proof.
  intros H.
  destruct (H initialState empty_entry_world "" eq_refl eq_refl) as (w' & E & Hk).
  - left. reflexivity.
  - apply (f_equal (fun p => stored p.2 !! STORAGE_KEY)) in E.
    cbn [snd] in E. rewrite Hk in E. vm_compute in E. discriminate E.
Qed.

(** C4, amended. [initializeStateFromStorage] never raises to its caller.
    When storage is available and the key holds a text that is not empty and
    is not valid JSON, or whose parse result is not an object, it returns
    exactly the default state it was given and removes the key. An empty
    text under the key is read as no entry: the default state is returned and
    the key is left as it is. *)
Theorem initializeStateFromStorage_recovers :
  (∀ defaultState : value, never_throws (initializeStateFromStorage defaultState)) ∧
  (∀ (defaultState : value) (w : World) (text : string),
     storage_available w = true →
     stored w !! STORAGE_KEY = Some text →
     text ≠ "" →
     unusable text →
     ∃ w', initializeStateFromStorage defaultState w = (Ok defaultState, w') ∧
           stored w' !! STORAGE_KEY = None ∧
           dispatched w' = dispatched w) ∧
  (∀ (defaultState : value) (w : World),
     storage_available w = true →
     stored w !! STORAGE_KEY = Some "" →
     ∃ w', initializeStateFromStorage defaultState w = (Ok defaultState, w') ∧
           stored w' !! STORAGE_KEY = Some "").
Proof.
  split; [exact initializeStateFromStorage_never_throws|]. split; cycle 1.
  { intros defaultState w Hav Hk.
    assert (accessible (after_probe w) = true) as Hacc.
    { apply andb_prop in Hav as [Ha _]. exact Ha. }
    assert (stored (after_probe w) !! STORAGE_KEY = Some "") as Hk'.
    { unfold after_probe, set_stored. simpl. rewrite lookup_delete_ne by done. exact Hk. }
    unfold initializeStateFromStorage.
    rewrite (bind_ok _ _ _ _ _ (isLocalStorageAvailable_yes w Hav)). cbn [negb].
    exists (after_probe w). split; [|exact Hk'].
    apply try_catch_ok.
    rewrite (bind_ok _ _ _ _ _ (getItem_ok STORAGE_KEY _ Hacc)). rewrite Hk'.
    reflexivity. }
  intros defaultState w text Hav Hk Hne Hbad.
  assert (accessible (after_probe w) = true) as Hacc.
  { apply andb_prop in Hav as [Ha _]. exact Ha. }
  assert (stored (after_probe w) !! STORAGE_KEY = Some text) as Hk'.
  { unfold after_probe, set_stored. simpl. rewrite lookup_delete_ne by done. exact Hk. }
  unfold initializeStateFromStorage.
  rewrite (bind_ok _ _ _ _ _ (isLocalStorageAvailable_yes w Hav)).
  cbn [negb].
  destruct (unusable_rejected text defaultState (after_probe w) Hbad) as (e & He).
  erewrite try_catch_throw; cycle 1.
  { rewrite (bind_ok _ _ _ _ _ (getItem_ok STORAGE_KEY _ Hacc)).
    rewrite Hk', (truthy_stored_text text Hne). exact He. }
  erewrite bind_ok by reflexivity.
  erewrite bind_ok; cycle 1.
  { apply try_catch_ok. erewrite bind_ok by (apply removeItem_ok; exact Hacc).
    reflexivity. }
  eexists. split; [reflexivity|]. simpl.
  split; [apply lookup_delete_eq | reflexivity].
Qed.

(** ** Saving *)

Lemma saveStateToStorage_never_throws (state : value) :
  never_throws (saveStateToStorage state).
Proof.
  unfold saveStateToStorage.
  apply never_throws_bind; auto with effects. intros available.
  destruct available; cbn [negb]; auto with effects.
  apply never_throws_try_catch. intros e.
  apply never_throws_bind; auto with effects. intros _.
  destruct (String.eqb (error_name e) "QuotaExceededError"); auto with effects.
  apply never_throws_try_catch. auto with effects.
Qed.

(** The first write succeeds: the text of the state is under the key. *)
Lemma saveStateToStorage_writes (state : value) (w : World) :
  storage_available w = true →
  (usage (<[STORAGE_KEY := default "undefined" (JSON_stringify state)]>
            (stored (after_probe w))) <=? quota w)%nat = true →
  saveStateToStorage state w =
  (Ok tt, set_stored (<[STORAGE_KEY := default "undefined" (JSON_stringify state)]>
                        (stored (after_probe w))) (after_probe w)).
Proof.
  intros Hav Hq.
  assert (accessible (after_probe w) = true) as Hacc.
  { apply andb_prop in Hav as [Ha _]. exact Ha. }
  unfold saveStateToStorage.
  rewrite (bind_ok _ _ _ _ _ (isLocalStorageAvailable_yes w Hav)). cbn [negb].
  apply try_catch_ok. apply setItem_ok; assumption.
Qed.

(** The first write fails for lack of room: the legacy key is removed and
    nothing is written, because the argument of the second [setItem] throws
    before the call. The log ends with the [ReferenceError]. *)
Lemma saveStateToStorage_quota_exceeded (state : value) (w : World) :
  storage_available w = true →
  (usage (<[STORAGE_KEY := default "undefined" (JSON_stringify state)]>
            (stored (after_probe w))) <=? quota w)%nat = false →
  saveStateToStorage state w =
  (Ok tt,
   mkWorld (delete "ireno-theme" (stored (after_probe w))) (quota w) (accessible w)
     (console w ++
        [("warn", "Failed to save state to localStorage:", Some QuotaExceededError);
         ("error", "Failed to save state even after clearing space:",
          Some (Error "ReferenceError" "stateToStore is not defined"))])
     (dispatched w)).
Proof.
  intros Hav Hq.
  assert (accessible (after_probe w) = true) as Hacc.
  { apply andb_prop in Hav as [Ha _]. exact Ha. }
  unfold saveStateToStorage.
  rewrite (bind_ok _ _ _ _ _ (isLocalStorageAvailable_yes w Hav)). cbn [negb].
  erewrite try_catch_throw by (apply setItem_full; assumption).
  erewrite bind_ok by reflexivity.
  change (String.eqb (error_name QuotaExceededError) "QuotaExceededError") with true.
  cbv iota.
  erewrite try_catch_throw; cycle 1.
  { erewrite bind_ok by (apply removeItem_ok; exact Hacc).
    apply bind_throw. reflexivity. }
  unfold console_log, set_stored, after_probe. simpl.
  rewrite <- app_assoc. reflexivity.
Qed.

(** C7. Where the specification has the write retried once after the legacy
    key is removed, the code never writes again. In [tight_world] the write
    of [small_state] fails with [QuotaExceededError]; removing [ireno-theme]
    makes room for it (a [setItem] of the same text succeeds afterwards); yet
    [saveStateToStorage] ends with the legacy key removed, nothing under the
    storage key, and a [ReferenceError] in the log. No exception surfaces and
    nothing is dispatched. *)
Theorem saveStateToStorage_retry_writes_nothing :
  ∃ (text : string) (w' : World),
    JSON_stringify small_state = Some text ∧
    isLocalStorageAvailable tight_world = (Ok true, tight_world) ∧
    setItem STORAGE_KEY text tight_world = (Throw QuotaExceededError, tight_world) ∧
    saveStateToStorage small_state tight_world = (Ok tt, w') ∧
    stored w' = ∅ ∧
    console w' =
      [("warn", "Failed to save state to localStorage:", Some QuotaExceededError);
       ("error", "Failed to save state even after clearing space:",
        Some (Error "ReferenceError" "stateToStore is not defined"))] ∧
    dispatched w' = dispatched tight_world ∧
    (setItem STORAGE_KEY text w').1 = Ok tt.
Proof.
  eexists _, _. split; [vm_compute; reflexivity|].
  split; [vm_compute; reflexivity|].
  split; [vm_compute; reflexivity|].
  split; [apply saveStateToStorage_quota_exceeded; vm_compute; reflexivity|].
  repeat split; vm_compute; reflexivity.
Qed.

(** ** Chat submission *)

Lemma get_truthy (k : string) (v : value) : truthy v = true → ∃ x, get k v = Ok x.
Proof.
  destruct v; simpl; try discriminate; intros _; eauto;
    destruct (String.eqb k "length"); eauto.
Qed.

Lemma dispatch_ok (a : Action) (w : World) :
  dispatch a w =
  (Ok tt, mkWorld (stored w) (quota w) (accessible w) (console w) (dispatched w ++ [a])).
Proof. reflexivity. Qed.

Lemma sendMessageToBackend_failure
  (state a id : value) (text : string) (outcome : fetch_outcome) (t : Time)
  (e : error) (w : World) :
  get "activeConversation" state = Ok a →
  get "id" a = Ok id →
  request_failure outcome = Some e →
  sendMessageToBackend state text outcome t w =
  (Ok tt,
   mkWorld (stored w) (quota w) (accessible w)
     (console w ++ [("error", "Error sending message to backend:", Some e)])
     (dispatched w ++ [setTyping (VBool true); addMessage id (errorResponse e t);
                       setTyping (VBool false)])).
Proof.
  intros Ha Hid Hf. unfold sendMessageToBackend, try_finally.
  erewrite try_catch_throw; cycle 1.
  { erewrite bind_ok by apply dispatch_ok.
    destruct outcome as [e'|status body]; simpl in Hf.
    - injection Hf as ->. reflexivity.
    - destruct (response_ok status); [discriminate|]. injection Hf as <-. reflexivity. }
  erewrite bind_ok by reflexivity.
  unfold lift. erewrite bind_ok by (rewrite Ha; reflexivity).
  erewrite bind_ok by (rewrite Hid; reflexivity).
  rewrite dispatch_ok. cbn [dispatch stored quota accessible console dispatched].
  rewrite <- !app_assoc. reflexivity.
Qed.

Lemma setTyping_step (s v : value) :
  is_state s = true →
  ∃ s', appReducer s (setTyping v) = Ok s' ∧ is_state s' = true ∧
        conversations_of s' = conversations_of s ∧
        active_of s' = active_of s ∧
        spread s' !! "isTyping" = Some v.
Proof.
  intros Hs. destruct (is_state_inv s Hs) as (m & cs & a & -> & Ecs & Hcs & Ea & Ha).
  eexists. split; [reflexivity|]. split; [by apply is_state_insert|].
  unfold conversations_of, active_of. simpl.
  rewrite !lookup_insert_ne by done. rewrite lookup_insert_eq. auto.
Qed.

Lemma addMessage_step_typing (s id msg : value) :
  is_state s = true → id ≠ VUndefined →
  ∃ s', appReducer s (addMessage id msg) = Ok s' ∧ is_state s' = true ∧
        conversations_of s' = map (push_message id msg) (conversations_of s) ∧
        active_of s' = push_message id msg (active_of s) ∧
        spread s' !! "isTyping" = spread s !! "isTyping".
Proof.
  intros Hs Hid.
  destruct (addMessage_step s id msg Hs Hid) as (s' & E & Hs' & Hc & Ha).
  exists s'. repeat split; auto.
  rewrite (appReducer_ADD_MESSAGE s _ id msg) in E;
    auto using payload_addMessage_id, payload_addMessage_message.
  injection E as <-. simpl. rewrite !lookup_insert_ne by done. reflexivity.
Qed.

(** C8. A chat submission whose request fails. Whenever [handleSubmit] goes
    past its guard (the trimmed input is not empty and there is an active
    conversation) and the request fails (the [fetch] is rejected, or the
    response's status is not 2xx), the submission ends without an exception;
    what it dispatched is, in order: the user's message, typing on (twice),
    a synthetic assistant message whose text is the connectivity notice
    followed by the error's message, and typing off; the error is logged.
    Run through the reducer from any state of the data model, these
    dispatches leave [isTyping] false and extend every conversation with the
    target id by the user's message and then the synthetic one. *)
Theorem chat_failure_becomes_assistant_message
  (state a : value) (inputValue : string) (outcome : fetch_outcome) (t1 t2 : Time)
  (e : error) (w : World) :
  trim inputValue ≠ "" →
  get "activeConversation" state = Ok a →
  truthy a = true →
  request_failure outcome = Some e →
  ∃ (id : value) (w' : World),
    get "id" a = Ok id ∧
    handleSubmit state inputValue outcome t1 t2 w = (Ok tt, w') ∧
    dispatched w' =
      (dispatched w ++
       [addMessage id (userMessage inputValue t1);
        setTyping (VBool true);
        setTyping (VBool true);
        addMessage id (errorResponse e t2);
        setTyping (VBool false)])%list ∧
    console w' = (console w ++ [("error", "Error sending message to backend:", Some e)])%list ∧
    get "role" (errorResponse e t2) = Ok (VStr "assistant") ∧
    get "content" (errorResponse e t2) = Ok (VStr (fallback_text +:+ error_message e)) ∧
    ∀ s : value,
      is_state s = true → id ≠ VUndefined →
      ∃ s', dispatch_all s
              [addMessage id (userMessage inputValue t1);
               setTyping (VBool true);
               setTyping (VBool true);
               addMessage id (errorResponse e t2);
               setTyping (VBool false)] = Ok s' ∧
            spread s' !! "isTyping" = Some (VBool false) ∧
            ∀ (i : nat) (c : value),
              conversations_of s !! i = Some c → has_id id c = true →
              ∃ c', conversations_of s' !! i = Some c' ∧
                    messages_of c' =
                      (messages_of c ++ [userMessage inputValue t1; errorResponse e t2])%list.
Proof.
  intros Hin Ha Hta Hf.
  destruct (get_truthy "id" a Hta) as (id & Hid).
  exists id. eexists. split; [exact Hid|]. split; [|split; [|split; [|split; [|split]]]].
  - unfold handleSubmit. rewrite (truthy_stored_text _ Hin). cbn [negb].
    unfold lift. erewrite bind_ok by (rewrite Ha; reflexivity).
    rewrite Hta. cbn [negb].
    erewrite bind_ok by (rewrite Hid; reflexivity).
    erewrite bind_ok by apply dispatch_ok.
    erewrite bind_ok by apply dispatch_ok.
    rewrite (sendMessageToBackend_failure state a id _ _ _ e _ Ha Hid Hf).
    cbn [dispatched stored quota accessible console]. reflexivity.
  - cbn [dispatched]. rewrite <- !app_assoc. reflexivity.
  - reflexivity.
  - unfold errorResponse, message_object, get.
    rewrite !lookup_insert_ne by done. rewrite lookup_insert_eq. reflexivity.
  - unfold errorResponse, message_object, get.
    rewrite !lookup_insert_ne by done. rewrite lookup_insert_eq. reflexivity.
  - intros s Hs Hne.
    destruct (addMessage_step_typing s id (userMessage inputValue t1) Hs Hne)
      as (s1 & E1 & Hs1 & C1 & A1 & _).
    destruct (setTyping_step s1 (VBool true) Hs1) as (s2 & E2 & Hs2 & C2 & A2 & _).
    destruct (setTyping_step s2 (VBool true) Hs2) as (s3 & E3 & Hs3 & C3 & A3 & _).
    destruct (addMessage_step_typing s3 id (errorResponse e t2) Hs3 Hne)
      as (s4 & E4 & Hs4 & C4 & A4 & _).
    destruct (setTyping_step s4 (VBool false) Hs4) as (s5 & E5 & Hs5 & C5 & A5 & T5).
    exists s5. split; [|split; [exact T5|]].
    + cbn [dispatch_all]. rewrite E1. step. rewrite E2. step. rewrite E3. step.
      rewrite E4. step. rewrite E5. reflexivity.
    + intros i c Hi Hc. rewrite C5, C4, C3, C2, C1, map_map.
      eexists. split.
      * change (map ?f ?l) with (f <$> l). rewrite list_lookup_fmap, Hi. reflexivity.
      * assert (is_conversation c = true) as Hconv.
        { destruct (is_state_inv s Hs) as (m & cs & ac & -> & Ecs & Hcs & _).
          unfold conversations_of in Hi. rewrite Ecs in Hi.
          rewrite forallb_forall in Hcs. apply Hcs, list_elem_of_In.
          eapply list_elem_of_lookup_2, Hi. }
        rewrite messages_of_push_message. unfold has_id at 1.
        rewrite id_of_push_message by auto. fold (has_id id c). rewrite Hc.
        rewrite messages_of_push_message, Hc, <- app_assoc. reflexivity.
Qed.

(** ** The codec: numbers *)

Lemma digit_char_spec (d : N) :
  (d < 10)%N → is_digit (digit_char d) = true ∧ (N_of_ascii (digit_char d) - 48 = d)%N.
Proof.
  intros H. unfold digit_char, is_digit.
  rewrite N_ascii_embedding by lia.
  split; [|lia]. apply andb_true_intro. split; apply N.leb_le; lia.
Qed.

Lemma N_digits_value (fuel : nat) (n : N) (acc : list ascii) :
  (n < 2 ^ N.of_nat fuel)%N →
  digits_value (N_digits fuel n acc) 0%N = digits_value acc n.
Proof.
  revert n acc. induction fuel as [|fuel IH]; intros n acc Hn.
  - simpl in *. assert (n = 0%N) as -> by lia. reflexivity.
  - cbn [N_digits].
    assert (n mod 10 < 10)%N as Hm by (apply N.mod_lt; lia).
    destruct (digit_char_spec _ Hm) as [_ Hd].
    destruct (n <? 10)%N eqn:E.
    + apply N.ltb_lt in E. rewrite N.mod_small in * by lia.
      unfold digits_value. simpl. rewrite Hd. reflexivity.
    + apply N.ltb_ge in E. rewrite IH.
      * unfold digits_value. simpl. rewrite Hd. f_equal.
        rewrite (N.div_mod n 10) at 3 by lia. lia.
      * rewrite Nat2N.inj_succ, N.pow_succ_r' in Hn.
        apply N.Div0.div_lt_upper_bound. lia.
Qed.

Lemma N_digits_all_digits (fuel : nat) (n : N) (acc : list ascii) :
  forallb is_digit acc = true → forallb is_digit (N_digits fuel n acc) = true.
Proof.
  revert n acc. induction fuel as [|fuel IH]; intros n acc Hacc; [exact Hacc|].
  cbn [N_digits].
  assert (n mod 10 < 10)%N as Hm by (apply N.mod_lt; lia).
  destruct (digit_char_spec _ Hm) as [Hd _].
  destruct (n <? 10)%N.
  - simpl. rewrite Hd. exact Hacc.
  - apply IH. simpl. rewrite Hd. exact Hacc.
Qed.

(** A positive number is written with a first digit that is not zero. *)
Lemma N_digits_head (fuel : nat) (n : N) (acc : list ascii) :
  (0 < n < 2 ^ N.of_nat fuel)%N →
  ∃ c r, N_digits fuel n acc = c :: r ∧ is_digit c = true ∧ Ascii.eqb c "0"%char = false.
Proof.
  revert n acc. induction fuel as [|fuel IH]; intros n acc Hn.
  - simpl in Hn. lia.
  - cbn [N_digits]. destruct (n <? 10)%N eqn:E.
    + apply N.ltb_lt in E. rewrite N.mod_small by lia.
      destruct (digit_char_spec n E) as [Hd Hv].
      eexists _, _. split; [reflexivity|]. split; [exact Hd|].
      destruct (Ascii.eqb_spec (digit_char n) "0"%char) as [Heq|]; [|reflexivity].
      rewrite Heq in Hv. simpl in Hv. lia.
    + apply N.ltb_ge in E. apply IH.
      rewrite Nat2N.inj_succ, N.pow_succ_r' in Hn. split.
      * apply N.div_str_pos. lia.
      * apply N.Div0.div_lt_upper_bound. lia.
Qed.

Lemma N_to_chars_fuel (n : N) : (n < 2 ^ N.of_nat (S (N.to_nat (N.log2 n))))%N.
Proof.
  rewrite Nat2N.inj_succ, N2Nat.id.
  destruct (N.eq_dec n 0%N) as [->|Hn]; [reflexivity|].
  apply N.log2_spec. lia.
Qed.

Lemma parse_digits_value (ds rest : list ascii) (a : N) :
  forallb is_digit ds = true →
  match rest with c :: _ => is_digit c = false | [] => True end →
  parse_digits (ds ++ rest) a = (digits_value ds a, rest).
Proof.
  revert a. induction ds as [|d ds IH]; intros a Hds Hrest.
  - simpl. destruct rest as [|c r]; [reflexivity|]. simpl. rewrite Hrest. reflexivity.
  - simpl in Hds. apply andb_prop in Hds as [Hd Hds].
    simpl. rewrite Hd. apply IH; assumption.
Qed.

Lemma delimited_not_digit (rest : list ascii) :
  delimited rest = true →
  match rest with c :: _ => is_digit c = false | [] => True end.
Proof.
  destruct rest as [|c r]; [auto|]. simpl. intros H.
  repeat (apply orb_prop in H as [H | H]);
    apply Ascii.eqb_eq in H; subst; reflexivity.
Qed.

Lemma delimited_no_fraction (rest : list ascii) :
  delimited rest = true →
  parse_fraction rest = Some (false, rest) ∧ parse_exponent rest = Some (false, rest).
Proof.
  destruct rest as [|c r]; [auto|]. simpl. intros H.
  repeat (apply orb_prop in H as [H | H]);
    apply Ascii.eqb_eq in H; subst; auto.
Qed.

Lemma is_digit_not_minus (c : ascii) : is_digit c = true → Ascii.eqb c "-"%char = false.
Proof.
  intros H. destruct (Ascii.eqb_spec c "-"%char) as [->|]; [discriminate H|reflexivity].
Qed.

Lemma parse_number_N (n : N) (rest : list ascii) :
  delimited rest = true →
  ∃ c r, N_to_chars n ++ rest = c :: r ∧ is_digit c = true ∧
    (let (m, r1) := if Ascii.eqb c "0"%char then (0%N, r) else parse_digits (c :: r) 0%N in
     (m, r1)) = (n, rest).
Proof.
  intros Hrest. destruct (N.eq_dec n 0%N) as [->|Hn].
  - exists "0"%char, rest. repeat split; reflexivity.
  - destruct (N_digits_head (S (N.to_nat (N.log2 n))) n []) as (c & r & E & Hd & H0).
    { split; [lia | apply N_to_chars_fuel]. }
    unfold N_to_chars. rewrite E. exists c, (r ++ rest). split; [reflexivity|].
    split; [exact Hd|]. rewrite H0.
    change (c :: r ++ rest) with ((c :: r) ++ rest). rewrite <- E.
    rewrite parse_digits_value.
    + rewrite N_digits_value by apply N_to_chars_fuel. reflexivity.
    + apply N_digits_all_digits. reflexivity.
    + apply delimited_not_digit, Hrest.
Qed.

Lemma parse_number_Z (z : Z) (rest : list ascii) :
  delimited rest = true →
  parse_number (Z_to_chars z ++ rest) = Got (VNum z) true rest.
Proof.
  intros Hrest. destruct (delimited_no_fraction rest Hrest) as [Hf He].
  unfold Z_to_chars. destruct (z <? 0) eqn:Ez.
  - apply Z.ltb_lt in Ez.
    destruct (parse_number_N (Z.to_N (- z)) rest Hrest) as (c & r & E & Hd & Hp).
    change (("-"%char :: N_to_chars (Z.to_N (- z))) ++ rest)
      with ("-"%char :: (N_to_chars (Z.to_N (- z)) ++ rest)).
    unfold parse_number. change (Ascii.eqb "-" "-") with true. cbv iota.
    rewrite E. unfold parse_unsigned. rewrite Hd.
    destruct (if Ascii.eqb c "0"%char then (0%N, r) else parse_digits (c :: r) 0%N)
      as [m r1]. injection Hp as -> ->.
    rewrite Hf, He. simpl. f_equal. f_equal. lia.
  - apply Z.ltb_ge in Ez.
    destruct (parse_number_N (Z.to_N z) rest Hrest) as (c & r & E & Hd & Hp).
    unfold parse_number. rewrite E, (is_digit_not_minus c Hd).
    unfold parse_unsigned. rewrite Hd.
    destruct (if Ascii.eqb c "0"%char then (0%N, r) else parse_digits (c :: r) 0%N)
      as [m r1]. injection Hp as -> ->.
    rewrite Hf, He. simpl. f_equal. f_equal. lia.
Qed.

(** ** The codec: strings *)

(** The parser undoes the escaping of one character. *)
Lemma parse_string_escape_char (c : ascii) (r acc : list ascii) (exact : bool) :
  parse_string (escape_char c ++ r) acc exact = parse_string r (c :: acc) exact.
Proof.
  destruct c as [[] [] [] [] [] [] [] []]; reflexivity.
Qed.

Lemma parse_string_escaped (cs r acc : list ascii) (exact : bool) :
  parse_string (flat_map escape_char cs ++ dquote :: r) acc exact =
  Got (string_of_list_ascii (rev acc ++ cs)) exact r.
Proof.
  revert acc. induction cs as [|c cs IH]; intros acc.
  - simpl. rewrite app_nil_r. reflexivity.
  - cbn [flat_map]. rewrite <- app_assoc, parse_string_escape_char, IH.
    cbn [rev]. rewrite <- app_assoc. reflexivity.
Qed.

Lemma parse_string_quote (s : string) (r : list ascii) :
  ∃ body, quote s ++ r = dquote :: body ∧ parse_string body [] true = Got s true r.
Proof.
  unfold quote. eexists. split.
  - cbn [app]. rewrite <- app_assoc. reflexivity.
  - cbn [app]. rewrite parse_string_escaped. cbn [rev app].
    rewrite string_of_list_ascii_of_string. reflexivity.
Qed.

(** ** The codec: values *)

Lemma parse_value_array (fuel : nat) (r : list ascii) :
  parse_value (S fuel) ("["%char :: r) =
  match skip_ws r with
  | d :: r' => if Ascii.eqb d "]"%char then Got (VArr []) true r'
               else parse_elements fuel (d :: r') [] true
  | [] => Bad
  end.
Proof. reflexivity. Qed.

Lemma parse_value_object (fuel : nat) (r : list ascii) :
  parse_value (S fuel) ("{"%char :: r) =
  match skip_ws r with
  | d :: r' => if Ascii.eqb d "}"%char then Got (VObj ∅) true r'
               else parse_members fuel (d :: r') ∅ true
  | [] => Bad
  end.
Proof. reflexivity. Qed.

Lemma parse_value_string (fuel : nat) (r : list ascii) :
  parse_value (S fuel) (dquote :: r) =
  match parse_string r [] true with
  | Got str e r' => Got (VStr str) e r'
  | Bad => Bad
  | Fuel => Fuel
  end.
Proof. reflexivity. Qed.

Lemma parse_value_number (fuel : nat) (c : ascii) (r : list ascii) :
  is_digit c = true ∨ c = "-"%char →
  parse_value (S fuel) (c :: r) = parse_number (c :: r).
Proof.
  intros [H | ->]; [|reflexivity].
  destruct c as [[] [] [] [] [] [] [] []]; try discriminate H; reflexivity.
Qed.

Lemma opens_value_digit (c : ascii) (r : list ascii) :
  is_digit c = true → opens_value (c :: r) = true.
Proof.
  intros H. destruct c as [[] [] [] [] [] [] [] []]; try discriminate H; reflexivity.
Qed.

Lemma Z_to_chars_head (z : Z) :
  ∃ c r, Z_to_chars z = c :: r ∧ (is_digit c = true ∨ c = "-"%char).
Proof.
  unfold Z_to_chars. destruct (z <? 0); [eauto|].
  destruct (parse_number_N (Z.to_N z) [] eq_refl) as (c & r & E & Hd & _).
  rewrite app_nil_r in E. eauto.
Qed.

Lemma serialize_opens_value (v : value) (text : list ascii) :
  serialize v = Some text → opens_value text = true.
Proof.
  destruct v as [| |[]|z|s|s|xs|m]; simpl; intros [= <-]; try reflexivity.
  destruct (Z_to_chars_head z) as (c & r & -> & [H | ->]); [|reflexivity].
  apply opens_value_digit, H.
Qed.

Lemma skip_ws_opens_value (text rest : list ascii) :
  opens_value text = true → skip_ws (text ++ rest) = text ++ rest.
Proof.
  destruct text as [|c r]; [discriminate|]. simpl.
  destruct (is_ws c); [discriminate|reflexivity].
Qed.

Lemma skip_ws_delimited (rest : list ascii) :
  delimited rest = true → skip_ws rest = rest.
Proof.
  destruct rest as [|c r]; [reflexivity|]. simpl. intros H.
  repeat (apply orb_prop in H as [H | H]);
    apply Ascii.eqb_eq in H; subst; reflexivity.
Qed.

Lemma parses_to_null : parses_to (list_ascii_of_string "null") VNull.
Proof.
  intros fuel rest Hrest Hf. destruct fuel as [|fuel]; [simpl in Hf; lia|]. reflexivity.
Qed.

Lemma parses_to_bool (b : bool) :
  parses_to (list_ascii_of_string (if b then "true" else "false")) (VBool b).
Proof.
  intros fuel rest Hrest Hf. destruct fuel as [|fuel]; [destruct b; simpl in Hf; lia|].
  destruct b; reflexivity.
Qed.

Lemma parses_to_number (z : Z) : parses_to (Z_to_chars z) (VNum z).
Proof.
  intros fuel rest Hrest Hf.
  destruct (Z_to_chars_head z) as (c & r & E & Hc).
  destruct fuel as [|fuel]; [rewrite E in Hf; simpl in Hf; lia|].
  rewrite <- (parse_number_Z z rest Hrest). rewrite E.
  apply (parse_value_number fuel c (r ++ rest) Hc).
Qed.

Lemma parses_to_string (s : string) : parses_to (quote s) (VStr s).
Proof.
  intros fuel rest Hrest Hf.
  destruct (parse_string_quote s rest) as (body & E & Hp).
  destruct fuel as [|fuel]; [unfold quote in Hf; simpl in Hf; lia|].
  rewrite E, parse_value_string, Hp. reflexivity.
Qed.

Lemma parse_elements_step (fuel : nat) (s : list ascii) (acc : list value) (v : value)
  (d : ascii) (r : list ascii) :
  parse_value fuel s = Got v true (d :: r) →
  is_ws d = false →
  parse_elements (S fuel) s acc true =
  if Ascii.eqb d ","%char then parse_elements fuel r (v :: acc) true
  else if Ascii.eqb d "]"%char then Got (VArr (rev (v :: acc))) true r
  else Bad.
Proof.
  intros H Hd. cbn [parse_elements]. rewrite H. cbn [skip_ws]. rewrite Hd. reflexivity.
Qed.

Lemma parse_members_step (fuel : nat) (body : list ascii) (acc : gmap string value)
  (k : string) (r2 : list ascii) (v : value) (d : ascii) (r4 : list ascii) :
  parse_string body [] true = Got k true (":"%char :: r2) →
  parse_value fuel r2 = Got v true (d :: r4) →
  is_ws d = false →
  parse_members (S fuel) (dquote :: body) acc true =
  if Ascii.eqb d ","%char then parse_members fuel r4 (<[k := v]> acc) true
  else if Ascii.eqb d "}"%char then Got (VObj (<[k := v]> acc)) true r4
  else Bad.
Proof.
  intros Hk Hv Hd. cbn [parse_members].
  change (skip_ws (dquote :: body)) with (dquote :: body).
  change (Ascii.eqb dquote dquote) with true. cbv iota.
  rewrite Hk. change (skip_ws (":"%char :: r2)) with (":"%char :: r2).
  change (Ascii.eqb ":" ":") with true. cbv iota.
  rewrite Hv. cbn [skip_ws]. rewrite Hd. reflexivity.
Qed.

Lemma opens_value_nonempty (t : list ascii) : opens_value t = true → (1 ≤ length t)%nat.
Proof. destruct t; [discriminate|simpl; lia]. Qed.

Lemma parse_elements_ok (texts : list (list ascii)) (vals : list value) :
  Forall2 (fun t v => opens_value t = true ∧ parses_to t v) texts vals →
  texts ≠ [] →
  ∀ (fuel : nat) (acc : list value) (rest : list ascii),
    delimited rest = true →
    (length (join_comma texts) < fuel)%nat →
    parse_elements fuel (join_comma texts ++ "]"%char :: rest) acc true =
    Got (VArr (rev acc ++ vals)) true rest.
Proof.
  induction 1 as [|t v texts vals [Ho Hp] Hrest IH]; [congruence|].
  intros _ fuel acc rest Hd Hf.
  destruct fuel as [|fuel]; [lia|].
  destruct texts as [|t2 texts].
  - inversion Hrest; subst. cbn [join_comma] in *.
    rewrite (parse_elements_step fuel _ acc v "]"%char rest).
    + cbn [rev]. reflexivity.
    + apply Hp; [reflexivity|lia].
    + reflexivity.
  - change (join_comma (t :: t2 :: texts)) with (t ++ ","%char :: join_comma (t2 :: texts)) in *.
    rewrite length_app in Hf. cbn [length] in Hf.
    pose proof (opens_value_nonempty t Ho).
    rewrite <- app_assoc. cbn [app].
    rewrite (parse_elements_step fuel _ acc v ","%char
               (join_comma (t2 :: texts) ++ "]"%char :: rest)).
    + change (Ascii.eqb "," ",") with true. cbv iota.
      rewrite IH; [|discriminate|exact Hd|lia].
      cbn [rev]. rewrite <- app_assoc. reflexivity.
    + apply Hp; [reflexivity|lia].
    + reflexivity.
Qed.

Lemma parse_members_ok (l : list (string * (list ascii * value))) :
  Forall (fun e => opens_value e.2.1 = true ∧ parses_to e.2.1 e.2.2) l →
  l ≠ [] →
  ∀ (fuel : nat) (acc : gmap string value) (rest : list ascii),
    delimited rest = true →
    (length (join_comma (map (fun e => member (e.1, e.2.1)) l)) < fuel)%nat →
    parse_members fuel
      (join_comma (map (fun e => member (e.1, e.2.1)) l) ++ "}"%char :: rest) acc true =
    Got (VObj (foldl (fun a e => <[e.1 := e.2.2]> a) acc l)) true rest.
Proof.
  induction 1 as [|[k [t v]] l [Ho Hp] Hrest IH]; [congruence|].
  intros _ fuel acc rest Hd Hf.
  destruct fuel as [|fuel]; [lia|].
  cbn [fst snd] in Ho, Hp.
  destruct l as [|e2 l].
  - cbn [map join_comma fst snd foldl] in *. unfold member in *. cbn [fst snd] in *.
    rewrite length_app in Hf. cbn [length] in Hf.
    rewrite <- app_assoc. cbn [app].
    destruct (parse_string_quote k (":"%char :: t ++ "}"%char :: rest)) as (body & E & Hk).
    rewrite E.
    rewrite (parse_members_step fuel body acc k _ v "}"%char rest Hk).
    + reflexivity.
    + apply Hp; [reflexivity|lia].
    + reflexivity.
  - change (join_comma (map (fun e => member (e.1, e.2.1)) ((k, (t, v)) :: e2 :: l)))
      with (member (k, t) ++ ","%char ::
            join_comma (map (fun e => member (e.1, e.2.1)) (e2 :: l))) in *.
    unfold member at 1 in Hf. unfold member at 1. cbn [fst snd] in *.
    rewrite ?length_app in Hf. cbn [length] in Hf. rewrite ?length_app in Hf.
    rewrite <- ?app_assoc. cbn [app]. rewrite <- ?app_assoc. cbn [app].
    destruct (parse_string_quote k
                (":"%char :: t ++ ","%char ::
                 join_comma (map (fun e => member (e.1, e.2.1)) (e2 :: l))
                 ++ "}"%char :: rest)) as (body & E & Hk).
    rewrite E.
    rewrite (parse_members_step fuel body acc k _ v ","%char
               (join_comma (map (fun e => member (e.1, e.2.1)) (e2 :: l))
                ++ "}"%char :: rest) Hk).
    + change (Ascii.eqb "," ",") with true. cbv iota.
      rewrite IH; [|discriminate|exact Hd|lia]. reflexivity.
    + apply Hp; [reflexivity|lia].
    + reflexivity.
Qed.

Lemma vsize_pos (v : value) : (1 ≤ vsize v)%nat.
Proof. destruct v; simpl; lia. Qed.

Lemma vsize_element (xs : list value) (x : value) :
  x ∈ xs → (vsize x < vsize (VArr xs))%nat.
Proof.
  intros H. cbn [vsize]. induction H as [x xs|x y xs H IH]; simpl; lia.
Qed.

Lemma vsize_field (m : gmap string value) (k : string) (x : value) :
  m !! k = Some x → (vsize x < vsize (VObj m))%nat.
Proof.
  intros H. cbn [vsize].
  rewrite (map_fold_delete_L _ _ k x m); [lia| |exact H].
  intros. lia.
Qed.

Lemma serialize_None (x : value) : serialize x = None ↔ x = VUndefined.
Proof. destruct x as [| |[]| | | | |]; simpl; split; congruence. Qed.

Lemma foldl_insert_list_to_map (l : list (string * (list ascii * value)))
  (acc : gmap string value) :
  NoDup (l.*1) →
  foldl (fun a e => <[e.1 := e.2.2]> a) acc l =
  list_to_map (prod_map id snd <$> l) ∪ acc.
Proof.
  revert acc. induction l as [|[k [t v]] l IH]; intros acc Hnd.
  - simpl. rewrite (left_id_L ∅ (∪)). reflexivity.
  - apply NoDup_cons in Hnd as [Hk Hnd]. cbn [foldl fst snd].
    rewrite (IH _ Hnd). csimpl. rewrite <- insert_union_l.
    rewrite <- insert_union_r; [reflexivity|].
    apply not_elem_of_list_to_map_1.
    rewrite <- list_fmap_compose.
    replace (fst ∘ prod_map id snd) with (fst : string * (list ascii * value) → string)
      by reflexivity.
    exact Hk.
Qed.

Lemma written_fields_texts (m : gmap string value) :
  omap serialize m = fst <$> written_fields m.
Proof.
  apply map_eq. intros k. unfold written_fields.
  rewrite lookup_fmap, !lookup_omap.
  destruct (m !! k) as [x|]; [|reflexivity]. simpl.
  destruct (serialize x); reflexivity.
Qed.

Lemma written_fields_values (m : gmap string value) :
  omap field_toJSON m = snd <$> written_fields m.
Proof.
  apply map_eq. intros k. unfold written_fields.
  rewrite lookup_fmap, !lookup_omap.
  destruct (m !! k) as [x|]; [|reflexivity]. simpl.
  destruct (serialize x) eqn:E.
  - destruct x; try reflexivity. discriminate E.
  - apply serialize_None in E as ->. reflexivity.
Qed.

Lemma written_fields_lookup (m : gmap string value) (k : string) (t : list ascii)
  (v : value) :
  written_fields m !! k = Some (t, v) →
  ∃ x, m !! k = Some x ∧ serialize x = Some t ∧ v = toJSON x.
Proof.
  unfold written_fields. rewrite lookup_omap.
  destruct (m !! k) as [x|]; [|discriminate]. simpl.
  destruct (serialize x) eqn:E; [|discriminate]. intros [= <- <-]. eauto.
Qed.

Lemma join_comma_opens (texts : list (list ascii)) (rest : list ascii) :
  texts ≠ [] → Forall (fun t => opens_value t = true) texts →
  opens_value (join_comma texts ++ rest) = true.
Proof.
  destruct texts as [|t texts]; [congruence|]. intros _ H.
  apply Forall_cons in H as [Ht _].
  destruct t as [|c r]; [discriminate|].
  destruct texts; exact Ht.
Qed.

Lemma opens_value_head (text : list ascii) :
  opens_value text = true →
  ∃ d r, text = d :: r ∧ Ascii.eqb d "]"%char = false ∧ Ascii.eqb d "}"%char = false.
Proof.
  destruct text as [|d r]; [discriminate|]. simpl.
  intros H. exists d, r.
  destruct (Ascii.eqb d "]"%char), (Ascii.eqb d "}"%char), (is_ws d);
    try discriminate; auto.
Qed.

Lemma serialize_array (xs : list value) :
  serialize (VArr xs) = Some ("["%char :: join_comma (map element_text xs) ++ ["]"%char]).
Proof. reflexivity. Qed.

Lemma serialize_object (m : gmap string value) :
  serialize (VObj m) =
  Some ("{"%char ::
        join_comma (map (fun e => member (e.1, e.2.1)) (map_to_list (written_fields m)))
        ++ ["}"%char]).
Proof.
  cbn [serialize].
  rewrite written_fields_texts, map_to_list_fmap.
  change (prod_map id fst <$> ?l) with (map (prod_map id fst) l).
  rewrite map_map. reflexivity.
Qed.

Lemma toJSON_array (xs : list value) : toJSON (VArr xs) = VArr (map element_toJSON xs).
Proof. reflexivity. Qed.

Lemma toJSON_object (m : gmap string value) : toJSON (VObj m) = VObj (omap field_toJSON m).
Proof. reflexivity. Qed.

(** Every text that [serialize] writes is read back as the [toJSON] of the
    value it was written from. *)
Lemma serialize_parses_sized (n : nat) (v : value) (text : list ascii) :
  (vsize v ≤ n)%nat → serialize v = Some text → parses_to text (toJSON v).
Proof.
  revert v text. induction n as [|n IH]; intros v text Hn Hs.
  { pose proof (vsize_pos v). lia. }
  destruct v as [| |b|z|s|s|xs|m].
  - discriminate Hs.
  - injection Hs as <-. apply parses_to_null.
  - destruct b; injection Hs as <-.
    + apply (parses_to_bool true).
    + apply (parses_to_bool false).
  - injection Hs as <-. apply parses_to_number.
  - injection Hs as <-. apply parses_to_string.
  - injection Hs as <-. apply parses_to_string.
  - rewrite serialize_array in Hs. injection Hs as <-. rewrite toJSON_array.
    assert (Forall2 (fun t v => opens_value t = true ∧ parses_to t v)
              (map element_text xs) (map element_toJSON xs)) as Hall.
    { apply Forall2_fmap. apply Forall_Forall2_diag. apply Forall_forall.
      intros x Hx. pose proof (vsize_element xs x Hx) as Hsz.
      unfold element_text, element_toJSON.
      destruct (serialize x) as [t|] eqn:E.
      - simpl. split; [exact (serialize_opens_value x t E)|].
        replace (match x with VUndefined => VNull | _ => toJSON x end) with (toJSON x)
          by (destruct x; try reflexivity; discriminate E).
        apply IH; [lia|exact E].
      - apply serialize_None in E as ->. simpl. split; [reflexivity|].
        apply parses_to_null. }
    intros fuel rest Hd Hf. cbn [length] in Hf. rewrite length_app in Hf.
    cbn [length] in Hf.
    destruct fuel as [|fuel]; [lia|].
    cbn [app]. rewrite <- app_assoc. cbn [app]. rewrite parse_value_array.
    destruct xs as [|x xs].
    + cbn [map join_comma app]. change (skip_ws ("]"%char :: rest)) with ("]"%char :: rest).
      reflexivity.
    + assert (map element_text (x :: xs) ≠ []) as Hne by discriminate.
      assert (opens_value (join_comma (map element_text (x :: xs)) ++ "]"%char :: rest) = true)
        as Ho.
      { apply join_comma_opens; [exact Hne|].
        clear -Hall. induction Hall as [|t v ts vs [Ht _] _ IHall]; constructor; auto. }
      pose proof (parse_elements_ok _ _ Hall Hne fuel [] rest Hd) as Hp.
      destruct (opens_value_head _ Ho) as (d & r & E & H1 & _).
      assert (skip_ws (join_comma (map element_text (x :: xs)) ++ "]"%char :: rest)
              = d :: r) as ->.
      { rewrite <- E. rewrite <- (app_nil_r (_ ++ _)).
        rewrite skip_ws_opens_value by exact Ho. rewrite app_nil_r. reflexivity. }
      rewrite H1, <- E. apply Hp. lia.
  - rewrite serialize_object in Hs. injection Hs as <-. rewrite toJSON_object.
    set (l := map_to_list (written_fields m)).
    assert (Forall (fun e => opens_value e.2.1 = true ∧ parses_to e.2.1 e.2.2) l) as Hall.
    { apply Forall_forall. intros [k [t v]] He.
      apply elem_of_map_to_list in He.
      destruct (written_fields_lookup m k t v He) as (x & Hx & Ex & ->).
      cbn [fst snd]. split; [exact (serialize_opens_value x t Ex)|].
      pose proof (vsize_field m k x Hx). apply IH; [lia|exact Ex]. }
    assert (foldl (fun a e => <[e.1 := e.2.2]> a) ∅ l = omap field_toJSON m) as Hres.
    { rewrite foldl_insert_list_to_map by apply NoDup_fst_map_to_list.
      rewrite (right_id_L ∅ (∪)). rewrite list_to_map_fmap.
      unfold l. rewrite list_to_map_to_list. symmetry. apply written_fields_values. }
    intros fuel rest Hd Hf. cbn [length] in Hf. rewrite length_app in Hf.
    cbn [length] in Hf.
    destruct fuel as [|fuel]; [lia|].
    cbn [app]. rewrite <- app_assoc. cbn [app]. rewrite parse_value_object.
    fold l in Hf. fold l.
    destruct l as [|e l'] eqn:El.
    + cbn [map join_comma app]. change (skip_ws ("}"%char :: rest)) with ("}"%char :: rest).
      change (Ascii.eqb "}" "}") with true. cbv iota.
      rewrite <- Hres. reflexivity.
    + assert (e :: l' ≠ []) as Hne by discriminate.
      assert (opens_value
                (join_comma (map (fun e => member (e.1, e.2.1)) (e :: l'))
                 ++ "}"%char :: rest) = true) as Ho.
      { destruct l'; reflexivity. }
      pose proof (parse_members_ok _ Hall Hne fuel ∅ rest Hd) as Hp.
      destruct (opens_value_head _ Ho) as (d & r & E & _ & H2).
      assert (skip_ws (join_comma (map (fun e => member (e.1, e.2.1)) (e :: l'))
                       ++ "}"%char :: rest) = d :: r) as ->.
      { rewrite <- E. rewrite <- (app_nil_r (_ ++ _)).
        rewrite skip_ws_opens_value by exact Ho. rewrite app_nil_r. reflexivity. }
      rewrite H2, <- E, <- Hres. apply Hp. lia.
Qed.

(** [JSON.parse(JSON.stringify(v))] is [toJSON v]. *)
Lemma JSON_parse_stringify (v : value) (text : string) :
  JSON_stringify v = Some text → JSON_parse text = Ok (toJSON v).
Proof.
  unfold JSON_stringify. destruct (serialize v) as [cs|] eqn:E; [|discriminate].
  intros [= <-]. unfold JSON_parse. rewrite list_ascii_of_string_of_list_ascii.
  pose proof (serialize_parses_sized (vsize v) v cs (le_n _) E (2 * length cs + 2)%nat []
                eq_refl) as H.
  rewrite app_nil_r in H. rewrite H by lia. reflexivity.
Qed.

(** ** Storable values *)

Lemma storable_object (m : gmap string value) :
  storable (VObj m) = true ↔ ∀ k x, m !! k = Some x → storable x = true.
Proof.
  cbn [storable]. induction m as [|k x m Hk IH] using map_ind.
  - rewrite map_fold_empty. split; [|reflexivity].
    intros _ k x. rewrite lookup_empty. discriminate.
  - rewrite map_fold_insert_L; [|intros; destruct (storable z1), (storable z2); reflexivity
                                |exact Hk].
    rewrite andb_true_iff, IH. split.
    + intros [Hx Hm] j y. destruct (decide (k = j)) as [->|Hne].
      * rewrite lookup_insert_eq. intros [= <-]. exact Hx.
      * rewrite lookup_insert_ne by exact Hne. apply Hm.
    + intros H. split.
      * apply (H k). apply lookup_insert_eq.
      * intros j y Hj. apply (H j). rewrite lookup_insert_ne; [exact Hj|].
        intros ->. congruence.
Qed.

Lemma storable_toJSON_sized (n : nat) (v : value) :
  (vsize v ≤ n)%nat → storable v = true → toJSON v = v.
Proof.
  revert v. induction n as [|n IH]; intros v Hn Hs.
  { pose proof (vsize_pos v). lia. }
  destruct v as [| |b|z|s|s|xs|m]; try reflexivity; try discriminate Hs.
  - rewrite toJSON_array. f_equal. cbn [storable] in Hs.
    rewrite <- (map_id xs) at 2. apply map_ext_in. intros x Hx.
    apply list_elem_of_In in Hx.
    rewrite forallb_forall in Hs. pose proof (Hs x (proj1 (list_elem_of_In _ _) Hx)) as Hsx.
    pose proof (vsize_element xs x Hx).
    unfold element_toJSON. rewrite IH by (auto; lia).
    destruct x; try reflexivity; discriminate Hsx.
  - rewrite toJSON_object. f_equal. apply map_eq. intros k.
    rewrite lookup_omap. destruct (m !! k) as [x|] eqn:E; [|reflexivity]. simpl.
    pose proof (proj1 (storable_object m) Hs k x E) as Hsx.
    pose proof (vsize_field m k x E).
    unfold field_toJSON. rewrite IH by (auto; lia).
    destruct x; try reflexivity; discriminate Hsx.
Qed.

Lemma storable_toJSON (v : value) : storable v = true → toJSON v = v.
Proof. apply (storable_toJSON_sized (vsize v)). lia. Qed.

Lemma storable_stringify (v : value) :
  storable v = true → ∃ text, JSON_stringify v = Some text.
Proof.
  intros H. unfold JSON_stringify. destruct (serialize v) eqn:E; [eauto|].
  apply serialize_None in E as ->. discriminate H.
Qed.

Lemma storable_insert (m : gmap string value) (k : string) (v : value) :
  storable (VObj m) = true → storable v = true → storable (VObj (<[k := v]> m)) = true.
Proof.
  rewrite !storable_object. intros Hm Hv j y.
  destruct (decide (k = j)) as [->|Hne].
  - rewrite lookup_insert_eq. intros [= <-]. exact Hv.
  - rewrite lookup_insert_ne by exact Hne. apply Hm.
Qed.

Lemma storable_union (a b : gmap string value) :
  storable (VObj a) = true → storable (VObj b) = true → storable (VObj (a ∪ b)) = true.
Proof.
  rewrite !storable_object. intros Ha Hb k x. rewrite lookup_union_Some_raw.
  intros [H | [_ H]]; eauto.
Qed.

Lemma index_props_lookup {A : Type} (l : list A) (i : N) (k : string) (x : A) :
  index_props i l !! k = Some x → x ∈ l.
Proof.
  revert i. induction l as [|y l IH]; intros i; cbn [index_props].
  - rewrite lookup_empty. discriminate.
  - destruct (decide (N_to_string i = k)) as [->|Hne].
    + rewrite lookup_insert_eq. intros [= <-]. apply list_elem_of_here.
    + rewrite lookup_insert_ne by exact Hne. intros H.
      apply list_elem_of_further, (IH _ H).
Qed.

Lemma storable_chars (s : string) : forallb storable (chars_of s) = true.
Proof.
  unfold chars_of. induction (list_ascii_of_string s) as [|c l IH]; [reflexivity|exact IH].
Qed.

Lemma storable_index_props (xs : list value) :
  forallb storable xs = true → storable (VObj (index_props 0 xs)) = true.
Proof.
  intros H. apply storable_object. intros k x Hk.
  apply index_props_lookup in Hk. rewrite forallb_forall in H.
  apply H, list_elem_of_In, Hk.
Qed.

Lemma storable_spread (v : value) : storable v = true → storable (VObj (spread v)) = true.
Proof.
  destruct v; try discriminate; intros H; try reflexivity.
  - apply storable_index_props, storable_chars.
  - apply storable_index_props, H.
  - exact H.
Qed.

Lemma get_storable (k : string) (v x : value) :
  storable v = true → get k v = Ok x → x = VUndefined ∨ storable x = true.
Proof.
  intros Hv. destruct v as [| |b|z|s|s|xs|m]; try discriminate Hv; simpl.
  - discriminate.
  - intros [= <-]. auto.
  - intros [= <-]. auto.
  - destruct (String.eqb k "length"); intros [= <-]; [auto|].
    destruct (index_props 0 (chars_of s) !! k) as [y|] eqn:E; [|auto]. right.
    apply index_props_lookup in E. pose proof (storable_chars s) as Hc.
    rewrite forallb_forall in Hc. apply Hc, list_elem_of_In, E.
  - destruct (String.eqb k "length"); intros [= <-]; [auto|].
    destruct (index_props 0 xs !! k) as [y|] eqn:E; [|auto]. right.
    apply index_props_lookup in E. cbn [storable] in Hv.
    rewrite forallb_forall in Hv. apply Hv, list_elem_of_In, E.
  - intros [= <-]. destruct (m !! k) as [y|] eqn:E; [|auto]. right.
    apply (proj1 (storable_object m) Hv k y E).
Qed.

Lemma iterate_storable (v : value) (xs : list value) :
  v = VUndefined ∨ storable v = true → iterate v = Ok xs → forallb storable xs = true.
Proof.
  intros [-> | Hv]; [discriminate|].
  destruct v; try discriminate; simpl; intros [= <-].
  - apply storable_chars.
  - exact Hv.
Qed.

Lemma mapM_Ok_forallb {A B : Type} (f : A → result B) (P : A → bool) (Q : B → bool)
  (xs : list A) (ys : list B) :
  (∀ x y, P x = true → f x = Ok y → Q y = true) →
  forallb P xs = true → mapM f xs = Ok ys → forallb Q ys = true.
Proof.
  intros Hf. revert ys. induction xs as [|x xs IH]; intros ys Hxs; simpl.
  - intros [= <-]. reflexivity.
  - simpl in Hxs. apply andb_prop in Hxs as [Hx Hxs].
    destruct (f x) as [y| |] eqn:E; try discriminate. step.
    destruct (mapM f xs) as [ys'| |]; try discriminate. step.
    intros [= <-]. simpl. rewrite (Hf x y Hx E), (IH ys' Hxs eq_refl). reflexivity.
Qed.

Lemma filterM_Ok_forallb {A : Type} (p : A → result bool) (P : A → bool)
  (xs ys : list A) :
  forallb P xs = true → filterM p xs = Ok ys → forallb P ys = true.
Proof.
  revert ys. induction xs as [|x xs IH]; intros ys Hxs; simpl.
  - intros [= <-]. reflexivity.
  - simpl in Hxs. apply andb_prop in Hxs as [Hx Hxs].
    destruct (p x) as [b| |]; try discriminate. step.
    destruct (filterM p xs) as [ys'| |]; try discriminate. step.
    intros [= <-]. destruct b; simpl; rewrite ?Hx; apply (IH ys' Hxs eq_refl).
Qed.

Lemma get_Ok_any (k k' : string) (v x : value) :
  get k v = Ok x → ∃ y, get k' v = Ok y.
Proof.
  destruct v; simpl; try discriminate; intros _; eauto;
    destruct (String.eqb k' "length"); eauto.
Qed.

Lemma add_message_to_storable (a : Action) (conv y : value) :
  match get "message" (payload a) with Ok msg => storable msg | _ => true end = true →
  storable conv = true → add_message_to a conv = Ok y → storable y = true.
Proof.
  intros Hm Hc. unfold add_message_to.
  destruct (get "id" conv) as [id| |]; try discriminate. step.
  destruct (get "conversationId" (payload a)) as [target| |]; try discriminate. step.
  destruct (strict_eq id target); [|intros [= <-]; exact Hc].
  destruct (get "messages" conv) as [ms| |] eqn:Ems; try discriminate. step.
  destruct (iterate ms) as [old| |] eqn:Eold; try discriminate. step.
  destruct (get "message" (payload a)) as [msg| |]; try discriminate. step.
  intros [= <-].
  apply storable_insert; [apply storable_spread, Hc|].
  cbn [storable]. rewrite forallb_app.
  rewrite (iterate_storable ms old (get_storable _ _ _ Hc Ems) Eold).
  simpl. rewrite Hm. reflexivity.
Qed.

Lemma update_conversation_storable (a : Action) (conv y : value) :
  match get "updates" (payload a) with
  | Ok u => storable (VObj (spread u))
  | _ => true
  end = true →
  storable conv = true → update_conversation a conv = Ok y → storable y = true.
Proof.
  intros Hu Hc. unfold update_conversation.
  destruct (get "id" conv) as [id| |]; try discriminate. step.
  destruct (get "id" (payload a)) as [target| |]; try discriminate. step.
  destruct (strict_eq id target); [|intros [= <-]; exact Hc].
  destruct (get "updates" (payload a)) as [u| |]; try discriminate. step.
  intros [= <-].
  apply storable_union; [exact Hu|apply storable_spread, Hc].
Qed.

(** ** The round trip *)

Lemma round_trips_insert (d m : gmap string value) (k : string) (v : value) :
  round_trips d (VObj m) → storable v = true → round_trips d (VObj (<[k := v]> m)).
Proof.
  intros (m' & [= <-] & Hs & Hac & Hd) Hv. exists (<[k := v]> m). split; [reflexivity|].
  split; [apply storable_insert; assumption|].
  assert (∀ j, is_Some (m !! j) → is_Some (<[k := v]> m !! j)) as Hmono.
  { intros j Hj. destruct (decide (k = j)) as [->|Hne].
    - rewrite lookup_insert_eq. eauto.
    - rewrite lookup_insert_ne by exact Hne. exact Hj. }
  split; [apply Hmono, Hac|]. intros j Hj. apply Hmono, Hd, Hj.
Qed.

Lemma storable_field (m : gmap string value) (k : string) :
  storable (VObj m) = true →
  default VUndefined (m !! k) = VUndefined ∨ storable (default VUndefined (m !! k)) = true.
Proof. intros H. apply (get_storable k (VObj m)); [exact H|reflexivity]. Qed.

Lemma storable_present_field (m : gmap string value) (k : string) :
  storable (VObj m) = true → is_Some (m !! k) →
  storable (default VUndefined (m !! k)) = true.
Proof.
  intros H [x Hx]. rewrite Hx. apply (proj1 (storable_object m) H k x Hx).
Qed.

(** Which case of the [switch] an action takes decides what
    [storable_action] asks of it. *)
Ltac this_case T Ha :=
  let T' := fresh "T" in
  pose proof (proj1 (strict_eq_true_iff _ _) T) as T';
  try rewrite T' in Ha;
  cbn [strict_eq SET_USER LOGOUT_USER SET_THEME TOGGLE_SIDEBAR ADD_CONVERSATION
       SET_ACTIVE_CONVERSATION ADD_MESSAGE SET_TYPING DELETE_CONVERSATION
       UPDATE_CONVERSATION CLEAR_ALL_CONVERSATIONS] in Ha;
  simpl String.eqb in Ha; cbn [orb] in Ha; cbv iota in Ha.

(** A transition with a storable payload keeps a state that survives the
    round trip such a state. *)
Lemma appReducer_round_trips (d : gmap string value) (s s' : value) (a : Action) :
  round_trips d s → storable_action a = true →
  appReducer s a = Ok s' → round_trips d s'.
Proof.
  intros Hinv Ha. pose proof Hinv as (m & -> & Hs & Hpresent & Hd).
  pose proof (storable_present_field m "activeConversation" Hs Hpresent) as Hac.
  pose proof (storable_field m "conversations" Hs) as Hcs.
  unfold storable_action in Ha. unfold appReducer. cbn [spread get].
  destruct (strict_eq (type a) SET_USER) eqn:T1.
  { this_case T1 Ha. intros [= <-]. apply round_trips_insert; auto. }
  destruct (strict_eq (type a) LOGOUT_USER) eqn:T2.
  { intros [= <-]. repeat apply round_trips_insert; auto. }
  destruct (strict_eq (type a) SET_THEME) eqn:T3.
  { this_case T3 Ha. intros [= <-]. apply round_trips_insert; auto. }
  destruct (strict_eq (type a) TOGGLE_SIDEBAR) eqn:T4.
  { step. intros [= <-]. apply round_trips_insert; auto. }
  destruct (strict_eq (type a) ADD_CONVERSATION) eqn:T5.
  { this_case T5 Ha. step.
    destruct (iterate (default VUndefined (m !! "conversations"))) as [old| |] eqn:Eold;
      try discriminate. step.
    intros [= <-]. repeat apply round_trips_insert; auto.
    cbn [storable forallb]. rewrite Ha.
    apply (iterate_storable _ old Hcs Eold). }
  destruct (strict_eq (type a) SET_ACTIVE_CONVERSATION) eqn:T6.
  { this_case T6 Ha. intros [= <-]. apply round_trips_insert; auto. }
  destruct (strict_eq (type a) ADD_MESSAGE) eqn:T7.
  { this_case T7 Ha. step.
    destruct (default VUndefined (m !! "conversations")) as [| | | | | |cs|] eqn:Ecs;
      try discriminate.
    destruct Hcs as [|Hcs]; [discriminate|].
    unfold array_map.
    destruct (mapM (add_message_to a) cs) as [cs'| |] eqn:Emap; try discriminate. step.
    assert (storable (VArr cs') = true) as Hcs'.
    { cbn [storable]. eapply (mapM_Ok_forallb _ storable storable cs cs'); eauto.
      intros x y Hx. apply (add_message_to_storable a x y Ha Hx). }
    set (ac := default VUndefined (m !! "activeConversation")) in *.
    destruct (get_opt "id" ac) as [aid| |]; try discriminate. step.
    destruct (get "conversationId" (payload a)) as [target| |]; try discriminate. step.
    destruct (strict_eq aid target).
    - destruct (get "messages" ac) as [ms| |] eqn:Ems; try discriminate. step.
      destruct (iterate ms) as [old| |] eqn:Eold; try discriminate. step.
      destruct (get "message" (payload a)) as [msg| |] eqn:Emsg; try discriminate. step.
      intros [= <-]. repeat apply round_trips_insert; auto.
      apply storable_insert; [apply storable_spread, Hac|].
      cbn [storable]. rewrite forallb_app.
      rewrite (iterate_storable ms old (get_storable _ _ _ Hac Ems) Eold).
      simpl. rewrite Ha. reflexivity.
    - step. intros [= <-]. repeat apply round_trips_insert; auto. }
  destruct (strict_eq (type a) SET_TYPING) eqn:T8.
  { this_case T8 Ha. intros [= <-]. apply round_trips_insert; auto. }
  destruct (strict_eq (type a) DELETE_CONVERSATION) eqn:T9.
  { step.
    destruct (default VUndefined (m !! "conversations")) as [| | | | | |cs|] eqn:Ecs;
      try discriminate.
    destruct Hcs as [|Hcs]; [discriminate|].
    unfold array_filter.
    destruct (filterM (keep_conversation a) cs) as [cs'| |] eqn:Efil; try discriminate.
    step. set (ac := default VUndefined (m !! "activeConversation")) in *.
    destruct (get_opt "id" ac) as [aid| |]; try discriminate. step.
    intros [= <-]. repeat apply round_trips_insert; auto.
    - cbn [storable]. apply (filterM_Ok_forallb _ storable cs cs' Hcs Efil).
    - destruct (strict_eq aid (payload a)); auto. }
  destruct (strict_eq (type a) UPDATE_CONVERSATION) eqn:T10.
  { this_case T10 Ha. step.
    destruct (default VUndefined (m !! "conversations")) as [| | | | | |cs|] eqn:Ecs;
      try discriminate.
    destruct Hcs as [|Hcs]; [discriminate|].
    unfold array_map.
    destruct (mapM (update_conversation a) cs) as [cs'| |] eqn:Emap; try discriminate.
    step. intros [= <-]. apply round_trips_insert; auto.
    cbn [storable]. eapply (mapM_Ok_forallb _ storable storable cs cs'); eauto.
    intros x y Hx. apply (update_conversation_storable a x y Ha Hx). }
  destruct (strict_eq (type a) CLEAR_ALL_CONVERSATIONS) eqn:T11.
  { intros [= <-]. repeat apply round_trips_insert; auto. }
  intros [= <-]. exact Hinv.
Qed.

Lemma union_covered (m d : gmap string value) :
  (∀ k, is_Some (d !! k) → is_Some (m !! k)) → m ∪ d = m.
Proof.
  intros H. apply map_eq. intros k. rewrite lookup_union.
  destruct (m !! k) as [x|] eqn:Em, (d !! k) as [y|] eqn:Ed; try reflexivity.
  destruct (H k) as [x Hx]; [rewrite Ed; eauto|]. congruence.
Qed.

Lemma round_trip_of_round_trips (d : gmap string value) (s : value) :
  round_trips d s →
  ∃ m, s = VObj m ∧ round_trip (VObj d) s = Ok (VObj (with_default_catalogs d m)).
Proof.
  intros (m & -> & Hs & _ & Hd). exists m. split; [reflexivity|].
  destruct (storable_stringify _ Hs) as (text & Etext).
  unfold round_trip. rewrite Etext.
  change (default "undefined" (Some text)) with text.
  rewrite (JSON_parse_stringify _ _ Etext), (storable_toJSON _ Hs). step.
  unfold hydratedState. cbn [get spread]. step.
  rewrite (union_covered m d Hd). reflexivity.
Qed.

Lemma dispatch_all_round_trips (d : gmap string value) (actions : list Action)
  (s s' : value) :
  round_trips d s → forallb storable_action actions = true →
  dispatch_all s actions = Ok s' → round_trips d s'.
Proof.
  revert s. induction actions as [|a actions IH]; intros s Hs Ha; cbn [dispatch_all].
  - intros [= <-]. exact Hs.
  - simpl in Ha. apply andb_prop in Ha as [Ha Hrest].
    destruct (appReducer s a) as [s1| |] eqn:E; try discriminate. step.
    apply IH; [|exact Hrest]. apply (appReducer_round_trips d s s1 a Hs Ha E).
Qed.

(** C1, as stated, fails: [handleNewChat] puts [Date] objects into the
    state ([createdAt], [updatedAt]), and the round trip brings them back as
    strings. Starting from [initialState], after the one [ADD_CONVERSATION]
    it dispatches, the round trip does not give the state back. *)
Lemma round_trip_turns_dates_into_strings :
  ¬ (∀ (d : gmap string value) (s0 : value) (actions : list Action) (s : value),
       forallb (fun a => negb (destructive a)) actions = true →
       dispatch_all s0 actions = Ok s →
       round_trip (VObj d) s = Ok (VObj (with_default_catalogs d (spread s)))).
Proof.
  intros H.
  specialize (H (spread initialState) initialState
                [addConversation (newConversation an_instant)]
                state_after_new_chat eq_refl).
  assert (dispatch_all initialState [addConversation (newConversation an_instant)]
          = Ok state_after_new_chat) as E by (vm_compute; reflexivity).
  specialize (H E). apply (f_equal first_created_at) in H.
  vm_compute in H. discriminate H.
Qed.

(** C1, amended. The round-trip and override law holds for the states JSON
    can represent. Values are compared as trees, objects as finite maps from
    field names to values. Call a value plain ([storable]) if it is built
    only from [null], booleans, integers, strings, arrays and objects: no
    [Date], no [undefined], and no number but an integer ([NaN] and the
    infinities, which JSON writes as [null], and negative zero are not
    numbers of the model). Take a plain state that is an object with an [activeConversation] field and
    every field of the default state, and any sequence of transitions that
    does not include [DeleteConversation], [ClearAllConversations] or
    [LogoutUser] and that puts only plain values into the state
    ([storable_action]). If the transitions succeed, then encoding the
    resulting state [S], decoding the text and merging with the default state
    yields exactly [S] with [userRoles] and [quickPrompts] set to the default
    state's values. For every value built from [undefined], [null], booleans,
    integers, strings, valid [Date]s, arrays and objects (the values of the
    model) that has an encoding, that is every one but [undefined] itself,
    decoding its encoding gives the value with each [Date] replaced by its
    ISO string, each [undefined] element of an array replaced by [null] and
    each [undefined] field dropped. *)
Theorem round_trip_override_law :
  (∀ (v : value) (text : string),
     JSON_stringify v = Some text → JSON_parse text = Ok (toJSON v)) ∧
  (∀ (d m0 : gmap string value) (actions : list Action) (s : value),
     storable (VObj m0) = true →
     is_Some (m0 !! "activeConversation") →
     (∀ k, is_Some (d !! k) → is_Some (m0 !! k)) →
     forallb storable_action actions = true →
     forallb (fun a => negb (destructive a)) actions = true →
     dispatch_all (VObj m0) actions = Ok s →
     ∃ m, s = VObj m ∧
          round_trip (VObj d) s = Ok (VObj (with_default_catalogs d m)) ∧
          with_default_catalogs d m !! "userRoles"
            = Some (default VUndefined (d !! "userRoles")) ∧
          with_default_catalogs d m !! "quickPrompts"
            = Some (default VUndefined (d !! "quickPrompts")) ∧
          ∀ k, k ≠ "userRoles" → k ≠ "quickPrompts" →
               with_default_catalogs d m !! k = m !! k).
Proof.
  split; [exact JSON_parse_stringify|].
  intros d m0 actions s Hs Hac Hd Ha _ E.
  assert (round_trips d (VObj m0)) as H0 by (exists m0; auto).
  pose proof (dispatch_all_round_trips d actions _ _ H0 Ha E) as H1.
  destruct (round_trip_of_round_trips d s H1) as (m & -> & Hrt).
  exists m. split; [reflexivity|]. split; [exact Hrt|].
  unfold with_default_catalogs. split; [|split].
  - rewrite lookup_insert_ne by done. apply lookup_insert_eq.
  - apply lookup_insert_eq.
  - intros k H2 H3. rewrite !lookup_insert_ne by done. reflexivity.
Qed.

(** ** The parser always has fuel enough *)

Lemma skip_ws_length (s : list ascii) : (length (skip_ws s) ≤ length s)%nat.
Proof.
  induction s as [|c s IH]; simpl; [lia|]. destruct (is_ws c); simpl; lia.
Qed.

Lemma parse_string_consumes (s acc : list ascii) (exact : bool) :
  match parse_string s acc exact with
  | Got _ _ r => (length r < length s)%nat
  | Bad => True
  | Fuel => False
  end.
Proof.
  revert acc exact. induction s as [s IH] using (induction_ltof1 _ (@length ascii)).
  unfold ltof in IH. intros acc exact.
  destruct s as [|c r]; [exact I|]. cbn [parse_string].
  destruct (Ascii.eqb c dquote); [simpl; lia|].
  destruct (Ascii.eqb c backslash).
  - destruct r as [|e r']; [exact I|].
    assert (∀ a x, match parse_string r' a x with
                   | Got _ _ r0 => (length r0 < length (c :: e :: r'))%nat
                   | Bad => True
                   | Fuel => False
                   end) as Hr'.
    { intros a x. specialize (IH r' ltac:(simpl; lia) a x).
      destruct (parse_string r' a x); simpl in *; auto; lia. }
    repeat (match goal with
            | |- context [if Ascii.eqb e ?k then _ else _] =>
                destruct (Ascii.eqb e k); [apply Hr'|]
            end).
    destruct (Ascii.eqb e "u"%char); [|exact I].
    destruct r' as [|h1 [|h2 [|h3 [|h4 r'']]]]; try exact I.
    destruct (hex_value h1), (hex_value h2), (hex_value h3), (hex_value h4); try exact I.
    assert (∀ a x, match parse_string r'' a x with
                   | Got _ _ r0 =>
                       (length r0 < length (c :: e :: h1 :: h2 :: h3 :: h4 :: r''))%nat
                   | Bad => True
                   | Fuel => False
                   end) as Hr''.
    { intros a x. specialize (IH r'' ltac:(simpl; lia) a x).
      destruct (parse_string r'' a x); simpl in *; auto; lia. }
    match goal with |- context [if ?b then _ else _] => destruct b end; apply Hr''.
  - destruct (N_of_ascii c <? 32)%N; [exact I|].
    specialize (IH r ltac:(simpl; lia) (c :: acc) exact).
    destruct (parse_string r (c :: acc) exact); simpl in *; auto; lia.
Qed.

Lemma parse_digits_length (s : list ascii) (a : N) :
  (length (parse_digits s a).2 ≤ length s)%nat.
Proof.
  revert a. induction s as [|c s IH]; intros a; simpl; [lia|].
  destruct (is_digit c); simpl; [|lia]. specialize (IH (a * 10 + (N_of_ascii c - 48))%N). lia.
Qed.

Lemma parse_fraction_length (s r : list ascii) (b : bool) :
  parse_fraction s = Some (b, r) → (length r ≤ length s)%nat.
Proof.
  destruct s as [|c s]; simpl; [intros [= <- <-]; simpl; lia|].
  destruct (Ascii.eqb c "."%char).
  - destruct s as [|d s']; [discriminate|]. destruct (is_digit d); [|discriminate].
    intros [= <- <-]. pose proof (parse_digits_length (d :: s') 0%N). simpl in *. lia.
  - intros [= <- <-]. simpl. lia.
Qed.

Lemma parse_exponent_length (s r : list ascii) (b : bool) :
  parse_exponent s = Some (b, r) → (length r ≤ length s)%nat.
Proof.
  destruct s as [|c s]; simpl; [intros [= <- <-]; simpl; lia|].
  destruct (Ascii.eqb c "e"%char || Ascii.eqb c "E"%char).
  - set (r' := match s with
               | sg :: r1 => if Ascii.eqb sg "+"%char || Ascii.eqb sg "-"%char then r1 else s
               | [] => s
               end).
    assert (length r' ≤ length s)%nat as Hr'.
    { unfold r'. destruct s as [|sg r1]; [lia|].
      destruct (Ascii.eqb sg "+"%char || Ascii.eqb sg "-"%char); simpl; lia. }
    destruct r' as [|d r'']; [discriminate|]. destruct (is_digit d); [|discriminate].
    intros [= <- <-]. pose proof (parse_digits_length (d :: r'') 0%N). simpl in *. lia.
  - intros [= <- <-]. simpl. lia.
Qed.

Lemma parse_unsigned_consumes (negative : bool) (s : list ascii) :
  match parse_unsigned negative s with
  | Got _ _ r => (length r < length s)%nat
  | Bad => True
  | Fuel => False
  end.
Proof.
  unfold parse_unsigned. destruct s as [|c r]; [exact I|].
  destruct (is_digit c) eqn:Hd; [|exact I].
  destruct (if Ascii.eqb c "0"%char then (0%N, r) else parse_digits (c :: r) 0%N)
    as [n r1] eqn:E.
  assert (length r1 < length (c :: r))%nat as H1.
  { destruct (Ascii.eqb c "0"%char).
    - injection E as <- <-. simpl. lia.
    - simpl in E. rewrite Hd in E.
      pose proof (parse_digits_length r (0 * 10 + (N_of_ascii c - 48))%N) as H.
      rewrite E in H. simpl in *. lia. }
  destruct (parse_fraction r1) as [[frac r2]|] eqn:Ef; [|exact I].
  destruct (parse_exponent r2) as [[exp r3]|] eqn:Ee; [|exact I].
  apply parse_fraction_length in Ef. apply parse_exponent_length in Ee. lia.
Qed.

Lemma parse_number_consumes (s : list ascii) :
  match parse_number s with
  | Got _ _ r => (length r < length s)%nat
  | Bad => True
  | Fuel => False
  end.
Proof.
  unfold parse_number. destruct s as [|c r]; [exact I|].
  destruct (Ascii.eqb c "-"%char).
  - pose proof (parse_unsigned_consumes true r) as H.
    destruct (parse_unsigned true r); simpl in *; auto; lia.
  - apply parse_unsigned_consumes.
Qed.

Lemma strip_prefix_length (p s r : list ascii) :
  strip_prefix p s = Some r → length s = (length p + length r)%nat.
Proof.
  revert s. induction p as [|c p IH]; intros s; simpl.
  - intros [= <-]. reflexivity.
  - destruct s as [|d s]; [discriminate|]. destruct (Ascii.eqb c d); [|discriminate].
    intros H. apply IH in H. simpl. lia.
Qed.

Lemma parse_literal_consumes (name : string) (v : value) (s : list ascii) :
  name ≠ "" →
  match parse_literal name v s with
  | Got _ _ r => (length r < length s)%nat
  | Bad => True
  | Fuel => False
  end.
Proof.
  intros Hn. unfold parse_literal.
  destruct (strip_prefix (list_ascii_of_string name) s) as [r|] eqn:E; [|exact I].
  apply strip_prefix_length in E. destruct name; [congruence|]. simpl in E. lia.
Qed.

Lemma consumes_weaken {A : Type} (answer : parsed A) (s s' : list ascii) :
  consumes answer s → (length s ≤ length s')%nat → consumes answer s'.
Proof. destruct answer; simpl; auto. lia. Qed.

Lemma parse_value_consumes (fuel : nat) :
  (∀ s, (2 * length s + 1 ≤ fuel)%nat → consumes (parse_value fuel s) s) ∧
  (∀ s acc ex, (2 * length s + 2 ≤ fuel)%nat → consumes (parse_elements fuel s acc ex) s) ∧
  (∀ s acc ex, (2 * length s + 2 ≤ fuel)%nat → consumes (parse_members fuel s acc ex) s).
Proof.
  induction fuel as [|fuel (IHv & IHe & IHm)].
  { repeat split; intros; lia. }
  split; [|split].
  - intros s Hf. cbn [parse_value]. pose proof (skip_ws_length s) as Hs.
    destruct (skip_ws s) as [|c r]; [exact I|]. simpl in Hs.
    destruct (Ascii.eqb c "{"%char).
    { pose proof (skip_ws_length r) as Hr. destruct (skip_ws r) as [|d r']; [exact I|].
      simpl in Hr. destruct (Ascii.eqb d "}"%char); [simpl; lia|].
      apply (consumes_weaken _ (d :: r')); [|simpl; lia]. apply IHm. simpl. lia. }
    destruct (Ascii.eqb c "["%char).
    { pose proof (skip_ws_length r) as Hr. destruct (skip_ws r) as [|d r']; [exact I|].
      simpl in Hr. destruct (Ascii.eqb d "]"%char); [simpl; lia|].
      apply (consumes_weaken _ (d :: r')); [|simpl; lia]. apply IHe. simpl. lia. }
    destruct (Ascii.eqb c dquote).
    { pose proof (parse_string_consumes r [] true) as Hp.
      destruct (parse_string r [] true); simpl in *; auto; lia. }
    destruct (Ascii.eqb c "n"%char).
    { apply (consumes_weaken _ (c :: r)); [|simpl; lia].
      apply parse_literal_consumes. discriminate. }
    destruct (Ascii.eqb c "t"%char).
    { apply (consumes_weaken _ (c :: r)); [|simpl; lia].
      apply parse_literal_consumes. discriminate. }
    destruct (Ascii.eqb c "f"%char).
    { apply (consumes_weaken _ (c :: r)); [|simpl; lia].
      apply parse_literal_consumes. discriminate. }
    apply (consumes_weaken _ (c :: r)); [|simpl; lia]. apply parse_number_consumes.
  - intros s acc ex Hf. cbn [parse_elements].
    pose proof (IHv s ltac:(lia)) as Hv.
    destruct (parse_value fuel s) as [v e r| |]; simpl in Hv; auto.
    pose proof (skip_ws_length r) as Hr. destruct (skip_ws r) as [|c r']; [exact I|].
    simpl in Hr. destruct (Ascii.eqb c ","%char).
    { apply (consumes_weaken _ r'); [|lia]. apply IHe. lia. }
    destruct (Ascii.eqb c "]"%char); [simpl; lia|exact I].
  - intros s acc ex Hf. cbn [parse_members]. pose proof (skip_ws_length s) as Hs.
    destruct (skip_ws s) as [|q r]; [exact I|]. simpl in Hs.
    destruct (Ascii.eqb q dquote); [|exact I].
    pose proof (parse_string_consumes r [] true) as Hk.
    destruct (parse_string r [] true) as [k e1 r1| |]; simpl in Hk; auto.
    pose proof (skip_ws_length r1) as Hr1. destruct (skip_ws r1) as [|c r2]; [exact I|].
    simpl in Hr1. destruct (Ascii.eqb c ":"%char); [|exact I].
    pose proof (IHv r2 ltac:(lia)) as Hv.
    destruct (parse_value fuel r2) as [v e2 r3| |]; simpl in Hv; auto.
    pose proof (skip_ws_length r3) as Hr3. destruct (skip_ws r3) as [|d r4]; [exact I|].
    simpl in Hr3. destruct (Ascii.eqb d ","%char).
    { apply (consumes_weaken _ r4); [|lia]. apply IHm. lia. }
    destruct (Ascii.eqb d "}"%char); [simpl; lia|exact I].
Qed.

(** [JSON_parse] answers [Unmodelled] only for valid JSON that denotes a
    value outside the model, never for want of fuel. *)
Lemma JSON_parse_has_fuel (text : string) :
  parse_value (2 * length (list_ascii_of_string text) + 2)
              (list_ascii_of_string text) ≠ Fuel.
Proof.
  assert (2 * length (list_ascii_of_string text) + 1
          ≤ 2 * length (list_ascii_of_string text) + 2)%nat as Hf by lia.
  pose proof (proj1 (parse_value_consumes _) (list_ascii_of_string text) Hf) as H.
  intros E. rewrite E in H. exact H.
Qed.

(** ** Loading what was saved *)

Lemma JSON_stringify_object_nonempty (m : gmap string value) (text : string) :
  JSON_stringify (VObj m) = Some text → text ≠ "".
Proof.
  unfold JSON_stringify. rewrite serialize_object. cbn [fmap option_fmap option_map].
  intros [= <-]. discriminate.
Qed.

(** [round_trip] is what [initializeStateFromStorage] computes from the text
    that [saveStateToStorage] wrote: with the text of an object state under
    the key and storage available, the state it returns is the round trip of
    that state. *)
Lemma initializeStateFromStorage_round_trip
  (d m : gmap string value) (w : World) (text : string) :
  storage_available w = true →
  JSON_stringify (VObj m) = Some text →
  stored w !! STORAGE_KEY = Some text →
  ∃ w', initializeStateFromStorage (VObj d) w = (round_trip (VObj d) (VObj m), w') ∧
        stored w' = stored (after_probe w).
Proof.
  intros Hav Etext Hk.
  assert (accessible (after_probe w) = true) as Hacc.
  { apply andb_prop in Hav as [Ha _]. exact Ha. }
  assert (stored (after_probe w) !! STORAGE_KEY = Some text) as Hk'.
  { unfold after_probe, set_stored. simpl. rewrite lookup_delete_ne by done. exact Hk. }
  unfold round_trip. rewrite Etext. change (default "undefined" (Some text)) with text.
  unfold initializeStateFromStorage.
  rewrite (bind_ok _ _ _ _ _ (isLocalStorageAvailable_yes w Hav)). cbn [negb].
  rewrite (JSON_parse_stringify _ _ Etext), toJSON_object. step.
  eexists. split.
  - apply try_catch_ok.
    rewrite (bind_ok _ _ _ _ _ (getItem_ok STORAGE_KEY _ Hacc)).
    rewrite Hk', (truthy_stored_text text (JSON_stringify_object_nonempty m text Etext)).
    rewrite (JSON_parse_stringify _ _ Etext), toJSON_object.
    unfold lift at 1. erewrite bind_ok by reflexivity.
    cbn [typeof strict_eq]. change (String.eqb "object" "object") with true.
    cbn [negb orb]. reflexivity.
  - reflexivity.
Qed.

(** ** Scenarios of the specification, evaluated *)

(** With nothing stored, [initializeStateFromStorage] returns the default
    state. *)
Example initialize_with_empty_store :
  (initializeStateFromStorage initialState (mkWorld ∅ 5000 true [] [])).1 = Ok initialState.
Proof. vm_compute. reflexivity. Qed.

(** [AddConversation] of conversation "1", then [AddMessage] to it: the
    conversation holds the message, and so does the active copy. *)
Example add_conversation_then_message :
  (s ← dispatch_all initialState
         [addConversation (conversation "1" "T" []);
          addMessage (VStr "1") (text_message "m1" "user" "hi")];
   Ok (conversations_of s, active_of s))
  = Ok ([conversation "1" "T" [text_message "m1" "user" "hi"]],
        conversation "1" "T" [text_message "m1" "user" "hi"]).
Proof. vm_compute. reflexivity. Qed.

(** Conversations "1" (active) and "2": deleting "2" leaves "1" alone in the
    collection, and active. *)
Example delete_the_other_conversation :
  (s ← appReducer two_conversations (deleteConversation (VStr "2"));
   Ok (conversations_of s, active_of s))
  = Ok ([conversation "1" "T" []], conversation "1" "T" []).
Proof. vm_compute. reflexivity. Qed.

(** A save with room left writes the text of the state, and the load that
    follows gives the state back (here [small_state], which has no catalog:
    the merge adds the two catalog fields as [undefined]). *)
Example save_then_load :
  let w1 := (saveStateToStorage small_state (mkWorld ∅ 5000 true [] [])).2 in
  stored w1 !! STORAGE_KEY = JSON_stringify small_state ∧
  (s ← (initializeStateFromStorage small_state w1).1;
   theme ← get "theme" s; x ← get "x" s; Ok (theme, x)) = Ok (VStr "dark", VNum 1).
Proof. split; vm_compute; reflexivity. Qed.

(** Why the round-trip law needs its conditions. A field set to [undefined]
    is dropped by the encoding, and the merge then takes the default state's
    value for it. *)
Example round_trip_drops_undefined_field :
  (s ← appReducer initialState (setTheme VUndefined);
   before ← get "theme" s;
   r ← round_trip initialState s;
   after ← get "theme" r;
   Ok (before, after)) = Ok (VUndefined, VStr "light").
Proof. vm_compute. reflexivity. Qed.

(** A field that the default state has and the saved state lacks comes from
    the default state. *)
Example round_trip_adds_missing_field :
  (before ← get "sidebarOpen" small_state;
   r ← round_trip initialState small_state;
   after ← get "sidebarOpen" r;
   Ok (before, after)) = Ok (VUndefined, VBool true).
Proof. vm_compute. reflexivity. Qed.

(** Texts that are not JSON, and JSON that the model does not cover. *)
Example JSON_parse_examples :
  JSON_parse "not json" = Throw SyntaxError ∧
  JSON_parse "" = Throw SyntaxError ∧
  JSON_parse "[[[[[[" = Throw SyntaxError ∧
  JSON_parse "01" = Throw SyntaxError ∧
  JSON_parse " [1, 2 , {} ] " = Ok (VArr [VNum 1; VNum 2; VObj ∅]) ∧
  JSON_parse "null" = Ok VNull ∧
  JSON_parse "[1.5]" = Unmodelled.
Proof. repeat split; vm_compute; reflexivity. Qed.

(** ** The properties at concrete inputs *)

(** C2 on the scenario of the specification: conversation "1" is added and
    is the active one; two messages are then added to it. *)
Lemma addMessage_append_only_witness :
  is_state two_conversations = true ∧ VStr "1" ≠ VUndefined ∧
  ∃ s', dispatch_all two_conversations
          (map (addMessage (VStr "1"))
               [text_message "m1" "user" "hi"; text_message "m2" "assistant" "hello"])
        = Ok s' ∧
        messages_of (active_of s') =
          [text_message "m1" "user" "hi"; text_message "m2" "assistant" "hello"].
Proof.
  assert (VStr "1" ≠ VUndefined) as Hid by discriminate.
  split; [reflexivity|]. split; [exact Hid|].
  destruct (addMessage_append_only two_conversations (VStr "1")
              [text_message "m1" "user" "hi"; text_message "m2" "assistant" "hello"]
              eq_refl Hid) as (s' & E & _ & _ & _ & Hm).
  exists s'. split; [exact E|]. exact Hm.
Defined.

(** C10 on [orphan_state]. *)
Lemma addMessage_orphan_active_witness :
  is_state orphan_state = true ∧
  active_of orphan_state ≠ VNull ∧
  has_id (VStr "1") (active_of orphan_state) = true ∧
  (∀ c, c ∈ conversations_of orphan_state → has_id (VStr "1") c = false) ∧
  ∃ s', appReducer orphan_state (addMessage (VStr "1") (text_message "m1" "user" "hi"))
        = Ok s' ∧
        conversations_of s' = [] ∧
        messages_of (active_of s') = [text_message "m1" "user" "hi"].
Proof.
  assert (active_of orphan_state ≠ VNull) as Hnn by (vm_compute; discriminate).
  assert (∀ c, c ∈ conversations_of orphan_state → has_id (VStr "1") c = false) as Hnone.
  { intros c Hc. vm_compute in Hc. inversion Hc. }
  split; [reflexivity|]. split; [exact Hnn|]. split; [reflexivity|]. split; [exact Hnone|].
  destruct (addMessage_orphan_active orphan_state (VStr "1") (text_message "m1" "user" "hi")
              eq_refl Hnn eq_refl Hnone) as (s' & E & Hc & _ & Hm).
  exists s'. split; [exact E|]. split; [exact Hc|exact Hm].
Defined.

(** C6 on [two_conversations]: the title of "2" is changed; the active
    conversation "1" is untouched. *)
Lemma updateConversation_frame_witness :
  is_state two_conversations = true ∧
  ∃ s', appReducer two_conversations
          (updateConversation (VStr "2") (VObj (<["title" := VStr "V"]> ∅))) = Ok s' ∧
        active_of s' = active_of two_conversations.
Proof.
  split; [reflexivity|].
  destruct (updateConversation_frame two_conversations (VStr "2")
              (VObj (<["title" := VStr "V"]> ∅)) eq_refl) as (s' & E & Ha & _).
  exists s'. split; [exact E|exact Ha].
Defined.

(** C5 on the scenario of the specification: conversations "1" (active) and
    "2"; deleting "2" leaves "1" active. *)
Lemma deleteConversation_idempotent_witness :
  is_state two_conversations = true ∧
  ∃ s', appReducer two_conversations (deleteConversation (VStr "2")) = Ok s' ∧
        active_of s' = conversation "1" "T" [] ∧
        appReducer s' (deleteConversation (VStr "2")) = Ok s'.
Proof.
  split; [reflexivity|].
  destruct (deleteConversation_idempotent two_conversations (VStr "2") eq_refl)
    as (s' & E & _ & _ & Ha & Hidem & _).
  exists s'. split; [exact E|]. split; [exact Ha|exact Hidem].
Defined.

(** C9 on an unknown action and on a recognised one. *)
Lemma appReducer_is_total_witness :
  ((VStr "RENAME" ∉ ActionTypes) ∧
   appReducer two_conversations (mkAction (VStr "RENAME") VNull) = Ok two_conversations) ∧
  (is_state two_conversations = true ∧
   well_formed_payload (addMessage (VStr "1") VNull) = true ∧
   ∃ s', appReducer two_conversations (addMessage (VStr "1") VNull) = Ok s' ∧
         is_state s' = true).
Proof.
  assert (VStr "RENAME" ∉ ActionTypes) as Hn.
  { unfold ActionTypes. intros H.
    repeat (apply elem_of_cons in H as [H | H]; [discriminate H|]). inversion H. }
  split.
  - split; [exact Hn|].
    exact (proj1 appReducer_is_total two_conversations (mkAction (VStr "RENAME") VNull) Hn).
  - split; [reflexivity|]. split; [reflexivity|].
    exact (proj2 appReducer_is_total two_conversations (addMessage (VStr "1") VNull)
             eq_refl eq_refl).
Defined.

(** C4 on a store whose entry is not JSON. *)
Lemma initializeStateFromStorage_recovers_witness :
  storage_available corrupted_world = true ∧
  stored corrupted_world !! STORAGE_KEY = Some "not json" ∧
  "not json" ≠ "" ∧
  unusable "not json" ∧
  ∃ w', initializeStateFromStorage initialState corrupted_world = (Ok initialState, w') ∧
        stored w' !! STORAGE_KEY = None.
Proof.
  assert ("not json" ≠ "") as Hne by discriminate.
  assert (unusable "not json") as Hbad by (left; reflexivity).
  split; [reflexivity|]. split; [reflexivity|]. split; [exact Hne|]. split; [exact Hbad|].
  destruct (proj1 (proj2 initializeStateFromStorage_recovers) initialState corrupted_world
              "not json" eq_refl eq_refl Hne Hbad) as (w' & E & Hk & _).
  exists w'. split; [exact E|exact Hk].
Defined.

(** C8 on a rejected [fetch] and on a response with status 500. *)
Lemma chat_failure_becomes_assistant_message_witness :
  trim " status? " ≠ "" ∧
  get "activeConversation" two_conversations = Ok (conversation "1" "T" []) ∧
  truthy (conversation "1" "T" []) = true ∧
  request_failure (FetchResponse 500 "") = Some (Error "Error" "HTTP error! status: 500") ∧
  ∃ w', handleSubmit two_conversations " status? " (FetchResponse 500 "")
          an_instant an_instant (mkWorld ∅ 5000 true [] []) = (Ok tt, w') ∧
        length (dispatched w') = 5%nat.
Proof.
  assert (trim " status? " ≠ "") as Hin by (vm_compute; discriminate).
  split; [exact Hin|]. split; [reflexivity|]. split; [reflexivity|].
  split; [reflexivity|].
  destruct (chat_failure_becomes_assistant_message two_conversations
              (conversation "1" "T" []) " status? " (FetchResponse 500 "")
              an_instant an_instant (Error "Error" "HTTP error! status: 500")
              (mkWorld ∅ 5000 true [] []) Hin eq_refl eq_refl eq_refl)
    as (id & w' & _ & E & Hd & _).
  exists w'. split; [exact E|]. rewrite Hd. reflexivity.
Defined.

(** C1 on a session without dates, from [initialState]. *)
Lemma round_trip_override_law_witness :
  storable initialState = true ∧
  forallb storable_action plain_session = true ∧
  forallb (fun a => negb (destructive a)) plain_session = true ∧
  dispatch_all initialState plain_session = Ok plain_session_state ∧
  round_trip initialState plain_session_state =
    Ok (VObj (with_default_catalogs (spread initialState) (spread plain_session_state))).
Proof.
  assert (dispatch_all initialState plain_session = Ok plain_session_state) as E
    by (vm_compute; reflexivity).
  split; [vm_compute; reflexivity|]. split; [vm_compute; reflexivity|].
  split; [vm_compute; reflexivity|]. split; [exact E|].
  destruct (proj2 round_trip_override_law (spread initialState) (spread initialState)
              plain_session plain_session_state) as (m & Hm & Hrt & _).
  - vm_compute. reflexivity.
  - eexists. vm_compute. reflexivity.
  - intros k Hk. exact Hk.
  - vm_compute. reflexivity.
  - vm_compute. reflexivity.
  - exact E.
  - rewrite Hm. rewrite Hm in Hrt. exact Hrt.
Defined.

(* ===================================================================== *)
(** * Further properties

    The rest of the reducer's transitions, the footprint of the persistence
    layer and the handlers of the components, each property followed by an
    instance at a concrete input. *)

(** ** The fields a transition writes *)

(** Runs the binds of a computation in the hypothesis [H] that says it
    returned, one case analysis per bind. *)
Ltac returned H :=
  repeat (cbn [mbind result_bind mret result_ret] in H;
          match type of H with
          | context [mbind _ ?r] => destruct r eqn:?; try discriminate H
          end).

Ltac other_field Hk :=
  cbn [spread];
  repeat (rewrite lookup_insert_ne;
          [|let E := fresh in
            intros E; apply Hk; rewrite <- E;
            repeat first [apply list_elem_of_here | apply list_elem_of_further]]);
  reflexivity.

(** X1. Each transition writes only its own fields. Whatever the state and
    the action, when [appReducer] returns, every field of the state outside
    the ones that the action's case assigns ([written_by]) is as it was. In
    particular no action changes [userRoles] or [quickPrompts], and an action
    of an unknown type changes nothing. *)
Theorem appReducer_writes_only (s s' : value) (a : Action) (k : string) :
  appReducer s a = Ok s' → k ∉ written_by a → spread s' !! k = spread s !! k.
Proof.
  unfold appReducer, written_by, array_map, array_filter.
  destruct (strict_eq (type a) SET_USER).
  { intros [= <-] Hk. other_field Hk. }
  destruct (strict_eq (type a) LOGOUT_USER).
  { intros [= <-] Hk. other_field Hk. }
  destruct (strict_eq (type a) SET_THEME).
  { intros [= <-] Hk. other_field Hk. }
  destruct (strict_eq (type a) TOGGLE_SIDEBAR).
  { intros H Hk. returned H. injection H as <-. other_field Hk. }
  destruct (strict_eq (type a) ADD_CONVERSATION).
  { intros H Hk. returned H. injection H as <-. other_field Hk. }
  destruct (strict_eq (type a) SET_ACTIVE_CONVERSATION).
  { intros [= <-] Hk. other_field Hk. }
  destruct (strict_eq (type a) ADD_MESSAGE).
  { intros H Hk. returned H. injection H as <-. other_field Hk. }
  destruct (strict_eq (type a) SET_TYPING).
  { intros [= <-] Hk. other_field Hk. }
  destruct (strict_eq (type a) DELETE_CONVERSATION).
  { intros H Hk. returned H. injection H as <-. other_field Hk. }
  destruct (strict_eq (type a) UPDATE_CONVERSATION).
  { intros H Hk. returned H. injection H as <-. other_field Hk. }
  destruct (strict_eq (type a) CLEAR_ALL_CONVERSATIONS).
  { intros [= <-] Hk. other_field Hk. }
  intros [= <-] _. reflexivity.
Qed.

(** X1 on [initialState]: adding a conversation leaves [userRoles] alone. *)
Lemma appReducer_writes_only_witness :
  ∃ s', appReducer initialState (addConversation (conversation "1" "T" [])) = Ok s' ∧
        ("userRoles" ∉ written_by (addConversation (conversation "1" "T" []))) ∧
        spread s' !! "userRoles" = Some userRoles.
Proof.
  assert ("userRoles" ∉ written_by (addConversation (conversation "1" "T" []))) as Hk.
  { intros H. vm_compute in H.
    repeat (apply elem_of_cons in H as [H | H]; [discriminate H|]). inversion H. }
  eexists. split; [reflexivity|]. split; [exact Hk|].
  rewrite (appReducer_writes_only initialState _ (addConversation (conversation "1" "T" []))
             "userRoles" eq_refl Hk).
  reflexivity.
Defined.

(** ** Logging out *)

Lemma logoutUser_step (s : value) :
  ∃ s', appReducer s logoutUser = Ok s' ∧ is_state s' = true ∧
        conversations_of s' = [] ∧ active_of s' = VNull ∧
        get "currentUser" s' = Ok VNull ∧
        AppContent s' = Ok LoginPage.
Proof.
  eexists. split; [reflexivity|].
  unfold is_state, conversations_of, active_of, AppContent, get.
  rewrite !lookup_insert_eq, !lookup_insert_ne by done.
  rewrite !lookup_insert_eq, !lookup_insert_ne by done.
  rewrite !lookup_insert_eq. repeat split; reflexivity.
Qed.

(** ** The sidebar switch *)

Lemma appReducer_TOGGLE_SIDEBAR (m : gmap string value) :
  appReducer (VObj m) toggleSidebar =
  Ok (VObj (<["sidebarOpen" := VBool (negb (truthy (default VUndefined (m !! "sidebarOpen"))))]> m)).
Proof. reflexivity. Qed.

(** X2. [TOGGLE_SIDEBAR] twice. On a state whose [sidebarOpen] is a boolean
    two toggles give the state back. On any state on which a toggle returns,
    [sidebarOpen] is a boolean afterwards, so that from then on two toggles
    change nothing. *)
Theorem toggleSidebar_twice :
  (∀ (m : gmap string value) (b : bool),
     m !! "sidebarOpen" = Some (VBool b) →
     dispatch_all (VObj m) [toggleSidebar; toggleSidebar] = Ok (VObj m)) ∧
  (∀ s s1 : value,
     appReducer s toggleSidebar = Ok s1 →
     ∃ b, get "sidebarOpen" s1 = Ok (VBool b) ∧
          dispatch_all s1 [toggleSidebar; toggleSidebar] = Ok s1).
Proof.
  assert (∀ (m : gmap string value) (b : bool),
            m !! "sidebarOpen" = Some (VBool b) →
            dispatch_all (VObj m) [toggleSidebar; toggleSidebar] = Ok (VObj m)) as Htwice.
  { intros m b Hb. cbn [dispatch_all]. rewrite appReducer_TOGGLE_SIDEBAR. step.
    rewrite appReducer_TOGGLE_SIDEBAR. step.
    rewrite lookup_insert_eq, Hb. cbn [default from_option id truthy].
    rewrite negb_involutive, insert_insert_eq, insert_id by exact Hb. reflexivity. }
  split; [exact Htwice|].
  intros s s1 E. unfold appReducer in E. cbn in E.
  destruct (get "sidebarOpen" s) as [v| |]; try discriminate E.
  cbn in E. injection E as <-.
  exists (negb (truthy v)). split.
  - unfold get. rewrite lookup_insert_eq. reflexivity.
  - apply (Htwice _ (negb (truthy v))), lookup_insert_eq.
Qed.

(** ** New conversations and late messages *)

Lemma appReducer_ADD_CONVERSATION (s c : value) :
  is_state s = true →
  appReducer s (addConversation c) =
  Ok (VObj (<["activeConversation" := c]>
           (<["conversations" := VArr (c :: conversations_of s)]> (spread s)))).
Proof.
  intros Hs. destruct (is_state_inv s Hs) as (m & cs & a & -> & Ecs & Hcs & Ea & Ha).
  unfold appReducer, conversations_of. cbn. rewrite Ecs. reflexivity.
Qed.

Lemma addConversation_step (s c : value) :
  is_state s = true → is_conversation c = true →
  ∃ s', appReducer s (addConversation c) = Ok s' ∧ is_state s' = true ∧
        conversations_of s' = c :: conversations_of s ∧
        active_of s' = c.
Proof.
  intros Hs Hc. rewrite (appReducer_ADD_CONVERSATION s c Hs).
  destruct (is_state_inv s Hs) as (m & cs & a & -> & Ecs & Hcs & Ea & Ha).
  eexists. split; [reflexivity|]. cbn [spread].
  rewrite conversations_of_set, active_of_set. split; [|auto].
  apply is_state_conversations; [|auto].
  unfold conversations_of. rewrite Ecs. cbn [forallb]. rewrite Hc, Hcs. reflexivity.
Qed.

(** X3. Creating a conversation and deleting it again. On a state of the
    data model, when the id of the new conversation is a primitive value that
    no entry of the collection carries, [ADD_CONVERSATION] followed by [DELETE_CONVERSATION] of that id
    leaves the collection and every field but [activeConversation] as they
    were; no conversation is active afterwards (the one that was active
    before is not restored). *)
Theorem addConversation_then_delete (s c : value) :
  is_state s = true → is_conversation c = true →
  has_id (id_of c) c = true →
  (∀ c', c' ∈ conversations_of s → has_id (id_of c) c' = false) →
  ∃ s', dispatch_all s [addConversation c; deleteConversation (id_of c)] = Ok s' ∧
        conversations_of s' = conversations_of s ∧
        active_of s' = VNull ∧
        ∀ k, k ≠ "activeConversation" → spread s' !! k = spread s !! k.
Proof.
  intros Hs Hc Hid Hfresh.
  destruct (addConversation_step s c Hs Hc) as (s1 & E1 & Hs1 & C1 & A1).
  cbn [dispatch_all]. rewrite E1. step.
  rewrite (appReducer_DELETE_CONVERSATION s1 (deleteConversation (id_of c)) eq_refl Hs1).
  step. cbn [payload deleteConversation]. rewrite C1, A1, Hid.
  cbn [List.filter]. rewrite Hid. cbn [negb].
  rewrite (filter_keeps_all _ (conversations_of s))
    by (intros x Hx; rewrite (Hfresh x Hx); reflexivity).
  eexists. split; [reflexivity|].
  rewrite conversations_of_set, active_of_set. split; [reflexivity|]. split; [reflexivity|].
  intros k Hk. cbn [spread]. rewrite lookup_insert_ne by congruence.
  rewrite (appReducer_ADD_CONVERSATION s c Hs) in E1. injection E1 as <-. cbn [spread].
  destruct (decide (k = "conversations")) as [->|Hk'].
  - rewrite lookup_insert_eq.
    destruct (is_state_inv s Hs) as (m & cs & a & -> & Ecs & _).
    unfold conversations_of. rewrite Ecs. cbn [spread]. rewrite Ecs. reflexivity.
  - rewrite !lookup_insert_ne by congruence. reflexivity.
Qed.

Lemma addMessage_unknown_id (s id msg : value) :
  is_state s = true →
  (∀ c, c ∈ conversations_of s → has_id id c = false) →
  has_id id (active_of s) = false →
  appReducer s (addMessage id msg) = Ok s.
Proof.
  intros Hs Hnone Hna.
  rewrite (appReducer_ADD_MESSAGE s _ id msg);
    auto using payload_addMessage_id, payload_addMessage_message.
  - unfold push_message at 1. rewrite Hna.
    rewrite (map_unchanged (push_message id msg) (conversations_of s))
      by (intros x Hx; unfold push_message; rewrite (Hnone x Hx); reflexivity).
    destruct (is_state_inv s Hs) as (m & cs & a & -> & Ecs & Hcs & Ea & Ha).
    unfold conversations_of, active_of. rewrite Ecs, Ea. cbn [spread from_option]. unfold Datatypes.id.
    f_equal. f_equal. apply set_conversations_id; assumption.
  - intros Hnull -> . rewrite Hnull in Hna. discriminate Hna.
Qed.

(** X4. A message without addressee is dropped. On a state of the data
    model, [ADD_MESSAGE] returns the state unchanged when neither an entry of
    the collection nor the active conversation carries the id; so a message
    that arrives after its conversation was deleted changes nothing: for a
    defined id, deleting and then adding the message gives the state that
    deleting alone gives. *)
Theorem addMessage_without_addressee :
  (∀ s id msg : value,
     is_state s = true →
     (∀ c, c ∈ conversations_of s → has_id id c = false) →
     has_id id (active_of s) = false →
     appReducer s (addMessage id msg) = Ok s) ∧
  (∀ s id msg : value,
     is_state s = true → id ≠ VUndefined →
     ∃ s', appReducer s (deleteConversation id) = Ok s' ∧
           dispatch_all s [deleteConversation id; addMessage id msg] = Ok s').
Proof.
  split; [exact addMessage_unknown_id|].
  intros s id msg Hs Hid.
  pose proof (appReducer_DELETE_CONVERSATION s (deleteConversation id) eq_refl Hs) as E.
  cbn [payload deleteConversation] in E.
  destruct (is_state_inv s Hs) as (m & cs & a & -> & Ecs & Hcs & Ea & Ha).
  eexists. split; [exact E|].
  cbn [dispatch_all]. rewrite E. step.
  rewrite addMessage_unknown_id; [reflexivity| | |].
  - apply is_state_conversations.
    + apply forallb_filter_pres. unfold conversations_of. rewrite Ecs. exact Hcs.
    + unfold active_of. rewrite Ea. cbn [from_option]. unfold Datatypes.id.
      destruct (has_id id a); auto.
  - intros c. rewrite conversations_of_set, list_elem_of_In, filter_In.
    intros [_ Hk]. apply negb_true_iff in Hk. exact Hk.
  - rewrite active_of_set. destruct (has_id id (active_of (VObj m))) eqn:Eh; [|exact Eh].
    apply has_id_null, Hid.
Qed.

(** X2 on [initialState]. *)
Lemma toggleSidebar_twice_witness :
  spread initialState !! "sidebarOpen" = Some (VBool true) ∧
  dispatch_all initialState [toggleSidebar; toggleSidebar] = Ok initialState.
Proof.
  split; [reflexivity|].
  exact (proj1 toggleSidebar_twice (spread initialState) true eq_refl).
Defined.

(** X3 on [two_conversations] and a conversation "3". *)
Lemma addConversation_then_delete_witness :
  is_state two_conversations = true ∧
  is_conversation (conversation "3" "V" []) = true ∧
  has_id (id_of (conversation "3" "V" [])) (conversation "3" "V" []) = true ∧
  (∀ c', c' ∈ conversations_of two_conversations →
         has_id (id_of (conversation "3" "V" [])) c' = false) ∧
  ∃ s', dispatch_all two_conversations
          [addConversation (conversation "3" "V" []);
           deleteConversation (id_of (conversation "3" "V" []))] = Ok s' ∧
        conversations_of s' = conversations_of two_conversations ∧
        active_of s' = VNull.
Proof.
  assert (∀ c', c' ∈ conversations_of two_conversations →
                has_id (id_of (conversation "3" "V" [])) c' = false) as Hfresh.
  { intros c' Hc'. vm_compute in Hc'.
    repeat (apply elem_of_cons in Hc' as [-> | Hc']; [reflexivity|]). inversion Hc'. }
  split; [reflexivity|]. split; [reflexivity|]. split; [reflexivity|].
  split; [exact Hfresh|].
  destruct (addConversation_then_delete two_conversations (conversation "3" "V" [])
              eq_refl eq_refl eq_refl Hfresh) as (s' & E & Hc & Ha & _).
  exists s'. split; [exact E|]. split; [exact Hc|exact Ha].
Defined.

(** X4 on [two_conversations]: "2" is deleted, then a message for "2" arrives. *)
Lemma addMessage_without_addressee_witness :
  is_state two_conversations = true ∧ VStr "2" ≠ VUndefined ∧
  ∃ s', appReducer two_conversations (deleteConversation (VStr "2")) = Ok s' ∧
        dispatch_all two_conversations
          [deleteConversation (VStr "2");
           addMessage (VStr "2") (text_message "m1" "assistant" "late")] = Ok s'.
Proof.
  assert (VStr "2" ≠ VUndefined) as Hid by discriminate.
  split; [reflexivity|]. split; [exact Hid|].
  exact (proj2 addMessage_without_addressee two_conversations (VStr "2")
           (text_message "m1" "assistant" "late") eq_refl Hid).
Defined.

(** ** What the persistence layer touches *)

Lemma touches_only_ret {A : Type} (keys : list string) (a : A) :
  touches_only keys (mret a : Eff A).
Proof. intros w. repeat split. Qed.

Lemma touches_only_lift {A : Type} (keys : list string) (r : result A) :
  touches_only keys (lift r).
Proof. intros w. repeat split. Qed.

Lemma touches_only_throw {A : Type} (keys : list string) (e : error) :
  touches_only keys (throw e : Eff A).
Proof. intros w. repeat split. Qed.

Lemma touches_only_console_log (keys : list string) (method text : string) (e : option error) :
  touches_only keys (console_log method text e).
Proof. intros w. repeat split. Qed.

Lemma touches_only_bind {A B : Type} (keys : list string) (m : Eff A) (f : A → Eff B) :
  touches_only keys m → (∀ a, touches_only keys (f a)) → touches_only keys (m ≫= f).
Proof.
  intros Hm Hf w. destruct (Hm w) as (D & Q & Acc & S).
  unfold mbind, eff_bind. destruct (m w) as [[a|e|] w1]; cbn [snd] in *.
  - destruct (Hf a w1) as (D1 & Q1 & Acc1 & S1).
    repeat split; try congruence. intros k Hk. rewrite (S1 k Hk). apply S, Hk.
  - repeat split; assumption.
  - repeat split; assumption.
Qed.

Lemma touches_only_try_catch {A : Type} (keys : list string) (body : Eff A)
  (handler : error → Eff A) :
  touches_only keys body → (∀ e, touches_only keys (handler e)) →
  touches_only keys (try_catch body handler).
Proof.
  intros Hm Hf w. destruct (Hm w) as (D & Q & Acc & S).
  unfold try_catch. destruct (body w) as [[a|e|] w1]; cbn [snd] in *.
  - repeat split; assumption.
  - destruct (Hf e w1) as (D1 & Q1 & Acc1 & S1).
    repeat split; try congruence. intros k Hk. rewrite (S1 k Hk). apply S, Hk.
  - repeat split; assumption.
Qed.

Lemma touches_only_getItem (keys : list string) (k : string) :
  touches_only keys (getItem k).
Proof. intros w. unfold getItem. destruct (negb (accessible w)); repeat split. Qed.

Lemma touches_only_setItem (keys : list string) (k v : string) :
  k ∈ keys → touches_only keys (setItem k v).
Proof.
  intros Hin w. unfold setItem. destruct (negb (accessible w)); [repeat split|].
  cbv zeta. destruct (usage (<[k:=v]> (stored w)) <=? quota w)%nat; [|repeat split].
  repeat split. intros k' Hk'. cbn. apply lookup_insert_ne. congruence.
Qed.

Lemma touches_only_removeItem (keys : list string) (k : string) :
  k ∈ keys → touches_only keys (removeItem k).
Proof.
  intros Hin w. unfold removeItem. destruct (negb (accessible w)); [repeat split|].
  repeat split. intros k' Hk'. cbn. apply lookup_delete_ne. congruence.
Qed.

Ltac footprint :=
  repeat first
    [ apply touches_only_ret | apply touches_only_lift | apply touches_only_throw
    | apply touches_only_console_log | apply touches_only_getItem
    | apply touches_only_setItem;
      repeat first [apply list_elem_of_here | apply list_elem_of_further]
    | apply touches_only_removeItem;
      repeat first [apply list_elem_of_here | apply list_elem_of_further]
    | apply touches_only_try_catch; [|intros ?]
    | apply touches_only_bind; [|intros ?]
    | match goal with |- touches_only _ (if ?b then _ else _) => destruct b end
    | match goal with |- touches_only _ (match ?b with _ => _ end) => destruct b end ].

(** X5. The footprint of the persistence layer. However they end,
    [isLocalStorageAvailable] writes and removes no entry of the storage but
    its test key, [saveStateToStorage] none but the state's key, the test key
    and the legacy theme key, [initializeStateFromStorage] none but the
    state's key and the test key, and [clearPersistedData] none but the
    state's key. None of them dispatches an action. *)
Theorem persistence_touches_own_keys :
  touches_only ["__localStorage_test__"] isLocalStorageAvailable ∧
  (∀ state, touches_only [STORAGE_KEY; "__localStorage_test__"; "ireno-theme"]
              (saveStateToStorage state)) ∧
  (∀ defaultState, touches_only [STORAGE_KEY; "__localStorage_test__"]
                     (initializeStateFromStorage defaultState)) ∧
  touches_only [STORAGE_KEY] clearPersistedData.
Proof.
  split; [|split; [|split]].
  - unfold isLocalStorageAvailable. footprint.
  - intros state. unfold saveStateToStorage, isLocalStorageAvailable, unbound_identifier.
    footprint.
  - intros d. unfold initializeStateFromStorage, isLocalStorageAvailable. footprint.
  - unfold clearPersistedData. footprint.
Qed.

(** X5 on a storage that holds an entry of another application. *)
Lemma persistence_touches_own_keys_witness :
  ("draft" ∉ [STORAGE_KEY; "__localStorage_test__"; "ireno-theme"]) ∧
  stored (saveStateToStorage small_state
            (mkWorld (<["draft" := "x"]> ∅) 5000 true [] [])).2 !! "draft" = Some "x".
Proof.
  assert ("draft" ∉ [STORAGE_KEY; "__localStorage_test__"; "ireno-theme"]) as Hk.
  { intros H. repeat (apply elem_of_cons in H as [H | H]; [discriminate H|]). inversion H. }
  split; [exact Hk|].
  destruct (proj1 (proj2 persistence_touches_own_keys) small_state
              (mkWorld (<["draft" := "x"]> ∅) 5000 true [] [])) as (_ & _ & _ & S).
  rewrite (S "draft" Hk). reflexivity.
Defined.

(** ** The probe *)

(** X6. The probe. [isLocalStorageAvailable] never throws and answers [true]
    exactly when the storage is accessible and has room for the test entry.
    After a successful probe the storage is what it was without the test key
    (an entry that was stored under that key is gone); a failed probe changes
    nothing. Nothing is logged. *)
Theorem isLocalStorageAvailable_probe (w : World) :
  ∃ w', isLocalStorageAvailable w = (Ok (storage_available w), w') ∧
        console w' = console w ∧
        (storage_available w = true →
         stored w' = delete "__localStorage_test__" (stored w)) ∧
        (storage_available w = false → w' = w).
Proof.
  destruct (storage_available w) eqn:Hav.
  - exists (after_probe w). split; [apply isLocalStorageAvailable_yes, Hav|].
    repeat split. discriminate.
  - exists w. split; [apply isLocalStorageAvailable_no, Hav|].
    repeat split. discriminate.
Qed.

(** ** Storage that cannot be used *)

(** X7. Storage that cannot be used. When the probe fails (the storage is
    denied, or too full for the test entry), [saveStateToStorage] writes
    nothing and [initializeStateFromStorage] returns the default state; each
    logs one warning and leaves the storage as it was: an entry under the
    state's key is neither read nor removed. *)
Theorem unavailable_storage_is_left_alone (state defaultState : value) (w : World) :
  storage_available w = false →
  saveStateToStorage state w =
    (Ok tt, mkWorld (stored w) (quota w) (accessible w)
              (console w ++ [("warn", "localStorage is not available", None)])
              (dispatched w)) ∧
  initializeStateFromStorage defaultState w =
    (Ok defaultState,
     mkWorld (stored w) (quota w) (accessible w)
       (console w ++ [("warn", "localStorage is not available, using default state", None)])
       (dispatched w)).
Proof.
  intros Hav. split.
  - unfold saveStateToStorage.
    rewrite (bind_ok _ _ _ _ _ (isLocalStorageAvailable_no w Hav)). reflexivity.
  - unfold initializeStateFromStorage.
    rewrite (bind_ok _ _ _ _ _ (isLocalStorageAvailable_no w Hav)). reflexivity.
Qed.

(** X7 on a storage that is denied. *)
Lemma unavailable_storage_is_left_alone_witness :
  storage_available (mkWorld (<[STORAGE_KEY := "{}"]> ∅) 5000 false [] []) = false ∧
  (saveStateToStorage small_state (mkWorld (<[STORAGE_KEY := "{}"]> ∅) 5000 false [] [])).1
    = Ok tt ∧
  (initializeStateFromStorage initialState
     (mkWorld (<[STORAGE_KEY := "{}"]> ∅) 5000 false [] [])).1 = Ok initialState.
Proof.
  split; [reflexivity|].
  destruct (unavailable_storage_is_left_alone small_state initialState
              (mkWorld (<[STORAGE_KEY := "{}"]> ∅) 5000 false [] []) eq_refl) as [E1 E2].
  rewrite E1, E2. split; reflexivity.
Defined.

(** ** Saving, then loading *)

Lemma has_room_save (state : value) (w : World) :
  has_room state w = true → saveStateToStorage state w = (Ok tt, after_save state w).
Proof.
  intros [Hav Hq]%andb_prop. apply saveStateToStorage_writes; assumption.
Qed.

Lemma JSON_parse_text_nonempty (text : string) (v : value) :
  JSON_parse text = Ok v → text ≠ "".
Proof. intros H ->. discriminate H. Qed.

Lemma initializeStateFromStorage_usable
  (d : gmap string value) (w : World) (text : string) (v : value) :
  storage_available w = true →
  stored w !! STORAGE_KEY = Some text →
  JSON_parse text = Ok v → typeof v = "object" → v ≠ VNull →
  initializeStateFromStorage (VObj d) w =
  (Ok (VObj (with_default_catalogs d (spread v ∪ d))),
   mkWorld (stored (after_probe w)) (quota w) (accessible w)
     (console w ++ [("info", "State successfully loaded from localStorage", None)])
     (dispatched w)).
Proof.
  intros Hav Hk Hparse Hty Hnn.
  assert (accessible (after_probe w) = true) as Hacc.
  { apply andb_prop in Hav as [Ha _]. exact Ha. }
  assert (stored (after_probe w) !! STORAGE_KEY = Some text) as Hk'.
  { unfold after_probe, set_stored. simpl. rewrite lookup_delete_ne by done. exact Hk. }
  unfold initializeStateFromStorage.
  rewrite (bind_ok _ _ _ _ _ (isLocalStorageAvailable_yes w Hav)). cbn [negb].
  apply try_catch_ok.
  rewrite (bind_ok _ _ _ _ _ (getItem_ok STORAGE_KEY _ Hacc)).
  rewrite Hk', (truthy_stored_text text (JSON_parse_text_nonempty text v Hparse)).
  rewrite Hparse. unfold lift at 1. erewrite bind_ok by reflexivity.
  rewrite Hty. change (String.eqb "object" "object") with true. cbn [negb orb].
  assert (strict_eq v VNull = false) as ->.
  { destruct v; try reflexivity. congruence. }
  reflexivity.
Qed.

(** X8. What [initializeStateFromStorage] accepts. With a usable storage,
    whenever the stored text is JSON for a value whose [typeof] is "object" and that is not [null], the
    state returned has that value's properties over those of the default
    state, with the default [userRoles] and [quickPrompts], and the entry
    stays in the storage. A JSON array passes this check: its first element
    becomes the field "0" of the state. *)
Theorem initializeStateFromStorage_hydrates
  (d : gmap string value) (w : World) (text : string) (v : value) :
  storage_available w = true →
  stored w !! STORAGE_KEY = Some text →
  JSON_parse text = Ok v → typeof v = "object" → v ≠ VNull →
  ∃ w', initializeStateFromStorage (VObj d) w =
          (Ok (VObj (with_default_catalogs d (spread v ∪ d))), w') ∧
        stored w' !! STORAGE_KEY = Some text ∧
        (∀ x xs, v = VArr (x :: xs) →
                 with_default_catalogs d (spread v ∪ d) !! "0" = Some x).
Proof.
  intros Hav Hk Hparse Hty Hnn.
  rewrite (initializeStateFromStorage_usable d w text v Hav Hk Hparse Hty Hnn).
  eexists. split; [reflexivity|]. split.
  - cbn [stored]. unfold after_probe, set_stored. cbn [stored].
    rewrite lookup_delete_ne by done. exact Hk.
  - intros x xs ->. unfold with_default_catalogs.
    rewrite !lookup_insert_ne by done. rewrite lookup_union. cbn [spread index_props].
    change (N_to_string 0) with "0". rewrite lookup_insert_eq.
    destruct (d !! "0"); reflexivity.
Qed.

(** X8 on a stored JSON array. *)
Lemma initializeStateFromStorage_hydrates_witness :
  storage_available (mkWorld (<[STORAGE_KEY := "[7]"]> ∅) 5000 true [] []) = true ∧
  JSON_parse "[7]" = Ok (VArr [VNum 7]) ∧
  ∃ w', initializeStateFromStorage initialState
          (mkWorld (<[STORAGE_KEY := "[7]"]> ∅) 5000 true [] []) =
        (Ok (VObj (with_default_catalogs (spread initialState)
                     (spread (VArr [VNum 7]) ∪ spread initialState))), w') ∧
        stored w' !! STORAGE_KEY = Some "[7]".
Proof.
  assert (VArr [VNum 7] ≠ VNull) as Hnn by discriminate.
  assert (storage_available (mkWorld (<[STORAGE_KEY := "[7]"]> ∅) 5000 true [] []) = true)
    as Hav by (vm_compute; reflexivity).
  assert (JSON_parse "[7]" = Ok (VArr [VNum 7])) as Hp by (vm_compute; reflexivity).
  split; [exact Hav|]. split; [exact Hp|].
  destruct (initializeStateFromStorage_hydrates (spread initialState)
              (mkWorld (<[STORAGE_KEY := "[7]"]> ∅) 5000 true [] []) "[7]" (VArr [VNum 7])
              Hav eq_refl Hp eq_refl Hnn) as (w' & E & Hk & _).
  exists w'. split; [exact E|exact Hk].
Defined.

(** X9. Saving, then loading. When the storage has room for the state's text
    and, beside it, for the probe's entry, [saveStateToStorage] stores the
    text under the key, and [initializeStateFromStorage] then returns the
    merge of the default state with [toJSON] of the saved state (the saved
    state as JSON renders it: its dates as strings, its [undefined] fields
    dropped); the entry stays. For a state that JSON renders unchanged and
    that has every field of the default state, what is loaded is the saved
    state with the default [userRoles] and [quickPrompts]. *)
Theorem saving_then_loading (d m : gmap string value) (w : World) :
  has_room (VObj m) w = true →
  storage_available (after_save (VObj m) w) = true →
  ∃ w', saveStateToStorage (VObj m) w = (Ok tt, after_save (VObj m) w) ∧
        initializeStateFromStorage (VObj d) (after_save (VObj m) w) =
          (hydratedState (VObj d) (toJSON (VObj m)), w') ∧
        stored w' !! STORAGE_KEY = JSON_stringify (VObj m) ∧
        (toJSON (VObj m) = VObj m → (∀ k, is_Some (d !! k) → is_Some (m !! k)) →
         hydratedState (VObj d) (toJSON (VObj m)) = Ok (VObj (with_default_catalogs d m))).
Proof.
  intros Hroom Hav.
  destruct (JSON_stringify (VObj m)) as [text|] eqn:Etext;
    [|unfold JSON_stringify in Etext; rewrite serialize_object in Etext; discriminate].
  assert (stored (after_save (VObj m) w) !! STORAGE_KEY = Some text) as Hk.
  { unfold after_save, set_stored. cbn [stored]. rewrite Etext. apply lookup_insert_eq. }
  destruct (initializeStateFromStorage_round_trip d m _ text Hav Etext Hk) as (w' & E & Hst).
  exists w'. split; [apply has_room_save, Hroom|]. split; [|split].
  - rewrite E. unfold round_trip. rewrite Etext.
    change (default "undefined" (Some text)) with text.
    rewrite (JSON_parse_stringify _ _ Etext). reflexivity.
  - rewrite Hst. unfold after_probe, set_stored. cbn [stored].
    rewrite lookup_delete_ne by done. exact Hk.
  - intros Hs Hd. rewrite Hs.
    unfold hydratedState. cbn [get spread]. step.
    rewrite (union_covered m d Hd). reflexivity.
Qed.

(** X9 on the state a session without dates leaves, saved to an empty
    storage and loaded with [initialState] as the default: it comes back as
    it was saved. *)
Lemma saving_then_loading_witness :
  has_room plain_session_state (mkWorld ∅ 5000 true [] []) = true ∧
  storage_available (after_save plain_session_state (mkWorld ∅ 5000 true [] [])) = true ∧
  toJSON plain_session_state = plain_session_state ∧
  ∃ w', saveStateToStorage plain_session_state (mkWorld ∅ 5000 true [] []) =
          (Ok tt, after_save plain_session_state (mkWorld ∅ 5000 true [] [])) ∧
        initializeStateFromStorage initialState
          (after_save plain_session_state (mkWorld ∅ 5000 true [] [])) =
        (Ok (VObj (with_default_catalogs (spread initialState)
                     (spread plain_session_state))), w') ∧
        stored w' !! STORAGE_KEY = JSON_stringify plain_session_state.
Proof.
  assert (has_room plain_session_state (mkWorld ∅ 5000 true [] []) = true) as Hroom
    by (vm_compute; reflexivity).
  assert (storage_available (after_save plain_session_state (mkWorld ∅ 5000 true [] []))
          = true) as Hav by (vm_compute; reflexivity).
  assert (toJSON plain_session_state = plain_session_state) as Hj
    by (vm_compute; reflexivity).
  split; [exact Hroom|]. split; [exact Hav|]. split; [exact Hj|].
  destruct (saving_then_loading (spread initialState) (spread plain_session_state)
              (mkWorld ∅ 5000 true [] []) Hroom Hav) as (w' & Es & E & Hk & Hrt).
  exists w'. split; [exact Es|]. split; [|exact Hk].
  assert (dom (spread initialState) ⊆ dom (spread plain_session_state)) as Hdom
    by (apply (bool_decide_eq_true_1 _); vm_compute; reflexivity).
  rewrite (Hrt Hj) in E; [exact E|].
  intros k Hkd. apply elem_of_dom, Hdom, elem_of_dom, Hkd.
Defined.

(** ** What is stored after a logout *)

Lemma logoutUser_stored (s s' : value) (w : World) :
  appReducer s logoutUser = Ok s' →
  has_room s' w = true →
  ∃ (text : string) (m : gmap string value),
    saveStateToStorage s' w = (Ok tt, after_save s' w) ∧
    stored (after_save s' w) !! STORAGE_KEY = Some text ∧
    JSON_parse text = Ok (VObj m) ∧
    m !! "currentUser" = Some VNull ∧
    m !! "conversations" = Some (VArr []) ∧
    m !! "activeConversation" = Some VNull.
Proof.
  intros E Hroom. injection E as <-.
  set (m' := <["activeConversation" := VNull]>
             (<["conversations" := VArr []]> (<["currentUser" := VNull]> (spread s)))).
  destruct (JSON_stringify (VObj m')) as [text|] eqn:Etext;
    [|unfold JSON_stringify in Etext; rewrite serialize_object in Etext; discriminate].
  exists text, (omap field_toJSON m').
  split; [apply has_room_save, Hroom|]. split; [|split].
  - unfold after_save, set_stored. cbn [stored]. fold m'. rewrite Etext.
    apply lookup_insert_eq.
  - rewrite (JSON_parse_stringify _ _ Etext), toJSON_object. reflexivity.
  - rewrite !lookup_omap. unfold m'.
    rewrite !lookup_insert_eq, !lookup_insert_ne by done.
    rewrite !lookup_insert_eq, !lookup_insert_ne by done.
    rewrite !lookup_insert_eq. repeat split.
Qed.

(** X10. Logging out ends the session, in memory and in the storage. From
    any state [LOGOUT_USER] returns; afterwards there is no user, no
    conversation and no active conversation, the state satisfies the data
    model, and [AppContent] renders the login page. When this state is saved
    and there is room, the stored text is JSON for an object whose
    [currentUser] is [null], whose [conversations] is empty and whose
    [activeConversation] is [null]. *)
Theorem logoutUser_ends_session (s : value) :
  ∃ s', appReducer s logoutUser = Ok s' ∧
        is_state s' = true ∧
        conversations_of s' = [] ∧
        active_of s' = VNull ∧
        get "currentUser" s' = Ok VNull ∧
        AppContent s' = Ok LoginPage ∧
        ∀ w : World,
          has_room s' w = true →
          ∃ (text : string) (m : gmap string value),
            saveStateToStorage s' w = (Ok tt, after_save s' w) ∧
            stored (after_save s' w) !! STORAGE_KEY = Some text ∧
            JSON_parse text = Ok (VObj m) ∧
            m !! "currentUser" = Some VNull ∧
            m !! "conversations" = Some (VArr []) ∧
            m !! "activeConversation" = Some VNull.
Proof.
  destruct (logoutUser_step s) as (s' & E & Hs & Hc & Ha & Hu & Hv).
  exists s'. repeat (split; [assumption|]).
  intros w Hroom. apply (logoutUser_stored s s' w E Hroom).
Qed.

(** X10 on [two_conversations] and an empty storage. *)
Lemma logoutUser_ends_session_witness :
  ∃ s', appReducer two_conversations logoutUser = Ok s' ∧
        AppContent s' = Ok LoginPage ∧
        has_room s' (mkWorld ∅ 5000 true [] []) = true ∧
        ∃ text m, stored (after_save s' (mkWorld ∅ 5000 true [] [])) !! STORAGE_KEY
                    = Some text ∧
                  JSON_parse text = Ok (VObj m) ∧
                  m !! "conversations" = Some (VArr []).
Proof.
  destruct (logoutUser_ends_session two_conversations)
    as (s' & E & _ & _ & _ & _ & Hv & Hsave).
  exists s'. split; [exact E|]. split; [exact Hv|].
  assert (has_room s' (mkWorld ∅ 5000 true [] []) = true) as Hroom.
  { injection E as <-. vm_compute. reflexivity. }
  split; [exact Hroom|].
  destruct (Hsave _ Hroom) as (text & m & _ & Hk & Hp & _ & Hc & _).
  exists text, m. split; [exact Hk|]. split; [exact Hp|exact Hc].
Defined.

(** ** Clearing the persisted data *)

Lemma usage_delete (k : string) (data : gmap string string) :
  (usage (delete k data) ≤ usage data)%nat.
Proof.
  unfold usage. destruct (data !! k) as [v|] eqn:E.
  - rewrite (map_fold_delete_L _ _ k v data); [lia| |exact E]. intros; lia.
  - rewrite delete_id by exact E. lia.
Qed.

Lemma storage_available_delete (k : string) (w : World) (log : list (string * string * option error)) :
  k ≠ "__localStorage_test__" →
  storage_available w = true →
  storage_available
    (mkWorld (delete k (stored w)) (quota w) (accessible w) log (dispatched w)) = true.
Proof.
  intros Hk [Ha Hq]%andb_prop. unfold storage_available. cbn [stored quota accessible].
  rewrite Ha. cbn [andb]. apply Nat.leb_le in Hq. apply Nat.leb_le.
  rewrite <- delete_insert_ne by congruence.
  etransitivity; [apply usage_delete|exact Hq].
Qed.

Lemma initializeStateFromStorage_absent (defaultState : value) (w : World) :
  storage_available w = true →
  stored w !! STORAGE_KEY = None →
  initializeStateFromStorage defaultState w = (Ok defaultState, after_probe w).
Proof.
  intros Hav Hk.
  assert (accessible (after_probe w) = true) as Hacc.
  { apply andb_prop in Hav as [Ha _]. exact Ha. }
  unfold initializeStateFromStorage.
  rewrite (bind_ok _ _ _ _ _ (isLocalStorageAvailable_yes w Hav)). cbn [negb].
  apply try_catch_ok.
  rewrite (bind_ok _ _ _ _ _ (getItem_ok STORAGE_KEY _ Hacc)).
  unfold after_probe, set_stored. cbn [stored].
  rewrite lookup_delete_ne by done. rewrite Hk. reflexivity.
Qed.

(** X11. [clearPersistedData] never throws. With a usable storage it removes
    the state's entry and dispatches nothing (the state in memory stays), and
    [initializeStateFromStorage] afterwards returns the default state. When
    the storage cannot be accessed, it changes nothing in it. *)
Theorem clearPersistedData_forgets :
  never_throws clearPersistedData ∧
  (∀ (defaultState : value) (w : World),
     storage_available w = true →
     ∃ w1 w2, clearPersistedData w = (Ok tt, w1) ∧
              stored w1 = delete STORAGE_KEY (stored w) ∧
              dispatched w1 = dispatched w ∧
              initializeStateFromStorage defaultState w1 = (Ok defaultState, w2) ∧
              stored w2 !! STORAGE_KEY = None) ∧
  (∀ w : World,
     accessible w = false →
     ∃ w1, clearPersistedData w = (Ok tt, w1) ∧ stored w1 = stored w).
Proof.
  split; [|split].
  - apply never_throws_try_catch. intros e. apply never_throws_console_log.
  - intros d w Hav.
    assert (accessible w = true) as Hacc by (apply andb_prop in Hav as [Ha _]; exact Ha).
    set (w1 := mkWorld (delete STORAGE_KEY (stored w)) (quota w) (accessible w)
                 (console w ++ [("info", "Cleared all persisted application data", None)])
                 (dispatched w)).
    assert (clearPersistedData w = (Ok tt, w1)) as E.
    { unfold clearPersistedData. apply try_catch_ok.
      rewrite (bind_ok _ _ _ _ _ (removeItem_ok STORAGE_KEY w Hacc)). reflexivity. }
    assert (storage_available w1 = true) as Hav1
      by (apply storage_available_delete; [done|exact Hav]).
    assert (stored w1 !! STORAGE_KEY = None) as Hk by apply lookup_delete_eq.
    exists w1, (after_probe w1). split; [exact E|]. split; [reflexivity|].
    split; [reflexivity|].
    split; [apply initializeStateFromStorage_absent; assumption|].
    unfold after_probe, set_stored. cbn [stored].
    rewrite lookup_delete_ne by done. apply lookup_delete_eq.
  - intros w Hacc. eexists. split.
    + unfold clearPersistedData.
      erewrite try_catch_throw
        by (apply bind_throw; unfold removeItem; rewrite Hacc; reflexivity).
      reflexivity.
    + reflexivity.
Qed.

(** X11 on [corrupted_world]. *)
Lemma clearPersistedData_forgets_witness :
  storage_available corrupted_world = true ∧
  ∃ w1 w2, clearPersistedData corrupted_world = (Ok tt, w1) ∧
           initializeStateFromStorage initialState w1 = (Ok initialState, w2) ∧
           stored w2 !! STORAGE_KEY = None.
Proof.
  assert (storage_available corrupted_world = true) as Hav by (vm_compute; reflexivity).
  split; [exact Hav|].
  destruct (proj1 (proj2 clearPersistedData_forgets) initialState corrupted_world Hav)
    as (w1 & w2 & E1 & _ & _ & E2 & Hk).
  exists w1, w2. split; [exact E1|]. split; [exact E2|exact Hk].
Defined.

(** ** Chat submissions that are answered *)

Lemma trim_blank (s : string) :
  forallb is_js_space (list_ascii_of_string s) = true → trim s = "".
Proof.
  intros H. unfold trim.
  assert (trim_start (list_ascii_of_string s) = []) as ->.
  { induction (list_ascii_of_string s) as [|c r IH]; [reflexivity|].
    cbn [forallb] in H. apply andb_prop in H as [Hc Hr].
    cbn [trim_start]. rewrite Hc. apply IH, Hr. }
  reflexivity.
Qed.

(** X12. What [handleSubmit] ignores: an input that consists of white space
    only (the empty input included), whatever the state, and any input while
    no conversation is active. Nothing is dispatched, logged or stored. *)
Theorem handleSubmit_guards
  (state : value) (inputValue : string) (outcome : fetch_outcome) (t1 t2 : Time) (w : World) :
  forallb is_js_space (list_ascii_of_string inputValue) = true ∨
  (∃ a, get "activeConversation" state = Ok a ∧ truthy a = false) →
  handleSubmit state inputValue outcome t1 t2 w = (Ok tt, w).
Proof.
  intros [Hblank|(a & Ha & Hta)]; unfold handleSubmit.
  - rewrite (trim_blank _ Hblank). reflexivity.
  - destruct (negb (truthy (VStr (trim inputValue)))); [reflexivity|].
    unfold lift. erewrite bind_ok by (rewrite Ha; reflexivity).
    rewrite Hta. reflexivity.
Qed.

(** X12 on an input of three spaces. *)
Lemma handleSubmit_guards_witness :
  forallb is_js_space (list_ascii_of_string "   ") = true ∧
  handleSubmit two_conversations "   " (FetchResponse 200 "{}") an_instant an_instant
    (mkWorld ∅ 5000 true [] []) = (Ok tt, mkWorld ∅ 5000 true [] []).
Proof.
  split; [reflexivity|].
  apply handleSubmit_guards. left. reflexivity.
Defined.

Lemma get_modelled (k : string) (v : value) : get k v ≠ Unmodelled.
Proof.
  destruct v; cbn [get]; try discriminate.
  - destruct (String.eqb k "length"); discriminate.
  - destruct (String.eqb k "length"); discriminate.
Qed.

Lemma sendMessageToBackend_caught
  (state a id : value) (t : Time) (e : error) (w : World) (body : Eff unit) :
  get "activeConversation" state = Ok a →
  get "id" a = Ok id →
  body w = (Throw e, mkWorld (stored w) (quota w) (accessible w) (console w)
                       (dispatched w ++ [setTyping (VBool true)])) →
  try_finally
    (try_catch body
       (fun error =>
          console_log "error" "Error sending message to backend:" (Some error);;
          let errorResponse :=
            message_object (Z_to_string (now t + 1)) (VStr "assistant")
              (VStr (fallback_text +:+ error_message error)) t in
          activeConversation ← lift (get "activeConversation" state);
          id ← lift (get "id" activeConversation);
          dispatch (addMessage id errorResponse)))
    (dispatch (setTyping (VBool false))) w =
  (Ok tt,
   mkWorld (stored w) (quota w) (accessible w)
     (console w ++ [("error", "Error sending message to backend:", Some e)])
     (dispatched w ++ [setTyping (VBool true);
                       addMessage id (message_object (Z_to_string (now t + 1))
                                        (VStr "assistant")
                                        (VStr (fallback_text +:+ error_message e)) t);
                       setTyping (VBool false)])).
Proof.
  intros Ha Hid Hb. unfold try_finally.
  erewrite try_catch_throw by exact Hb.
  erewrite bind_ok by reflexivity.
  unfold lift. erewrite bind_ok by (rewrite Ha; reflexivity).
  erewrite bind_ok by (rewrite Hid; reflexivity).
  rewrite dispatch_ok. cbn [dispatch stored quota accessible console dispatched].
  rewrite <- !app_assoc. reflexivity.
Qed.

Lemma sendMessageToBackend_success
  (state a id data content : value) (message body : string) (status : Z) (t : Time)
  (w : World) :
  get "activeConversation" state = Ok a →
  get "id" a = Ok id →
  response_ok status = true →
  JSON_parse body = Ok data →
  get "response" data = Ok content →
  sendMessageToBackend state message (FetchResponse status body) t w =
  (Ok tt,
   mkWorld (stored w) (quota w) (accessible w) (console w)
     (dispatched w ++
      [setTyping (VBool true);
       addMessage id (message_object (Z_to_string (now t + 1)) (VStr "assistant") content t);
       setTyping (VBool false)])).
Proof.
  intros Ha Hid Hok Hp Hc. unfold sendMessageToBackend, try_finally.
  rewrite Hok. cbn [negb].
  erewrite try_catch_ok; cycle 1.
  { erewrite bind_ok by apply dispatch_ok.
    unfold lift. erewrite bind_ok by (rewrite Hp; reflexivity).
    erewrite bind_ok by (rewrite Hc; reflexivity).
    erewrite bind_ok by (rewrite Ha; reflexivity).
    erewrite bind_ok by (rewrite Hid; reflexivity).
    apply dispatch_ok. }
  rewrite dispatch_ok. cbn [dispatch stored quota accessible console dispatched].
  rewrite <- !app_assoc. reflexivity.
Qed.

Lemma sendMessageToBackend_answer
  (state a id : value) (message : string) (outcome : fetch_outcome) (t : Time) (w : World) :
  get "activeConversation" state = Ok a →
  get "id" a = Ok id →
  modelled outcome = true →
  ∃ log,
    sendMessageToBackend state message outcome t w =
    (Ok tt,
     mkWorld (stored w) (quota w) (accessible w) (console w ++ log)
       (dispatched w ++
        [setTyping (VBool true);
         addMessage id (message_object (Z_to_string (now t + 1)) (VStr "assistant")
                          (reply_content outcome) t);
         setTyping (VBool false)])).
Proof.
  intros Ha Hid Hm. unfold reply_content.
  destruct (request_failure outcome) as [e|] eqn:Hf.
  { eexists. apply (sendMessageToBackend_failure state a id message outcome t e w Ha Hid Hf). }
  destruct outcome as [e|status body]; [discriminate Hf|].
  cbn [request_failure] in Hf. cbn [modelled] in Hm.
  destruct (response_ok status) eqn:Hok; [|discriminate Hf]. cbn [negb orb] in Hm.
  destruct (JSON_parse body) as [data|e|] eqn:Hp; [| |discriminate Hm].
  - step. destruct (get "response" data) as [content|e|] eqn:Hc.
    + exists [].
      rewrite (sendMessageToBackend_success state a id data content message body
                 status t w Ha Hid Hok Hp Hc), app_nil_r. reflexivity.
    + eexists. unfold sendMessageToBackend. rewrite Hok. cbn [negb].
      apply (sendMessageToBackend_caught state a id t e w _ Ha Hid).
      erewrite bind_ok by apply dispatch_ok.
      unfold lift. erewrite bind_ok by (rewrite Hp; reflexivity).
      erewrite bind_throw by (rewrite Hc; reflexivity). reflexivity.
    + destruct (get_modelled _ _ Hc).
  - step. eexists. unfold sendMessageToBackend. rewrite Hok. cbn [negb].
    apply (sendMessageToBackend_caught state a id t e w _ Ha Hid).
    erewrite bind_ok by apply dispatch_ok.
    unfold lift. erewrite bind_throw by (rewrite Hp; reflexivity). reflexivity.
Qed.

Lemma get_message_object (id : string) (role content : value) (t : Time) :
  get "id" (message_object id role content t) = Ok (VStr id) ∧
  get "role" (message_object id role content t) = Ok role ∧
  get "content" (message_object id role content t) = Ok content.
Proof.
  unfold message_object, get.
  rewrite !lookup_insert_ne by done. rewrite lookup_insert_eq.
  rewrite !lookup_insert_ne by done. rewrite !lookup_insert_eq.
  rewrite !lookup_insert_ne by done. rewrite lookup_insert_eq. auto.
Qed.

(** X13. [sendMessageToBackend] answers every request once. When the state
    the component was rendered with has an active conversation whose id can
    be read, then whatever the outcome of the request within the model (a rejected [fetch], a status that
    is not ok, a body that is not JSON, a body that is), the call returns
    without an exception, stores nothing, and dispatches, in order: typing on,
    one assistant message for the conversation that was active when the
    component rendered, typing off. The message's id is the clock's reading
    plus one; its content is the body's [response], or the connectivity
    notice with the error's message. *)
Theorem sendMessageToBackend_replies_once
  (state a id : value) (message : string) (outcome : fetch_outcome) (t : Time) (w : World) :
  get "activeConversation" state = Ok a →
  get "id" a = Ok id →
  modelled outcome = true →
  ∃ w' reply,
    sendMessageToBackend state message outcome t w = (Ok tt, w') ∧
    dispatched w' =
      (dispatched w ++
       [setTyping (VBool true); addMessage id reply; setTyping (VBool false)])%list ∧
    get "id" reply = Ok (VStr (Z_to_string (now t + 1))) ∧
    get "role" reply = Ok (VStr "assistant") ∧
    get "content" reply = Ok (reply_content outcome) ∧
    stored w' = stored w.
Proof.
  intros Ha Hid Hm.
  destruct (sendMessageToBackend_answer state a id message outcome t w Ha Hid Hm)
    as (log & E).
  destruct (get_message_object (Z_to_string (now t + 1)) (VStr "assistant")
              (reply_content outcome) t) as (G1 & G2 & G3).
  eexists. eexists. split; [exact E|]. cbn [dispatched stored]. auto.
Qed.

(** X13 on a response whose body is not JSON. *)
Lemma sendMessageToBackend_replies_once_witness :
  get "activeConversation" two_conversations = Ok (conversation "1" "T" []) ∧
  get "id" (conversation "1" "T" []) = Ok (VStr "1") ∧
  modelled (FetchResponse 200 "not json") = true ∧
  ∃ w' reply,
    sendMessageToBackend two_conversations "hi" (FetchResponse 200 "not json") an_instant
      (mkWorld ∅ 5000 true [] []) = (Ok tt, w') ∧
    dispatched w' =
      [setTyping (VBool true); addMessage (VStr "1") reply; setTyping (VBool false)] ∧
    get "role" reply = Ok (VStr "assistant").
Proof.
  split; [reflexivity|]. split; [reflexivity|]. split; [reflexivity|].
  destruct (sendMessageToBackend_replies_once two_conversations (conversation "1" "T" [])
              (VStr "1") "hi" (FetchResponse 200 "not json") an_instant
              (mkWorld ∅ 5000 true [] []) eq_refl eq_refl eq_refl)
    as (w' & reply & E & Hd & _ & Hr & _).
  exists w', reply. split; [exact E|]. split; [exact Hd|exact Hr].
Defined.

(** The five dispatches of a submission, run through the reducer. *)
Lemma exchange_run (s id question answer : value) :
  is_state s = true → id ≠ VUndefined →
  ∃ s', dispatch_all s
          [addMessage id question; setTyping (VBool true); setTyping (VBool true);
           addMessage id answer; setTyping (VBool false)] = Ok s' ∧
        is_state s' = true ∧
        spread s' !! "isTyping" = Some (VBool false) ∧
        conversations_of s' =
          map (push_message id answer) (map (push_message id question) (conversations_of s)) ∧
        active_of s' = push_message id answer (push_message id question (active_of s)).
Proof.
  intros Hs Hne.
  destruct (addMessage_step_typing s id question Hs Hne) as (s1 & E1 & Hs1 & C1 & A1 & _).
  destruct (setTyping_step s1 (VBool true) Hs1) as (s2 & E2 & Hs2 & C2 & A2 & _).
  destruct (setTyping_step s2 (VBool true) Hs2) as (s3 & E3 & Hs3 & C3 & A3 & _).
  destruct (addMessage_step_typing s3 id answer Hs3 Hne) as (s4 & E4 & Hs4 & C4 & A4 & _).
  destruct (setTyping_step s4 (VBool false) Hs4) as (s5 & E5 & Hs5 & C5 & A5 & T5).
  exists s5. split; [|split; [exact Hs5|split; [exact T5|split]]].
  - cbn [dispatch_all]. rewrite E1. step. rewrite E2. step. rewrite E3. step.
    rewrite E4. step. rewrite E5. reflexivity.
  - rewrite C5, C4, C3, C2, C1. reflexivity.
  - rewrite A5, A4, A3, A2, A1. reflexivity.
Qed.

Lemma is_state_conversation_at (s : value) (i : nat) (c : value) :
  is_state s = true → conversations_of s !! i = Some c → is_conversation c = true.
Proof.
  intros Hs Hi.
  destruct (is_state_inv s Hs) as (m & cs & ac & -> & Ecs & Hcs & _).
  unfold conversations_of in Hi. rewrite Ecs in Hi.
  rewrite forallb_forall in Hcs. apply Hcs, list_elem_of_In.
  eapply list_elem_of_lookup_2, Hi.
Qed.

Lemma messages_of_exchange (id question answer c : value) :
  is_conversation c = true → has_id id c = true →
  messages_of (push_message id answer (push_message id question c)) =
  (messages_of c ++ [question; answer])%list.
Proof.
  intros Hconv Hc.
  rewrite messages_of_push_message. unfold has_id at 1.
  rewrite id_of_push_message by auto. fold (has_id id c). rewrite Hc.
  rewrite messages_of_push_message, Hc, <- app_assoc. reflexivity.
Qed.

(** X14. A chat submission that is answered. Whenever [handleSubmit] goes
    past its guard and the response has an ok status and a JSON body, the
    submission dispatches, in order: the user's message, typing on (twice),
    an assistant message whose content is the body's [response], and typing
    off; nothing is logged. Run through the reducer from any state of the data
    model, these dispatches leave [isTyping] false and extend every
    conversation that carries the id with the two messages, the user's
    first. *)
Theorem chat_reply_becomes_assistant_message
  (state a data content : value) (inputValue body : string) (status : Z) (t1 t2 : Time)
  (w : World) :
  trim inputValue ≠ "" →
  get "activeConversation" state = Ok a →
  truthy a = true →
  response_ok status = true →
  JSON_parse body = Ok data →
  get "response" data = Ok content →
  ∃ (id : value) (w' : World),
    get "id" a = Ok id ∧
    handleSubmit state inputValue (FetchResponse status body) t1 t2 w = (Ok tt, w') ∧
    dispatched w' =
      (dispatched w ++
       [addMessage id (userMessage inputValue t1);
        setTyping (VBool true);
        setTyping (VBool true);
        addMessage id (message_object (Z_to_string (now t2 + 1)) (VStr "assistant")
                         content t2);
        setTyping (VBool false)])%list ∧
    console w' = console w ∧
    ∀ s : value,
      is_state s = true → id ≠ VUndefined →
      ∃ s', dispatch_all s
              [addMessage id (userMessage inputValue t1);
               setTyping (VBool true);
               setTyping (VBool true);
               addMessage id (message_object (Z_to_string (now t2 + 1)) (VStr "assistant")
                                content t2);
               setTyping (VBool false)] = Ok s' ∧
            spread s' !! "isTyping" = Some (VBool false) ∧
            ∀ (i : nat) (c : value),
              conversations_of s !! i = Some c → has_id id c = true →
              ∃ c', conversations_of s' !! i = Some c' ∧
                    messages_of c' =
                      (messages_of c ++
                       [userMessage inputValue t1;
                        message_object (Z_to_string (now t2 + 1)) (VStr "assistant")
                          content t2])%list.
Proof.
  intros Hin Ha Hta Hok Hp Hc.
  destruct (get_truthy "id" a Hta) as (id & Hid).
  exists id. eexists. split; [exact Hid|]. split; [|split; [|split]].
  - unfold handleSubmit. rewrite (truthy_stored_text _ Hin). cbn [negb].
    unfold lift. erewrite bind_ok by (rewrite Ha; reflexivity).
    rewrite Hta. cbn [negb].
    erewrite bind_ok by (rewrite Hid; reflexivity).
    erewrite bind_ok by apply dispatch_ok.
    erewrite bind_ok by apply dispatch_ok.
    rewrite (sendMessageToBackend_success state a id data content _ body status t2 _
               Ha Hid Hok Hp Hc).
    cbn [dispatched stored quota accessible console]. reflexivity.
  - cbn [dispatched]. rewrite <- !app_assoc. reflexivity.
  - reflexivity.
  - intros s Hs Hne.
    destruct (exchange_run s id (userMessage inputValue t1)
                (message_object (Z_to_string (now t2 + 1)) (VStr "assistant") content t2)
                Hs Hne) as (s' & E' & _ & T' & C' & _).
    exists s'. split; [exact E'|]. split; [exact T'|].
    intros i c Hi Hh. rewrite C', map_map.
    eexists. split.
    + change (map ?f ?l) with (f <$> l). rewrite list_lookup_fmap, Hi. reflexivity.
    + apply messages_of_exchange; [|exact Hh].
      apply (is_state_conversation_at s i c Hs Hi).
Qed.

(** X14 on an answer of the backend. *)
Lemma chat_reply_becomes_assistant_message_witness :
  trim " status? " ≠ "" ∧
  get "activeConversation" two_conversations = Ok (conversation "1" "T" []) ∧
  truthy (conversation "1" "T" []) = true ∧
  response_ok 200 = true ∧
  JSON_parse (backend_answer "All good") = Ok (VObj (<["response" := VStr "All good"]> ∅)) ∧
  get "response" (VObj (<["response" := VStr "All good"]> ∅)) = Ok (VStr "All good") ∧
  ∃ w', handleSubmit two_conversations " status? " (FetchResponse 200 (backend_answer "All good"))
          an_instant an_instant (mkWorld ∅ 5000 true [] []) = (Ok tt, w') ∧
        length (dispatched w') = 5%nat ∧ console w' = [].
Proof.
  assert (trim " status? " ≠ "") as Hin by (vm_compute; discriminate).
  assert (JSON_parse (backend_answer "All good")
          = Ok (VObj (<["response" := VStr "All good"]> ∅))) as Hp
    by (vm_compute; reflexivity).
  split; [exact Hin|]. split; [reflexivity|]. split; [reflexivity|].
  split; [reflexivity|]. split; [exact Hp|]. split; [reflexivity|].
  destruct (chat_reply_becomes_assistant_message two_conversations
              (conversation "1" "T" []) (VObj (<["response" := VStr "All good"]> ∅))
              (VStr "All good") " status? " (backend_answer "All good") 200
              an_instant an_instant (mkWorld ∅ 5000 true [] [])
              Hin eq_refl eq_refl eq_refl Hp eq_refl)
    as (id & w' & _ & E & Hd & Hc & _).
  exists w'. split; [exact E|]. split; [rewrite Hd; reflexivity|exact Hc].
Defined.

(** ** The sidebar *)




(** *** Searching *)

Lemma starts_with_spec (q s : list ascii) :
  starts_with q s = true ↔ ∃ post, s = q ++ post.
Proof.
  revert s. induction q as [|c q IH]; intros s; cbn [starts_with].
  - split; [intros _; exists s; reflexivity|reflexivity].
  - destruct s as [|d s].
    + split; [discriminate|intros (post & H); discriminate H].
    + rewrite andb_true_iff, IH. split.
      * intros [Hc (post & ->)]. apply Ascii.eqb_eq in Hc as ->. exists post. reflexivity.
      * intros (post & [= -> ->]). split; [apply Ascii.eqb_refl|]. exists post. reflexivity.
Qed.

Lemma occurs_in_spec (q s : list ascii) :
  occurs_in q s = true ↔ ∃ pre post, s = pre ++ q ++ post.
Proof.
  induction s as [|d s IH]; cbn [occurs_in]; rewrite orb_true_iff, starts_with_spec.
  - split.
    + intros [(post & H)|H]; [|discriminate H]. exists [], post. exact H.
    + intros (pre & post & H). left. destruct pre; [|discriminate H]. exists post. exact H.
  - rewrite IH. split.
    + intros [(post & H)|(pre & post & ->)].
      * exists [], post. exact H.
      * exists (d :: pre), post. reflexivity.
    + intros (pre & post & H). destruct pre as [|d' pre].
      * left. exists post. exact H.
      * right. injection H as -> ->. exists pre, post. reflexivity.
Qed.

Lemma list_ascii_of_string_app (a b : string) :
  list_ascii_of_string (a +:+ b) = list_ascii_of_string a ++ list_ascii_of_string b.
Proof.
  induction a as [|c a IH]; [reflexivity|].
  change (c :: list_ascii_of_string (a +:+ b) =
          c :: (list_ascii_of_string a ++ list_ascii_of_string b)).
  f_equal. exact IH.
Qed.

Lemma includes_spec (s q : string) :
  includes s q = true ↔ ∃ pre post : string, s = pre +:+ q +:+ post.
Proof.
  unfold includes. rewrite occurs_in_spec. split.
  - intros (pre & post & H).
    exists (string_of_list_ascii pre), (string_of_list_ascii post).
    rewrite <- (string_of_list_ascii_of_string s), H.
    rewrite <- (string_of_list_ascii_of_string q) at 2.
    apply (f_equal string_of_list_ascii) in H.
    clear H. induction pre as [|c pre IH]; cbn.
    + induction (list_ascii_of_string q) as [|c r IHr]; cbn; [reflexivity|].
      rewrite IHr. reflexivity.
    + rewrite IH. reflexivity.
  - intros (pre & post & ->).
    exists (list_ascii_of_string pre), (list_ascii_of_string post).
    rewrite !list_ascii_of_string_app. reflexivity.
Qed.

Lemma title_matches_text (searchQuery : string) (c : value) :
  has_text_title c = true →
  title_matches searchQuery c =
  Ok (includes (toLowerCase (title_text c)) (toLowerCase searchQuery)).
Proof.
  unfold has_text_title, title_text, title_matches.
  destruct (get "title" c) as [[]| |]; try discriminate. reflexivity.
Qed.

Lemma sublist_filter {A : Type} (q : A → bool) (l : list A) : sublist (List.filter q l) l.
Proof.
  induction l as [|x l IH]; cbn [List.filter]; [constructor|].
  destruct (q x); [apply sublist_skip|apply sublist_cons]; exact IH.
Qed.

Lemma includes_empty (s : string) : includes s "" = true.
Proof. unfold includes. destruct (list_ascii_of_string s); reflexivity. Qed.

(** X16. The search of the sidebar. When every conversation has a string for
    its title, [filteredConversations] returns, in their order, exactly the
    conversations whose title in lower case contains the search text in lower
    case; with an empty search text these are all of them. *)
Theorem filteredConversations_search (s : value) (cs : list value) (searchQuery : string) :
  get "conversations" s = Ok (VArr cs) →
  forallb has_text_title cs = true →
  ∃ found, filteredConversations s searchQuery = Ok (VArr found) ∧
    sublist found cs ∧
    (∀ c, c ∈ found ↔
          c ∈ cs ∧ ∃ pre post : string,
                     toLowerCase (title_text c) = pre +:+ toLowerCase searchQuery +:+ post) ∧
    (searchQuery = "" → found = cs).
Proof.
  intros Hcs Htitles.
  set (q := fun c => includes (toLowerCase (title_text c)) (toLowerCase searchQuery)).
  exists (List.filter q cs). split; [|split; [|split]].
  - unfold filteredConversations. rewrite Hcs. step. cbn [array_filter].
    rewrite (filterM_pure _ q has_text_title cs); [reflexivity| |exact Htitles].
    intros c Hc. apply title_matches_text, Hc.
  - apply sublist_filter.
  - intros c. rewrite !list_elem_of_In, filter_In. unfold q. rewrite includes_spec.
    reflexivity.
  - intros ->. apply filter_keeps_all. intros c _. unfold q. apply includes_empty.
Qed.

(** X16 on [two_conversations]: the search text "u" finds the conversation titled "U". *)
Lemma filteredConversations_search_witness :
  get "conversations" two_conversations
    = Ok (VArr [conversation "1" "T" []; conversation "2" "U" []]) ∧
  forallb has_text_title [conversation "1" "T" []; conversation "2" "U" []] = true ∧
  filteredConversations two_conversations "u" = Ok (VArr [conversation "2" "U" []]).
Proof.
  split; [reflexivity|]. split; [reflexivity|].
  destruct (filteredConversations_search two_conversations
              [conversation "1" "T" []; conversation "2" "U" []] "u" eq_refl eq_refl)
    as (found & E & _).
  rewrite E. vm_compute in E. injection E as <-. reflexivity.
Defined.

Lemma title_matches_untitled (searchQuery : string) (c : value) :
  has_text_title c = false →
  ∃ e, title_matches searchQuery c = Throw e ∧ error_name e = "TypeError".
Proof.
  unfold has_text_title, title_matches. intros H.
  destruct (get "title" c) as [v|e|] eqn:E.
  - step. destruct v; try discriminate H; cbn [string_receiver]; step; eauto.
  - step. destruct c; cbn [get] in E; try discriminate E.
    + injection E as <-. eauto.
    + injection E as <-. eauto.
  - destruct (get_modelled _ _ E).
Qed.

Lemma title_matches_outcome (searchQuery : string) (c : value) :
  (∃ b, title_matches searchQuery c = Ok b) ∨
  (∃ e, title_matches searchQuery c = Throw e ∧ error_name e = "TypeError").
Proof.
  destruct (has_text_title c) eqn:H.
  - left. rewrite (title_matches_text _ _ H). eauto.
  - right. apply title_matches_untitled, H.
Qed.

(** X17. The search needs titles. If one conversation of the collection has
    a title that is not a string (it is missing, [null], a number, ...),
    [filteredConversations] throws a [TypeError], whatever the search text:
    the sidebar cannot be rendered. *)
Theorem filteredConversations_needs_titles
  (s : value) (cs : list value) (searchQuery : string) :
  get "conversations" s = Ok (VArr cs) →
  (∃ c, c ∈ cs ∧ has_text_title c = false) →
  ∃ e, filteredConversations s searchQuery = Throw e ∧ error_name e = "TypeError".
Proof.
  intros Hcs (c & Hin & Hbad).
  unfold filteredConversations. rewrite Hcs. step. cbn [array_filter].
  assert (∃ e, filterM (title_matches searchQuery) cs = Throw e ∧ error_name e = "TypeError")
    as (e & E & He).
  { clear Hcs. induction Hin as [c cs|c x cs Hin IH]; cbn [filterM].
    - destruct (title_matches_untitled searchQuery c Hbad) as (e & -> & He).
      step. eauto.
    - destruct (title_matches_outcome searchQuery x) as [(b & ->)|(e & -> & He)].
      + step. destruct (IH Hbad) as (e & -> & He). step. eauto.
      + step. eauto. }
  rewrite E. step. eauto.
Qed.

(** X17 after [UPDATE_CONVERSATION] has set a title to [null]. *)
Lemma filteredConversations_needs_titles_witness :
  ∃ s e, appReducer two_conversations
           (updateConversation (VStr "2") (VObj (<["title" := VNull]> ∅))) = Ok s ∧
         filteredConversations s "" = Throw e ∧ error_name e = "TypeError".
Proof.
  eexists.
  destruct (filteredConversations_needs_titles
              (VObj (<["conversations" :=
                        VArr [conversation "1" "T" [];
                              VObj (<["title" := VNull]> (spread (conversation "2" "U" [])))]]>
                       (spread two_conversations)))
              [conversation "1" "T" [];
               VObj (<["title" := VNull]> (spread (conversation "2" "U" [])))] "")
    as (e & E & He).
  - reflexivity.
  - eexists. split; [apply list_elem_of_further, list_elem_of_here|]. reflexivity.
  - exists e. split; [|split; [exact E|exact He]].
    vm_compute. reflexivity.
Defined.

(** *** Folders *)

Lemma get_prop_of (k : string) (c : value) :
  nullish c = false → get k c = Ok (prop_of k c).
Proof.
  intros H. unfold prop_of. destruct (get k c) as [x|e|] eqn:E; [reflexivity| |].
  - destruct c; try discriminate H; cbn [get] in E; try discriminate E;
      destruct (String.eqb k "length"); discriminate E.
  - destruct (get_modelled _ _ E).
Qed.

Lemma filter_middle {A : Type} (x : A) (l1 l2 : list A) : l1 ++ x :: l2 ≡ₚ x :: l1 ++ l2.
Proof. symmetry. apply Permutation_middle. Qed.

(** X18. The folders of the sidebar. For conversations that are not [null]
    or [undefined], and a day whose eve is within the range of dates,
    [categorizeConversations] returns four lists, pinned,
    today, yesterday and older, that together hold each conversation that is
    pinned or whose [updatedAt] makes a valid date exactly once; a
    conversation that is neither is in no folder. *)
Theorem categorizeConversations_partition
  (time_value : value → option Z) (today : Z) (cs : list value) :
  Z.abs (today - 86400000) ≤ 8640000000000000 →
  forallb (fun c => negb (nullish c)) cs = true →
  ∃ pinned todays yesterdays older,
    categorizeConversations time_value today (VArr cs) =
      Ok (VObj (<["older" := VArr older]> (<["yesterday" := VArr yesterdays]>
               (<["today" := VArr todays]> (<["pinned" := VArr pinned]> ∅))))) ∧
    pinned ++ todays ++ yesterdays ++ older ≡ₚ List.filter (has_a_folder time_value) cs.
Proof.
  intros Hclip Hobj.
  set (is_pinned := fun c => truthy (prop_of "pinned" c)).
  set (date := fun c => time_value (prop_of "updatedAt" c)).
  set (f2 := fun c => date_ge (date c) (Some today) && negb (is_pinned c)).
  set (f3 := fun c => date_ge (date c) (Some (today - 86400000))
                      && date_lt (date c) (Some today) && negb (is_pinned c)).
  set (f4 := fun c => date_lt (date c) (Some (today - 86400000)) && negb (is_pinned c)).
  exists (List.filter is_pinned cs), (List.filter f2 cs), (List.filter f3 cs),
         (List.filter f4 cs).
  split.
  - unfold categorizeConversations, array_filter.
    change (24 * 60 * 60 * 1000) with 86400000.
    assert (time_clip (today - 86400000) = Some (today - 86400000)) as ->.
    { unfold time_clip. apply Z.leb_le in Hclip. rewrite Hclip. reflexivity. }
    cbv zeta.
    assert (filterM (fun conv => pinned ← get "pinned" conv; Ok (truthy pinned)) cs
            = Ok (List.filter is_pinned cs)) as ->.
    { apply (filterM_pure _ is_pinned (fun c => negb (nullish c)) cs); [|exact Hobj].
      intros c Hc. apply negb_true_iff in Hc. rewrite (get_prop_of _ _ Hc). reflexivity. }
    assert (filterM (fun conv =>
                       updatedAt ← get "updatedAt" conv;
                       pinned ← get "pinned" conv;
                       Ok (date_ge (time_value updatedAt) (Some today)
                           && negb (truthy pinned))) cs
            = Ok (List.filter f2 cs)) as ->.
    { apply (filterM_pure _ f2 (fun c => negb (nullish c)) cs); [|exact Hobj].
      intros c Hc. apply negb_true_iff in Hc. rewrite !(get_prop_of _ _ Hc). reflexivity. }
    assert (filterM (fun conv =>
                       updatedAt ← get "updatedAt" conv;
                       pinned ← get "pinned" conv;
                       Ok (date_ge (time_value updatedAt) (Some (today - 86400000))
                           && date_lt (time_value updatedAt) (Some today)
                           && negb (truthy pinned))) cs
            = Ok (List.filter f3 cs)) as ->.
    { apply (filterM_pure _ f3 (fun c => negb (nullish c)) cs); [|exact Hobj].
      intros c Hc. apply negb_true_iff in Hc. rewrite !(get_prop_of _ _ Hc). reflexivity. }
    assert (filterM (fun conv =>
                       updatedAt ← get "updatedAt" conv;
                       pinned ← get "pinned" conv;
                       Ok (date_lt (time_value updatedAt) (Some (today - 86400000))
                           && negb (truthy pinned))) cs
            = Ok (List.filter f4 cs)) as ->.
    { apply (filterM_pure _ f4 (fun c => negb (nullish c)) cs); [|exact Hobj].
      intros c Hc. apply negb_true_iff in Hc. rewrite !(get_prop_of _ _ Hc). reflexivity. }
    reflexivity.
  - clear Hobj. induction cs as [|c cs IH]; [reflexivity|].
    cbn [List.filter]. unfold has_a_folder at 1. fold (is_pinned c). fold (date c).
    unfold f2 at 1, f3 at 1, f4 at 1.
    destruct (is_pinned c); cbn [negb andb orb].
    { rewrite !andb_false_r. cbn [app]. apply Permutation_skip, IH. }
    destruct (date c) as [x|]; cbn [date_ge date_lt andb].
    2: { exact IH. }
    rewrite !andb_true_r.
    destruct (today <=? x) eqn:E2.
    { apply Z.leb_le in E2.
      assert ((x <? today) = false) as -> by (apply Z.ltb_ge; lia).
      assert ((x <? today - 86400000) = false) as -> by (apply Z.ltb_ge; lia).
      rewrite andb_false_r. cbn [app].
      rewrite filter_middle. apply Permutation_skip, IH. }
    apply Z.leb_gt in E2.
    assert ((x <? today) = true) as -> by (apply Z.ltb_lt; lia).
    rewrite andb_true_r.
    destruct (today - 86400000 <=? x) eqn:E3.
    { apply Z.leb_le in E3.
      assert ((x <? today - 86400000) = false) as -> by (apply Z.ltb_ge; lia).
      cbn [app].
      rewrite (app_assoc (List.filter is_pinned cs)), filter_middle, <- app_assoc.
      apply Permutation_skip, IH. }
    apply Z.leb_gt in E3.
    assert ((x <? today - 86400000) = true) as -> by (apply Z.ltb_lt; lia).
    rewrite !app_assoc, filter_middle, <- !app_assoc.
    apply Permutation_skip, IH.
Qed.

(** X18 on five conversations, one for each folder and one without
    [updatedAt]: the pinned one, though updated today, is filed under pinned
    only, and the undated one nowhere. *)
Lemma categorizeConversations_partition_witness :
  Z.abs (midnight - 86400000) ≤ 8640000000000000 ∧
  forallb (fun c => negb (nullish c)) sidebar_conversations = true ∧
  ∃ pinned todays yesterdays older,
    categorizeConversations calendar midnight (VArr sidebar_conversations) =
      Ok (VObj (<["older" := VArr older]> (<["yesterday" := VArr yesterdays]>
               (<["today" := VArr todays]> (<["pinned" := VArr pinned]> ∅))))) ∧
    pinned = [dated_conversation "5" true (VDate (iso an_instant))] ∧
    todays = [newConversation an_instant] ∧
    yesterdays = [dated_conversation "3" false (VStr (iso a_day_before))] ∧
    older = [dated_conversation "4" false (VStr (iso two_weeks_before))] ∧
    pinned ++ todays ++ yesterdays ++ older ≡ₚ
      [dated_conversation "4" false (VStr (iso two_weeks_before));
       newConversation an_instant;
       dated_conversation "5" true (VDate (iso an_instant));
       dated_conversation "3" false (VStr (iso a_day_before))].
Proof.
  assert (Z.abs (midnight - 86400000) ≤ 8640000000000000) as Hclip
    by (vm_compute; discriminate).
  split; [exact Hclip|]. split; [reflexivity|].
  destruct (categorizeConversations_partition calendar midnight sidebar_conversations
              Hclip eq_refl) as (p & t & y & o & E & H).
  assert (List.filter (has_a_folder calendar) sidebar_conversations =
          [dated_conversation "4" false (VStr (iso two_weeks_before));
           newConversation an_instant;
           dated_conversation "5" true (VDate (iso an_instant));
           dated_conversation "3" false (VStr (iso a_day_before))]) as Hf
    by (vm_compute; reflexivity).
  rewrite Hf in H.
  assert (categorizeConversations calendar midnight (VArr sidebar_conversations) =
          Ok (VObj
                (<["older" := VArr [dated_conversation "4" false (VStr (iso two_weeks_before))]]>
                (<["yesterday" := VArr [dated_conversation "3" false (VStr (iso a_day_before))]]>
                (<["today" := VArr [newConversation an_instant]]>
                (<["pinned" := VArr [dated_conversation "5" true (VDate (iso an_instant))]]>
                 ∅))))))
    as Ec by (vm_compute; reflexivity).
  exists p, t, y, o. split; [exact E|].
  rewrite Ec in E.
  pose proof (f_equal (fun r => match r with Ok (VObj m) => m !! "pinned" | _ => None end) E)
    as Ep.
  pose proof (f_equal (fun r => match r with Ok (VObj m) => m !! "today" | _ => None end) E)
    as Et.
  pose proof (f_equal (fun r => match r with Ok (VObj m) => m !! "yesterday" | _ => None end) E)
    as Ey.
  pose proof (f_equal (fun r => match r with Ok (VObj m) => m !! "older" | _ => None end) E)
    as Eo.
  cbv beta iota in Ep, Et, Ey, Eo.
  repeat (rewrite lookup_insert_eq in Ep || rewrite lookup_insert_ne in Ep by done).
  repeat (rewrite lookup_insert_eq in Et || rewrite lookup_insert_ne in Et by done).
  repeat (rewrite lookup_insert_eq in Ey || rewrite lookup_insert_ne in Ey by done).
  repeat (rewrite lookup_insert_eq in Eo || rewrite lookup_insert_ne in Eo by done).
  injection Ep as Ep. injection Et as Et. injection Ey as Ey. injection Eo as Eo.
  subst p t y o. repeat split. exact H.
Defined.

(** *** The preview line *)

Lemma N_to_chars_value (n : N) : digits_value (N_to_chars n) 0%N = n.
Proof.
  unfold N_to_chars. rewrite N_digits_value by apply N_to_chars_fuel. reflexivity.
Qed.

Lemma N_to_string_inj (a b : N) : N_to_string a = N_to_string b → a = b.
Proof.
  unfold N_to_string. intros H.
  apply (f_equal list_ascii_of_string) in H.
  rewrite !list_ascii_of_string_of_list_ascii in H.
  rewrite <- (N_to_chars_value a), <- (N_to_chars_value b), H. reflexivity.
Qed.

Lemma index_props_at {A : Type} (l : list A) (i : N) (j : nat) :
  index_props i l !! N_to_string (i + N.of_nat j) = l !! j.
Proof.
  revert i j. induction l as [|x l IH]; intros i j; cbn [index_props].
  - rewrite lookup_empty. reflexivity.
  - destruct j as [|j].
    + rewrite N.add_0_r, lookup_insert_eq. reflexivity.
    + rewrite lookup_insert_ne by (intros H; apply N_to_string_inj in H; lia).
      replace (i + N.of_nat (S j))%N with (N.succ i + N.of_nat j)%N by lia.
      apply IH.
Qed.

Lemma N_to_string_not_length (n : N) : String.eqb (N_to_string n) "length" = false.
Proof.
  apply String.eqb_neq. intros H.
  apply (f_equal list_ascii_of_string) in H.
  unfold N_to_string in H. rewrite list_ascii_of_string_of_list_ascii in H.
  pose proof (N_digits_all_digits (S (N.to_nat (N.log2 n))) n [] eq_refl) as Hd.
  fold (N_to_chars n) in Hd. rewrite H in Hd. discriminate Hd.
Qed.

Lemma get_index (xs : list value) (j : nat) :
  get (Z_to_string (Z.of_nat j)) (VArr xs) = Ok (default VUndefined (xs !! j)).
Proof.
  assert (Z_to_string (Z.of_nat j) = N_to_string (N.of_nat j)) as ->.
  { unfold Z_to_string, N_to_string, Z_to_chars.
    assert ((Z.of_nat j <? 0) = false) as -> by (apply Z.ltb_ge; lia).
    rewrite <- nat_N_Z, N2Z.id. reflexivity. }
  cbn [get]. rewrite N_to_string_not_length.
  rewrite <- (index_props_at xs 0 j). reflexivity.
Qed.

Lemma substring_prefix (n : nat) (s : string) :
  (String.length (substring 0 n s) ≤ n)%nat ∧
  (∃ rest, s = substring 0 n s +:+ rest) ∧
  ((String.length s ≤ n)%nat → substring 0 n s = s).
Proof.
  revert s. induction n as [|n IH]; intros s.
  - destruct s; cbn; (split; [lia|]); (split; [eauto|]); try reflexivity.
    intros H. lia.
  - destruct s as [|c s]; cbn [substring String.length].
    + split; [lia|]. split; [exists ""; reflexivity|reflexivity].
    + destruct (IH s) as (H1 & (rest & H2) & H3). split; [lia|]. split.
      * exists rest.
        change (String c s = String c (substring 0 n s +:+ rest)). f_equal. exact H2.
      * intros H. rewrite H3 by lia. reflexivity.
Qed.

Lemma get_length (xs : list value) :
  get "length" (VArr xs) = Ok (VNum (Z.of_nat (length xs))).
Proof. reflexivity. Qed.

(** X19. The preview line of an entry of the sidebar. When the last message
    of the conversation has a string for its content, the preview is the
    first characters of that content, at most 50, followed by three dots; the
    dots are there also when the content is short and nothing was cut. *)
Theorem ConversationItem_preview_line
  (c : value) (msgs : list value) (last : value) (text : string) :
  get "messages" c = Ok (VArr (msgs ++ [last])) →
  get "content" last = Ok (VStr text) →
  ∃ line, ConversationItem_preview c = Ok (line +:+ "...") ∧
          (String.length line ≤ 50)%nat ∧
          (∃ rest, text = line +:+ rest) ∧
          ((String.length text ≤ 50)%nat → line = text).
Proof.
  intros Hm Hc. exists (substring 0 50 text).
  split; [|apply substring_prefix].
  unfold ConversationItem_preview. rewrite Hm. step. rewrite get_length. step.
  rewrite length_app. cbn [length].
  assert ((0 <? Z.of_nat (length msgs + 1)) = true) as -> by (apply Z.ltb_lt; lia).
  replace (Z.of_nat (length msgs + 1) - 1) with (Z.of_nat (length msgs)) by lia.
  rewrite get_index. step.
  rewrite lookup_app_r by lia. rewrite Nat.sub_diag. cbn [lookup list_lookup from_option].
  unfold Datatypes.id. rewrite Hc. reflexivity.
Qed.

(** X19 on a short message. *)
Lemma ConversationItem_preview_line_witness :
  get "messages" (conversation "1" "T" [text_message "m1" "user" "hi"])
    = Ok (VArr ([] ++ [text_message "m1" "user" "hi"])) ∧
  get "content" (text_message "m1" "user" "hi") = Ok (VStr "hi") ∧
  ConversationItem_preview (conversation "1" "T" [text_message "m1" "user" "hi"])
    = Ok "hi...".
Proof.
  split; [reflexivity|]. split; [reflexivity|].
  destruct (ConversationItem_preview_line
              (conversation "1" "T" [text_message "m1" "user" "hi"]) []
              (text_message "m1" "user" "hi") "hi" eq_refl eq_refl)
    as (line & E & _ & _ & Hshort).
  rewrite E, Hshort; [reflexivity|]. cbn. lia.
Defined.

(** ** The header *)

Lemma appReducer_SET_THEME (s theme : value) :
  appReducer s (setTheme theme) = Ok (VObj (<["theme" := theme]> (spread s))).
Proof. reflexivity. Qed.

(** X20. The theme switch of the header. On a state whose theme is "light"
    or "dark", [handleThemeToggle] dispatches the other theme, and a second
    toggle on the state so obtained gives the first state back. For every
    other value of [theme] the toggle dispatches "light". *)
Theorem handleThemeToggle_twice :
  (∀ (m : gmap string value) (theme : string) (w : World),
     m !! "theme" = Some (VStr theme) →
     theme = "light" ∨ theme = "dark" →
     ∃ (a1 a2 : Action) (s1 : value) (w1 w2 : World),
       handleThemeToggle (VObj m) w = (Ok tt, w1) ∧
       dispatched w1 = (dispatched w ++ [a1])%list ∧
       appReducer (VObj m) a1 = Ok s1 ∧
       get "theme" s1 = Ok (VStr (if String.eqb theme "light" then "dark" else "light")) ∧
       handleThemeToggle s1 w1 = (Ok tt, w2) ∧
       dispatched w2 = (dispatched w1 ++ [a2])%list ∧
       appReducer s1 a2 = Ok (VObj m)) ∧
  (∀ (s theme : value) (w : World),
     get "theme" s = Ok theme →
     theme ≠ VStr "light" →
     ∃ w1, handleThemeToggle s w = (Ok tt, w1) ∧
           dispatched w1 = (dispatched w ++ [setTheme (VStr "light")])%list).
Proof.
  split.
  - intros m theme w Hm Hth.
    assert (∀ (m' : gmap string value) (t : string) (w0 : World),
              m' !! "theme" = Some (VStr t) →
              handleThemeToggle (VObj m') w0 =
              (Ok tt, mkWorld (stored w0) (quota w0) (accessible w0) (console w0)
                        (dispatched w0 ++
                         [setTheme (VStr (if String.eqb t "light" then "dark"
                                          else "light"))]))) as Hrun.
    { intros m' t w0 H. unfold handleThemeToggle, lift.
      erewrite bind_ok by (cbn [get]; rewrite H; reflexivity).
      change (strict_eq (default VUndefined (Some (VStr t))) (VStr "light"))
        with (String.eqb t "light").
      destruct (String.eqb t "light"); apply dispatch_ok. }
    set (theme' := if String.eqb theme "light" then "dark" else "light").
    set (m1 := <["theme" := VStr theme']> m).
    assert (m1 !! "theme" = Some (VStr theme')) as Hm1 by apply lookup_insert_eq.
    assert ((if String.eqb theme' "light" then "dark" else "light") = theme) as Hback.
    { unfold theme'. destruct Hth as [-> | ->]; reflexivity. }
    exists (setTheme (VStr theme')), (setTheme (VStr theme)), (VObj m1).
    eexists. eexists.
    split; [apply (Hrun m theme w Hm)|]. split; [reflexivity|].
    split; [apply appReducer_SET_THEME|].
    split; [cbn [get]; rewrite Hm1; reflexivity|].
    split; [rewrite (Hrun m1 theme' _ Hm1), Hback; reflexivity|].
    split; [reflexivity|].
    rewrite appReducer_SET_THEME. cbn [spread]. unfold m1.
    rewrite insert_insert_eq, insert_id by exact Hm. reflexivity.
  - intros s theme w Hs Hne.
    assert (strict_eq theme (VStr "light") = false) as E.
    { destruct (strict_eq theme (VStr "light")) eqn:E; [|reflexivity].
      apply strict_eq_true_iff in E. contradiction. }
    eexists. split.
    + unfold handleThemeToggle, lift. erewrite bind_ok by (rewrite Hs; reflexivity).
      rewrite E. apply dispatch_ok.
    + reflexivity.
Qed.

(** X20 on [initialState]. *)
Lemma handleThemeToggle_twice_witness :
  spread initialState !! "theme" = Some (VStr "light") ∧
  ("light" = "light" ∨ "light" = "dark") ∧
  ∃ (a1 a2 : Action) (s1 : value),
    appReducer initialState a1 = Ok s1 ∧
    get "theme" s1 = Ok (VStr "dark") ∧
    appReducer s1 a2 = Ok initialState.
Proof.
  split; [reflexivity|]. split; [left; reflexivity|].
  destruct (proj1 handleThemeToggle_twice (spread initialState) "light"
              (mkWorld ∅ 5000 true [] []) eq_refl (or_introl eq_refl))
    as (a1 & a2 & s1 & w1 & w2 & _ & _ & E1 & Ht & _ & _ & E2).
  exists a1, a2, s1. split; [exact E1|]. split; [exact Ht|exact E2].
Defined.

(** ** The welcome screen *)

(** X21. A quick prompt. For a prompt whose title is a string,
    [handleQuickPrompt] dispatches a conversation with
    the prompt's title and one user message, the prompt's text; the timer's
    callback dispatches the simulated answer for the conversation's id. Run
    through the reducer from a state of the data model, the new conversation
    is first in the collection and active, and holds the two messages in that
    order; the answer is also appended to every older conversation with the
    same id. *)
Theorem handleQuickPrompt_conversation
  (s prompt content : value) (title : string) (clock later : nat → Time) (w : World) :
  is_state s = true →
  get "title" prompt = Ok (VStr title) →
  get "prompt" prompt = Ok content →
  ∃ (c reply c' : value) (w1 w2 : World) (s2 : value),
    handleQuickPrompt prompt clock w = (Ok c, w1) ∧
    handleQuickPrompt_timeout prompt c later w1 = (Ok tt, w2) ∧
    dispatched w2 = (dispatched w ++ [addConversation c; addMessage (id_of c) reply])%list ∧
    id_of c = VStr (Z_to_string (now (clock 0%nat))) ∧
    reply = message_object (Z_to_string (now (later 0%nat) + 1)) (VStr "assistant")
              (VStr (quick_reply_text title)) (later 1%nat) ∧
    dispatch_all s [addConversation c; addMessage (id_of c) reply] = Ok s2 ∧
    conversations_of s2 = c' :: map (push_message (id_of c) reply) (conversations_of s) ∧
    active_of s2 = c' ∧
    get "title" c' = Ok (VStr title) ∧
    messages_of c' =
      [message_object (Z_to_string (now (clock 1%nat))) (VStr "user") content (clock 2%nat);
       reply].
Proof.
  intros Hs Ht Hp.
  set (msg := message_object (Z_to_string (now (clock 1%nat))) (VStr "user") content
                (clock 2%nat)).
  set (c := VObj (<["pinned" := VBool false]>
         (<["updatedAt" := VDate (iso (clock 4%nat))]>
         (<["createdAt" := VDate (iso (clock 3%nat))]>
         (<["messages" := VArr [msg]]>
         (<["title" := VStr title]>
         (<["id" := VStr (Z_to_string (now (clock 0%nat)))]> ∅))))))).
  set (reply := message_object (Z_to_string (now (later 0%nat) + 1)) (VStr "assistant")
                  (VStr (quick_reply_text title)) (later 1%nat)).
  set (id := VStr (Z_to_string (now (clock 0%nat)))).
  assert (id_of c = id) as Hid.
  { unfold id_of, c. rewrite !lookup_insert_ne by done. rewrite lookup_insert_eq.
    reflexivity. }
  assert (is_conversation c = true) as Hc.
  { unfold is_conversation, c. rewrite !lookup_insert_ne by done.
    rewrite lookup_insert_eq. reflexivity. }
  assert (messages_of c = [msg]) as Hmsgs.
  { unfold messages_of, c. rewrite !lookup_insert_ne by done.
    rewrite lookup_insert_eq. reflexivity. }
  assert (has_id id c = true) as Hhas.
  { unfold has_id. rewrite Hid. unfold id. cbn [strict_eq]. apply String.eqb_refl. }
  assert (id ≠ VUndefined) as Hne by discriminate.
  destruct (addConversation_step s c Hs Hc) as (s1 & E1 & Hs1 & C1 & A1).
  destruct (addMessage_step s1 id reply Hs1 Hne) as (s2 & E2 & Hs2 & C2 & A2).
  exists c, reply, (push_message id reply c). eexists. eexists. exists s2.
  split; [|split; [|split; [|split; [|split; [|split; [|split; [|split; [|split]]]]]]]].
  - unfold handleQuickPrompt, lift.
    erewrite bind_ok by (rewrite Ht; reflexivity).
    erewrite bind_ok by (rewrite Hp; reflexivity).
    erewrite bind_ok by apply dispatch_ok. reflexivity.
  - unfold handleQuickPrompt_timeout, lift.
    erewrite bind_ok by (rewrite Ht; reflexivity).
    erewrite bind_ok by reflexivity.
    erewrite bind_ok by (rewrite (get_id_conversation c Hc), Hid; reflexivity).
    apply dispatch_ok.
  - cbn [dispatched]. rewrite Hid, <- app_assoc. reflexivity.
  - exact Hid.
  - reflexivity.
  - cbn [dispatch_all]. rewrite E1. step. rewrite Hid, E2. reflexivity.
  - rewrite C2, C1, Hid. reflexivity.
  - rewrite A2, A1. reflexivity.
  - unfold push_message. rewrite Hhas. unfold get, c. cbn [spread].
    rewrite !lookup_insert_ne by done. rewrite lookup_insert_eq. reflexivity.
  - rewrite messages_of_push_message, Hhas, Hmsgs. reflexivity.
Qed.

(** X21 on the last prompt of the catalogue. *)
Lemma handleQuickPrompt_conversation_witness :
  is_state initialState = true ∧
  get "title" (prompt "Grid Load" "Show current grid load distribution"
                 "What's the current grid load distribution?") = Ok (VStr "Grid Load") ∧
  ∃ s2 c', dispatch_all initialState
             (dispatched
                ((c ← handleQuickPrompt
                        (prompt "Grid Load" "Show current grid load distribution"
                           "What's the current grid load distribution?")
                        (fun _ => an_instant);
                  handleQuickPrompt_timeout
                    (prompt "Grid Load" "Show current grid load distribution"
                       "What's the current grid load distribution?")
                    c (fun _ => an_instant)) (mkWorld ∅ 5000 true [] [])).2) = Ok s2 ∧
           active_of s2 = c' ∧ length (messages_of c') = 2%nat.
Proof.
  split; [reflexivity|]. split; [reflexivity|].
  destruct (handleQuickPrompt_conversation initialState
              (prompt "Grid Load" "Show current grid load distribution"
                 "What's the current grid load distribution?")
              (VStr "What's the current grid load distribution?") "Grid Load"
              (fun _ => an_instant) (fun _ => an_instant) (mkWorld ∅ 5000 true [] [])
              eq_refl eq_refl eq_refl)
    as (c & reply & c' & w1 & w2 & s2 & E1 & E2 & Hd & _ & _ & E & _ & A & _ & Hm).
  exists s2, c'. split; [|split; [exact A|rewrite Hm; reflexivity]].
  unfold mbind, eff_bind. rewrite E1, E2. cbn [snd]. rewrite Hd. exact E.
Defined.

(** ** Login *)

Lemma findM_pure {A : Type} (p : A → result bool) (q : A → bool) (P : A → bool) (l : list A) :
  (∀ x, P x = true → p x = Ok (q x)) →
  forallb P l = true → findM p l = Ok (List.find q l).
Proof.
  intros H. induction l as [|x l IH]; [reflexivity|].
  cbn [forallb findM List.find]. intros [Hx Hl]%andb_prop.
  rewrite (H x Hx). step. destruct (q x); [reflexivity|]. apply IH, Hl.
Qed.

(** X22. Login. When the catalogue of roles is an array of objects and the
    first letter of the name has a capital within the model, the callback of
    the login form dispatches [SET_USER] with a user made of the name typed, the first role of the catalogue whose id is
    the one selected ([undefined] when there is none) and the avatar letter;
    after the transition [AppContent] renders the main application. The
    password is never read: the outcome is the same for every password. *)
Theorem login_accepts_any_password
  (s : value) (roles : list value) (form : FormData) (avatar : string) (w : World) :
  get "userRoles" s = Ok (VArr roles) →
  forallb (fun r => negb (nullish r)) roles = true →
  avatar_of (username form) = Ok avatar →
  ∃ (user : value) (w' : World) (s' : value),
    LoginPage_handleSubmit s form w = (Ok tt, w') ∧
    dispatched w' = (dispatched w ++ [setUser user])%list ∧
    user = VObj (<["avatar" := VStr avatar]>
                (<["role" := default VUndefined
                               (List.find (fun r => strict_eq (prop_of "id" r)
                                                      (VStr (userRole form))) roles)]>
                (<["username" := VStr (username form)]> ∅))) ∧
    appReducer s (setUser user) = Ok s' ∧
    AppContent s' = Ok MainApp ∧
    ∀ other : string,
      LoginPage_handleSubmit s (mkFormData (username form) other (userRole form)) w
      = (Ok tt, w').
Proof.
  intros Hr Hroles Hav.
  set (q := fun r => strict_eq (prop_of "id" r) (VStr (userRole form))).
  assert (∀ f : FormData,
            username f = username form → userRole f = userRole form →
            LoginPage_handleSubmit s f w =
            (Ok tt,
             mkWorld (stored w) (quota w) (accessible w) (console w)
               (dispatched w ++
                [setUser (VObj (<["avatar" := VStr avatar]>
                               (<["role" := default VUndefined (List.find q roles)]>
                               (<["username" := VStr (username form)]> ∅))))]))) as Hrun.
  { intros f Hu Hrole. unfold LoginPage_handleSubmit, lift, handleLogin.
    erewrite bind_ok by (rewrite Hr; reflexivity).
    erewrite bind_ok; cycle 1.
    { cbn [array_find].
      rewrite (findM_pure _ q (fun r => negb (nullish r)) roles); [reflexivity| |exact Hroles].
      intros r Hn. apply negb_true_iff in Hn. rewrite (get_prop_of _ _ Hn), Hrole.
      reflexivity. }
    erewrite bind_ok by (rewrite Hu, Hav; reflexivity).
    rewrite Hu. apply dispatch_ok. }
  eexists. eexists. eexists.
  split; [apply Hrun; reflexivity|]. split; [reflexivity|]. split; [reflexivity|].
  split; [reflexivity|]. split.
  - unfold AppContent, get. rewrite lookup_insert_eq. reflexivity.
  - intros other. apply Hrun; reflexivity.
Qed.

(** X22 on [initialState], with an empty password. *)
Lemma login_accepts_any_password_witness :
  get "userRoles" initialState = Ok userRoles ∧
  avatar_of "ana" = Ok "A" ∧
  ∃ user w' s',
    LoginPage_handleSubmit initialState (mkFormData "ana" "" "command_center")
      (mkWorld ∅ 5000 true [] []) = (Ok tt, w') ∧
    dispatched w' = [setUser user] ∧
    get "role" user = Ok (role "command_center" "Command Center Operator"
                            "Situational awareness and operational control" "#3B82F6") ∧
    appReducer initialState (setUser user) = Ok s' ∧
    AppContent s' = Ok MainApp.
Proof.
  split; [reflexivity|]. split; [reflexivity|].
  destruct (login_accepts_any_password initialState
              [role "field_technician" "Field Technician"
                 "Real-time fault detection and resolution" "#10B981";
               role "command_center" "Command Center Operator"
                 "Situational awareness and operational control" "#3B82F6";
               role "senior_leadership" "Senior Leadership"
                 "Strategic insights and performance monitoring" "#8B5CF6"]
              (mkFormData "ana" "" "command_center") "A" (mkWorld ∅ 5000 true [] [])
              eq_refl eq_refl eq_refl)
    as (user & w' & s' & E & Hd & Hu & Er & Hv & _).
  exists user, w', s'. split; [exact E|]. split; [exact Hd|].
  split; [rewrite Hu; vm_compute; reflexivity|]. split; [exact Er|exact Hv].
Defined.

(** ** Deleting from the sidebar *)

Lemma ConversationItem_isActive_has_id (s c id : value) :
  is_state s = true → get "id" c = Ok id →
  ConversationItem_isActive s c = Ok (has_id id (active_of s)).
Proof.
  intros Hs Hid.
  destruct (is_state_inv s Hs) as (m & cs & a & -> & Ecs & Hcs & Ea & Ha).
  unfold ConversationItem_isActive, active_of. cbn [get]. rewrite Ea. step.
  cbn [from_option]. unfold Datatypes.id.
  rewrite (get_opt_id_active a Ha). step. rewrite Hid. reflexivity.
Qed.

(** X23. Deleting from the sidebar. On a state of the data model, the delete
    button of an entry dispatches [DELETE_CONVERSATION] with the entry's id. If the entry is shown as the
    active one, [MainChat] renders the welcome screen after the transition;
    otherwise the active conversation and what [MainChat] renders stay. *)
Theorem ConversationItem_handleDelete_pane (s c id : value) (w : World) :
  is_state s = true →
  get "id" c = Ok id →
  ∃ (w' : World) (s' : value),
    ConversationItem_handleDelete c w = (Ok tt, w') ∧
    dispatched w' = (dispatched w ++ [deleteConversation id])%list ∧
    appReducer s (deleteConversation id) = Ok s' ∧
    (ConversationItem_isActive s c = Ok true → MainChat s' = Ok WelcomeScreen) ∧
    (ConversationItem_isActive s c = Ok false →
     active_of s' = active_of s ∧ MainChat s' = MainChat s).
Proof.
  intros Hs Hid.
  rewrite (ConversationItem_isActive_has_id s c id Hs Hid).
  pose proof (appReducer_DELETE_CONVERSATION s (deleteConversation id) eq_refl Hs) as E.
  cbn [payload deleteConversation] in E.
  eexists. eexists. split.
  { unfold ConversationItem_handleDelete, lift.
    erewrite bind_ok by (rewrite Hid; reflexivity). apply dispatch_ok. }
  split; [reflexivity|]. split; [exact E|].
  - destruct (is_state_inv s Hs) as (m & cs & a & -> & Ecs & Hcs & Ea & Ha).
    unfold MainChat, active_of. cbn [get spread]. rewrite !lookup_insert_eq, Ea.
    cbn [from_option]. unfold Datatypes.id. split.
    + intros [= ->]. reflexivity.
    + intros [= ->]. split; reflexivity.
Qed.

(** X23 on [two_conversations]: the active conversation is deleted. *)
Lemma ConversationItem_handleDelete_pane_witness :
  is_state two_conversations = true ∧
  get "id" (conversation "1" "T" []) = Ok (VStr "1") ∧
  ConversationItem_isActive two_conversations (conversation "1" "T" []) = Ok true ∧
  ∃ s', appReducer two_conversations (deleteConversation (VStr "1")) = Ok s' ∧
        MainChat s' = Ok WelcomeScreen.
Proof.
  split; [reflexivity|]. split; [reflexivity|]. split; [reflexivity|].
  destruct (ConversationItem_handleDelete_pane two_conversations (conversation "1" "T" [])
              (VStr "1") (mkWorld ∅ 5000 true [] []) eq_refl eq_refl)
    as (w' & s' & _ & _ & E & Hyes & _).
  exists s'. split; [exact E|]. apply Hyes. reflexivity.
Defined.

(** ** Feedback on messages *)

Lemma singleton_apart (x y : string) (A B : gset string) :
  A ## B → (A ∖ {[x]}) ## (B ∪ {[x]}) ∧ (A ∪ {[x]}) ## (B ∖ {[x]}) ∧
  (A ∖ {[y]}) ## B ∧ A ## (B ∖ {[y]}).
Proof.
  intros H. rewrite !elem_of_disjoint. rewrite elem_of_disjoint in H.
  repeat split; intros z; rewrite ?elem_of_difference, ?elem_of_union, ?elem_of_singleton;
    intros H1 H2; specialize (H z); tauto.
Qed.

(** X24. Likes and dislikes exclude each other. If no message is both liked
    and disliked, none is after [handleLike] or [handleDislike]. Each handler
    flips the message's membership of its own set and leaves the other
    messages as they were in both sets. *)
Theorem feedback_is_exclusive (messageId : string) (liked disliked : gset string) :
  liked ## disliked →
  (handleLike messageId liked disliked).1 ## (handleLike messageId liked disliked).2 ∧
  (handleDislike messageId liked disliked).1 ## (handleDislike messageId liked disliked).2 ∧
  (messageId ∈ (handleLike messageId liked disliked).1 ↔ messageId ∉ liked) ∧
  (messageId ∈ (handleDislike messageId liked disliked).2 ↔ messageId ∉ disliked) ∧
  (∀ other, other ≠ messageId →
     (other ∈ (handleLike messageId liked disliked).1 ↔ other ∈ liked) ∧
     (other ∈ (handleLike messageId liked disliked).2 ↔ other ∈ disliked) ∧
     (other ∈ (handleDislike messageId liked disliked).1 ↔ other ∈ liked) ∧
     (other ∈ (handleDislike messageId liked disliked).2 ↔ other ∈ disliked)).
Proof.
  intros Hd.
  destruct (singleton_apart messageId messageId liked disliked Hd) as (D1 & D2 & D3 & D4).
  unfold handleLike, handleDislike.
  destruct (decide (messageId ∈ liked)) as [Hl|Hl],
           (decide (messageId ∈ disliked)) as [Hr|Hr]; cbn [fst snd];
    (split; [assumption|]); (split; [assumption|]);
    rewrite ?elem_of_difference, ?elem_of_union, ?elem_of_singleton;
    (split; [tauto|]); (split; [tauto|]);
    intros other Hne;
    rewrite ?elem_of_difference, ?elem_of_union, ?elem_of_singleton; tauto.
Qed.

(** X24: a liked message is disliked. *)
Lemma feedback_is_exclusive_witness :
  ({["m1"]} : gset string) ## {["m2"]} ∧
  (handleDislike "m1" {["m1"]} {["m2"]}).1 ## (handleDislike "m1" {["m1"]} {["m2"]}).2.
Proof.
  assert (({["m1"]} : gset string) ## {["m2"]}) as Hd.
  { apply disjoint_singleton_l. intros H%elem_of_singleton. discriminate H. }
  split; [exact Hd|].
  exact (proj1 (proj2 (feedback_is_exclusive "m1" {["m1"]} {["m2"]} Hd))).
Defined.

(** ** The data model across a reload *)

Lemma toJSON_conversation (c : value) :
  is_conversation c = true →
  element_toJSON c = toJSON c ∧
  is_conversation (toJSON c) = true ∧
  messages_of (toJSON c) = map element_toJSON (messages_of c) ∧
  id_of (toJSON c) = match id_of c with VUndefined => VUndefined | x => toJSON x end.
Proof.
  intros (m & ms & -> & Hm)%is_conversation_inv.
  split; [reflexivity|]. rewrite toJSON_object.
  unfold is_conversation, messages_of, id_of. rewrite !lookup_omap, Hm.
  cbn [mbind option_bind field_toJSON]. rewrite toJSON_array.
  split; [reflexivity|]. split; [reflexivity|].
  destruct (m !! "id") as [[]|]; reflexivity.
Qed.

(** X25. The data model survives a reload. For a state of the data model,
    dates included, encoding it, decoding the text and merging with the
    default state succeeds and gives a state of the data model again, with
    the same conversations in the same order ([toJSON] of each, dates turned
    into strings), each with as many messages as before, and the same active
    conversation. *)
Theorem round_trip_keeps_data_model (d m : gmap string value) :
  is_state (VObj m) = true →
  ∃ s', round_trip (VObj d) (VObj m) = Ok s' ∧
        is_state s' = true ∧
        conversations_of s' = map toJSON (conversations_of (VObj m)) ∧
        active_of s' = toJSON (active_of (VObj m)) ∧
        ∀ (i : nat) (c : value),
          conversations_of (VObj m) !! i = Some c →
          ∃ c', conversations_of s' !! i = Some c' ∧
                length (messages_of c') = length (messages_of c).
Proof.
  intros Hs.
  destruct (is_state_inv _ Hs) as (m0 & cs & a & [= <-] & Ecs & Hcs & Ea & Ha).
  destruct (JSON_stringify (VObj m)) as [text|] eqn:Etext;
    [|unfold JSON_stringify in Etext; rewrite serialize_object in Etext; discriminate].
  unfold round_trip. rewrite Etext. change (default "undefined" (Some text)) with text.
  rewrite (JSON_parse_stringify _ _ Etext), toJSON_object. step.
  unfold hydratedState. cbn [get spread]. step.
  set (h := <["quickPrompts" := default VUndefined (d !! "quickPrompts")]>
            (<["userRoles" := default VUndefined (d !! "userRoles")]>
               (omap field_toJSON m ∪ d))).
  assert (map element_toJSON cs = map toJSON cs) as Hel.
  { apply map_ext_in. intros c Hc. rewrite forallb_forall in Hcs.
    apply (toJSON_conversation c (Hcs c Hc)). }
  assert (h !! "conversations" = Some (VArr (map toJSON cs))) as Hhc.
  { unfold h. rewrite !lookup_insert_ne by done.
    apply lookup_union_Some_l. rewrite lookup_omap, Ecs. cbn [mbind option_bind field_toJSON].
    rewrite toJSON_array, Hel. reflexivity. }
  assert (h !! "activeConversation" = Some (toJSON a)) as Hha.
  { unfold h. rewrite !lookup_insert_ne by done.
    apply lookup_union_Some_l. rewrite lookup_omap, Ea. cbn [mbind option_bind].
    destruct Ha as [-> | Ha]; [reflexivity|].
    apply is_conversation_inv in Ha as (ma & ms & -> & _). reflexivity. }
  assert (forallb is_conversation (map toJSON cs) = true) as Hcs'.
  { rewrite forallb_forall. intros c' (c & <- & Hc)%in_map_iff.
    rewrite forallb_forall in Hcs. apply (toJSON_conversation c (Hcs c Hc)). }
  exists (VObj h). split; [reflexivity|].
  unfold conversations_of, active_of. rewrite Hhc, Hha, Ecs, Ea.
  cbn [from_option]. unfold Datatypes.id.
  split; [|split; [reflexivity|split; [reflexivity|]]].
  - apply (is_state_intro h (map toJSON cs) (toJSON a) Hhc Hcs' Hha).
    destruct Ha as [-> | Ha]; [left; reflexivity|right].
    apply (toJSON_conversation a Ha).
  - intros i c Hi. exists (toJSON c). split.
    + change (map toJSON cs) with (toJSON <$> cs). rewrite list_lookup_fmap, Hi. reflexivity.
    + assert (is_conversation c = true) as Hc.
      { rewrite forallb_forall in Hcs. apply Hcs, list_elem_of_In.
        eapply list_elem_of_lookup_2, Hi. }
      destruct (toJSON_conversation c Hc) as (_ & _ & -> & _). apply length_map.
Qed.

(** X25 on the state after [handleNewChat], which holds dates. *)
Lemma round_trip_keeps_data_model_witness :
  is_state state_after_new_chat = true ∧
  ∃ s', round_trip initialState state_after_new_chat = Ok s' ∧ is_state s' = true.
Proof.
  split; [reflexivity|].
  destruct (round_trip_keeps_data_model (spread initialState) (spread state_after_new_chat)
              eq_refl) as (s' & E & Hs' & _).
  exists s'. split; [exact E|exact Hs'].
Defined.

(** ** What a message leaves alone *)

(** X26. What a message leaves alone. On a state of the data model and for
    a defined id, [ADD_MESSAGE] changes no field of a
    conversation but [messages], in the collection and in the active copy:
    title, [pinned], [createdAt] and [updatedAt] stay (a message does not
    refresh [updatedAt]). *)
Theorem addMessage_touches_only_messages (s id msg : value) :
  is_state s = true → id ≠ VUndefined →
  ∃ s', appReducer s (addMessage id msg) = Ok s' ∧
        (∀ (i : nat) (c : value),
           conversations_of s !! i = Some c →
           ∃ c', conversations_of s' !! i = Some c' ∧
                 ∀ k, k ≠ "messages" → spread c' !! k = spread c !! k) ∧
        (∀ k, k ≠ "messages" → spread (active_of s') !! k = spread (active_of s) !! k).
Proof.
  intros Hs Hid.
  destruct (addMessage_step s id msg Hs Hid) as (s' & E & _ & C & A).
  assert (∀ c k, k ≠ "messages" →
                 spread (push_message id msg c) !! k = spread c !! k) as Hframe.
  { intros c k Hk. unfold push_message. destruct (has_id id c); [|reflexivity].
    cbn [spread]. apply lookup_insert_ne. congruence. }
  exists s'. split; [exact E|]. split.
  - intros i c Hi. exists (push_message id msg c). split; [|apply Hframe].
    rewrite C. change (map ?f ?l) with (f <$> l). rewrite list_lookup_fmap, Hi. reflexivity.
  - intros k Hk. rewrite A. apply Hframe, Hk.
Qed.

(** X26 on the state after [handleNewChat]: [updatedAt] stays. *)
Lemma addMessage_touches_only_messages_witness :
  is_state state_after_new_chat = true ∧
  VStr (Z_to_string (now an_instant)) ≠ VUndefined ∧
  ∃ s', appReducer state_after_new_chat
          (addMessage (VStr (Z_to_string (now an_instant))) (text_message "m1" "user" "hi"))
        = Ok s' ∧
        spread (active_of s') !! "updatedAt" = Some (VDate (iso an_instant)).
Proof.
  assert (VStr (Z_to_string (now an_instant)) ≠ VUndefined) as Hid by discriminate.
  split; [reflexivity|]. split; [exact Hid|].
  destruct (addMessage_touches_only_messages state_after_new_chat
              (VStr (Z_to_string (now an_instant))) (text_message "m1" "user" "hi")
              eq_refl Hid) as (s' & E & _ & Ha).
  exists s'. split; [exact E|]. rewrite (Ha "updatedAt") by discriminate. reflexivity.
Defined.

(** ** Selecting and clearing *)

(** X27. Selecting in the sidebar. On a state of the data model, a click on
    an entry dispatches
    [SET_ACTIVE_CONVERSATION] with the entry's conversation; after the
    transition that conversation is the active one, the collection is as it
    was, [MainChat] renders the chat area, and the entries shown as active
    are those whose id equals the clicked one's. *)
Theorem ConversationItem_handleClick_selects (s c : value) (w : World) :
  is_state s = true → is_conversation c = true →
  ∃ (w' : World) (s' : value),
    ConversationItem_handleClick c w = (Ok tt, w') ∧
    dispatched w' = (dispatched w ++ [setActiveConversation c])%list ∧
    appReducer s (setActiveConversation c) = Ok s' ∧
    is_state s' = true ∧
    active_of s' = c ∧
    conversations_of s' = conversations_of s ∧
    MainChat s' = Ok ChatArea ∧
    ∀ c2, is_conversation c2 = true →
          ConversationItem_isActive s' c2 = Ok (strict_eq (id_of c) (id_of c2)).
Proof.
  intros Hs Hc.
  destruct (is_state_inv s Hs) as (m & cs & a & -> & Ecs & Hcs & Ea & Ha).
  set (s' := VObj (<["activeConversation" := c]> m)).
  assert (is_state s' = true) as Hs'.
  { apply (is_state_intro _ cs c); auto.
    - rewrite lookup_insert_ne by done. exact Ecs.
    - apply lookup_insert_eq. }
  eexists. exists s'. split; [apply dispatch_ok|]. split; [reflexivity|].
  split; [reflexivity|]. split; [exact Hs'|]. split; [apply active_of_set|].
  split; [|split].
  - unfold s', conversations_of. rewrite lookup_insert_ne by done. reflexivity.
  - unfold MainChat, s'. cbn [get]. rewrite lookup_insert_eq. step.
    cbn [from_option]. unfold Datatypes.id.
    apply is_conversation_inv in Hc as (mc & ms & -> & _). reflexivity.
  - intros c2 Hc2.
    rewrite (ConversationItem_isActive_has_id s' c2 (id_of c2) Hs' (get_id_conversation c2 Hc2)).
    unfold s'. rewrite active_of_set. reflexivity.
Qed.

(** X27 on [two_conversations]: conversation "2" is selected. *)
Lemma ConversationItem_handleClick_selects_witness :
  is_state two_conversations = true ∧ is_conversation (conversation "2" "U" []) = true ∧
  ∃ s', appReducer two_conversations (setActiveConversation (conversation "2" "U" [])) = Ok s' ∧
        ConversationItem_isActive s' (conversation "2" "U" []) = Ok true ∧
        ConversationItem_isActive s' (conversation "1" "T" []) = Ok false.
Proof.
  split; [reflexivity|]. split; [reflexivity|].
  destruct (ConversationItem_handleClick_selects two_conversations (conversation "2" "U" [])
              (mkWorld ∅ 5000 true [] []) eq_refl eq_refl)
    as (w' & s' & _ & _ & E & _ & _ & _ & _ & Hact).
  exists s'. split; [exact E|]. rewrite !Hact by reflexivity. split; reflexivity.
Defined.

(** X28. Clearing all conversations. When the user confirms,
    [handleClearAllConversations] dispatches [CLEAR_ALL_CONVERSATIONS]; from
    any state the transition leaves no conversation at all (none is created),
    no active conversation and the user as it was, and [MainChat] renders the
    welcome screen. When the user declines, nothing happens. *)
Theorem handleClearAllConversations_leaves_none (s : value) (w : World) :
  (∃ (w' : World) (s' : value),
     handleClearAllConversations true w = (Ok tt, w') ∧
     dispatched w' = (dispatched w ++ [clearAllConversations])%list ∧
     appReducer s clearAllConversations = Ok s' ∧
     is_state s' = true ∧
     conversations_of s' = [] ∧
     active_of s' = VNull ∧
     MainChat s' = Ok WelcomeScreen ∧
     spread s' !! "currentUser" = spread s !! "currentUser") ∧
  handleClearAllConversations false w = (Ok tt, w).
Proof.
  split; [|reflexivity].
  eexists. eexists. split; [apply dispatch_ok|]. split; [reflexivity|].
  split; [reflexivity|].
  unfold is_state, conversations_of, active_of, MainChat, get. cbn [spread].
  rewrite !lookup_insert_eq, !lookup_insert_ne by done.
  rewrite !lookup_insert_eq. repeat split.
  rewrite !lookup_insert_ne by done. reflexivity.
Qed.

(** ** Export *)








(** ** The user interface and the reducer *)










